(** * greenrun: a type-directed random value generator

    A shallow embedding of [greenrun.go] (package [greenrun]) together
    with the properties of its recursive generation algorithm.

    The Go program works by reflection: it inspects the [reflect.Type] of a
    settable [reflect.Value], looks for custom functions registered for that
    type, and otherwise fills the value according to its [reflect.Kind].
    The embedding keeps that shape:

    - Module [reflect] holds kinds, type descriptors, values and the few
      operations of package [reflect] the program calls;
    - Module [rand] holds the pseudo-random stream of package [math/rand];
    - the rest follows [greenrun.go] function by function, in a state and
      error monad over the generation context [greenrunerContext].
*)

From Stdlib Require Import ZArith String List Bool Lia.
From Stdlib Require Import Floats.PrimFloat Numbers.Cyclic.Int63.Uint63.
Import ListNotations.

#[local] Set Warnings "-register-all".
#[local] Open Scope string_scope.
#[local] Open Scope Z_scope.

(* ================================================================= *)
(** ** Machine integers *)

(** Go's [uint64], [int64] and [int] (64 bits wide on the platforms the
    program is built for) as [Z] with the wrap-around written out. *)

Definition wrapU (bits : Z) (z : Z) : Z := z mod 2 ^ bits.

Definition wrapS (bits : Z) (z : Z) : Z :=
  let u := wrapU bits z in
  if u <? 2 ^ (bits - 1) then u else u - 2 ^ bits.

(** [int] arithmetic: subtraction and addition wrap. *)
Definition int_sub (a b : Z) : Z := wrapS 64 (a - b).
Definition int_add (a b : Z) : Z := wrapS 64 (a + b).

Definition MaxInt64 : Z := 2 ^ 63 - 1.
Definition MinInt64 : Z := - 2 ^ 63.
Definition is_int (z : Z) : Prop := MinInt64 <= z <= MaxInt64.

(* ================================================================= *)
(** ** Results of a computation that may panic *)

Inductive result (A : Type) : Type :=
| Ok (a : A)
| Panic (msg : string)
| OutOfFuel.

Arguments Ok {A} a.
Arguments Panic {A} msg.
Arguments OutOfFuel {A}.

Definition is_panic {A} (x : result A) : bool :=
  match x with Panic _ => true | _ => false end.

Definition is_ok {A} (x : result A) : bool :=
  match x with Ok _ => true | _ => false end.

Definition rbind {A B} (x : result A) (k : A -> result B) : result B :=
  match x with
  | Ok a => k a
  | Panic m => Panic m
  | OutOfFuel => OutOfFuel
  end.

(* ================================================================= *)
(** ** Package reflect *)

Module reflect.

(** [reflect.Kind]. *)
Inductive Kind : Set :=
| Invalid
| Bool
| Int | Int8 | Int16 | Int32 | Int64
| Uint | Uint8 | Uint16 | Uint32 | Uint64 | Uintptr
| Float32 | Float64
| Complex64 | Complex128
| Array | Chan | Func | Interface | Map | Ptr | Slice
| String
| Struct
| UnsafePointer.

Definition Kind_eq_dec : forall a b : Kind, {a = b} + {a <> b}.
Proof. decide equality. Defined.

Definition Kind_eqb (a b : Kind) : bool :=
  if Kind_eq_dec a b then true else false.

(** The predeclared scalar types. *)
Inductive Basic : Set :=
| BBool
| BInt | BInt8 | BInt16 | BInt32 | BInt64
| BUint | BUint8 | BUint16 | BUint32 | BUint64 | BUintptr
| BFloat32 | BFloat64
| BComplex64 | BComplex128
| BString
| BUnsafePointer.

Definition Basic_eq_dec : forall a b : Basic, {a = b} + {a <> b}.
Proof. decide equality. Defined.

Definition Basic_Kind (b : Basic) : Kind :=
  match b with
  | BBool => Bool
  | BInt => Int | BInt8 => Int8 | BInt16 => Int16 | BInt32 => Int32
  | BInt64 => Int64
  | BUint => Uint | BUint8 => Uint8 | BUint16 => Uint16 | BUint32 => Uint32
  | BUint64 => Uint64 | BUintptr => Uintptr
  | BFloat32 => Float32 | BFloat64 => Float64
  | BComplex64 => Complex64 | BComplex128 => Complex128
  | BString => String
  | BUnsafePointer => UnsafePointer
  end.

(** [reflect.Type]: a type descriptor.  A struct field is its name, whether
    it is exported, and its type.  [Named] is a defined type
    ([type M map[string]int]): it has an identity of its own and the kind of
    its underlying type.  Inside the declaration of [Named n u], [Ref n]
    stands for the declared type itself, which is how a recursive type
    ([type T struct { Next *T }]) is written; the accessors below put the
    declared type back in its place. *)
Inductive type : Type :=
| BasicT (b : Basic)
| ArrayOf (len : nat) (elem : type)
| ChanOf (elem : type)
| FuncOf (ins outs : list type) (variadic : bool)
| InterfaceOf (methods : list string)
| MapOf (key elem : type)
| PtrTo (elem : type)
| SliceOf (elem : type)
| StructOf (fields : list (string * bool * type))
| Named (name : string) (underlying : type)
| Ref (name : string).

Fixpoint type_eq_dec (a b : type) {struct a} : {a = b} + {a <> b}.
Proof.
  decide equality.
  - apply Basic_eq_dec.
  - apply Nat.eq_dec.
  - apply bool_dec.
  - apply (list_eq_dec type_eq_dec).
  - apply (list_eq_dec type_eq_dec).
  - apply (list_eq_dec string_dec).
  - apply list_eq_dec. intros x y. decide equality.
    decide equality.
    + apply bool_dec.
    + apply string_dec.
  - apply string_dec.
  - apply string_dec.
Defined.

Definition type_eqb (a b : type) : bool :=
  if type_eq_dec a b then true else false.

Fixpoint Kind_of (t : type) : Kind :=
  match t with
  | BasicT b => Basic_Kind b
  | ArrayOf _ _ => Array
  | ChanOf _ => Chan
  | FuncOf _ _ _ => Func
  | InterfaceOf _ => Interface
  | MapOf _ _ => Map
  | PtrTo _ => Ptr
  | SliceOf _ => Slice
  | StructOf _ => Struct
  | Named _ u => Kind_of u
  | Ref _ => Invalid
  end.

(** [subst n s t]: [t] with [s] for the references to [n]. *)
Fixpoint subst (n : string) (s : type) (t : type) {struct t} : type :=
  match t with
  | BasicT b => BasicT b
  | ArrayOf len e => ArrayOf len (subst n s e)
  | ChanOf e => ChanOf (subst n s e)
  | FuncOf ins outs variadic =>
      FuncOf (map (subst n s) ins) (map (subst n s) outs) variadic
  | InterfaceOf ms => InterfaceOf ms
  | MapOf k e => MapOf (subst n s k) (subst n s e)
  | PtrTo e => PtrTo (subst n s e)
  | SliceOf e => SliceOf (subst n s e)
  | StructOf fs =>
      StructOf (map (fun fld => (fst fld, subst n s (snd fld))) fs)
  | Named m u => if string_dec n m then t else Named m (subst n s u)
  | Ref m => if string_dec n m then s else t
  end.

(** The underlying type, with the components at their full types. *)
Fixpoint underlying (t : type) : type :=
  match t with
  | Named n u => subst n t (underlying u)
  | _ => t
  end.

(** [Type.Elem], [Type.Key], [Type.NumIn], [Type.NumOut], [Type.In]: the Go
    methods panic on a type of the wrong kind; the program only calls them
    after a test of the kind, and the embedding returns a default there. *)
Definition Elem_type (t : type) : type :=
  match underlying t with
  | ArrayOf _ e | ChanOf e | MapOf _ e | PtrTo e | SliceOf e => e
  | u => u
  end.

Definition Key_type (t : type) : type :=
  match underlying t with
  | MapOf k _ => k
  | u => u
  end.

Definition Len_type (t : type) : nat :=
  match underlying t with
  | ArrayOf n _ => n
  | _ => O
  end.

Definition Fields (t : type) : list (string * bool * type) :=
  match underlying t with
  | StructOf fs => fs
  | _ => []
  end.

Definition In_types (t : type) : list type :=
  match underlying t with
  | FuncOf ins _ _ => ins
  | _ => []
  end.

Definition Out_types (t : type) : list type :=
  match underlying t with
  | FuncOf _ outs _ => outs
  | _ => []
  end.

Definition NumIn (t : type) : Z := Z.of_nat (length (In_types t)).
Definition NumOut (t : type) : Z := Z.of_nat (length (Out_types t)).
Definition In (t : type) (i : nat) : type := nth i (In_types t) t.

(** Go values, as trees.  Integers of every width are [Z] within the
    width's range; a string is the list of its runes (code points); the
    payload of a non-nil pointer is its pointee; a map is the list of its
    entries; an interface value carries its dynamic type and value. *)
Inductive Val : Type :=
| VBool (b : bool)
| VInt (z : Z)
| VUint (z : Z)
| VFloat (x : float)
| VComplex (re im : float)
| VString (runes : list Z)
| VUnsafePointer (addr : Z)
| VChan
| VFunc
| VIface (dyn : option (type * Val))
| VPtr (pointee : option Val)
| VMap (entries : option (list (Val * Val)))
| VSlice (elems : option (list Val))
| VArray (elems : list Val)
| VStruct (fields : list Val).

(** [reflect.Zero]: the zero value of a type. *)
Fixpoint ZeroVal (t : type) : Val :=
  match t with
  | BasicT b =>
      match b with
      | BBool => VBool false
      | BInt | BInt8 | BInt16 | BInt32 | BInt64 => VInt 0
      | BUint | BUint8 | BUint16 | BUint32 | BUint64 | BUintptr => VUint 0
      | BFloat32 | BFloat64 => VFloat 0%float
      | BComplex64 | BComplex128 => VComplex 0%float 0%float
      | BString => VString []
      | BUnsafePointer => VUnsafePointer 0
      end
  | ArrayOf n e => VArray (repeat (ZeroVal e) n)
  | ChanOf _ => VChan
  | FuncOf _ _ _ => VFunc
  | InterfaceOf _ => VIface None
  | MapOf _ _ => VMap None
  | PtrTo _ => VPtr None
  | SliceOf _ => VSlice None
  | StructOf fs => VStruct (map (fun fld => ZeroVal (snd fld)) fs)
  | Named _ u => ZeroVal u
  | Ref _ => VStruct []
  end.

(** [reflect.Value]: a typed value with the two flags that decide
    [CanAddr], [CanSet] and [CanInterface].  [ZeroValue] is Go's
    [reflect.Value{}], of kind [Invalid]. *)
Inductive Value : Type :=
| ZeroValue
| MkValue (typ : type) (val : Val) (flagAddr flagRO : bool).

Definition Type_ (v : Value) : option type :=
  match v with ZeroValue => None | MkValue t _ _ _ => Some t end.

Definition Kind_ (v : Value) : Kind :=
  match v with ZeroValue => Invalid | MkValue t _ _ _ => Kind_of t end.

Definition CanAddr (v : Value) : bool :=
  match v with ZeroValue => false | MkValue _ _ a _ => a end.

Definition CanSet (v : Value) : bool :=
  match v with ZeroValue => false | MkValue _ _ a ro => a && negb ro end.

Definition CanInterface (v : Value) : bool :=
  match v with ZeroValue => false | MkValue _ _ _ ro => negb ro end.

Definition IsNil (v : Value) : bool :=
  match v with
  | MkValue _ (VPtr None) _ _ | MkValue _ (VMap None) _ _
  | MkValue _ (VSlice None) _ _ | MkValue _ (VIface None) _ _ => true
  | _ => false
  end.

(** [v.Set(x)], for a settable [v]. *)
Definition Set_ (v : Value) (x : Val) : Value :=
  match v with
  | ZeroValue => ZeroValue
  | MkValue t _ a ro => MkValue t x a ro
  end.

Definition val_of (v : Value) (dflt : Val) : Val :=
  match v with ZeroValue => dflt | MkValue _ x _ _ => x end.

(** [reflect.New(t)]: a pointer to a fresh zero value; [reflect.New(t).Elem()]
    is that fresh value, addressable and settable. *)
Definition New (t : type) : Val := VPtr (Some (ZeroVal t)).
Definition NewElem (t : type) : Value := MkValue t (ZeroVal t) true false.

(** [reflect.MakeMap(t)]: an empty, non-nil map. *)
Definition MakeMap (t : type) : Val := VMap (Some []).

(** [reflect.MakeSlice(t, n, n)]. *)
Definition MakeSlice (t : type) (n : nat) : Val :=
  VSlice (Some (repeat (ZeroVal (Elem_type t)) n)).

(** [v.Addr()] for an addressable [v]: a pointer to [v]'s storage.  In the
    tree model the pointer carries the current content of the slot; the
    caller stores the pointee back after the callee has run. *)
Definition Addr (v : Value) : Value :=
  match v with
  | ZeroValue => ZeroValue
  | MkValue t x _ ro => MkValue (PtrTo t) (VPtr (Some x)) false ro
  end.

(** [v.Elem()] for a pointer: the pointee, addressable; the zero Value for
    a nil pointer. *)
Definition Elem (v : Value) : Value :=
  match v with
  | MkValue t (VPtr (Some x)) _ ro => MkValue (Elem_type t) x true ro
  | _ => ZeroValue
  end.

(** [reflect.ValueOf(obj)] for an [interface{}] argument: [None] is the nil
    interface; the result is not addressable. *)
Definition iface : Type := option (type * Val).

Definition ValueOf (obj : iface) : Value :=
  match obj with
  | None => ZeroValue
  | Some (t, x) => MkValue t x false false
  end.

(** [v.Interface()]: the value as an [interface{}]; for a slot of interface
    kind, the dynamic value it holds. *)
Definition Interface_ (v : Value) : iface :=
  match v with
  | ZeroValue => None
  | MkValue t x _ _ =>
      match Kind_of t, x with
      | Interface, VIface d => d
      | _, _ => Some (t, x)
      end
  end.

End reflect.

(* ================================================================= *)
(** ** Package math/rand *)

Module rand.

(** [rand.Rand] belongs to Go's standard library, not to the program.  It
    is embedded by its documented contract: a [rand.Source] is a stream of
    non-negative 63-bit integers, and every method of [rand.Rand] consumes
    one of them and reduces it to the documented range of the method
    ([Intn(n)] and [Int63n(n)] in [0,n) and panicking for [n <= 0],
    [Float64] in [0.0,1.0), [Uint32] the high 32 bits of the draw).
    A stream is the sequence of its future outputs and a position. *)
Record Rand : Type := mkRand { source : nat -> Z; drawn : nat }.

Definition Int63 (r : Rand) : Z * Rand :=
  (source r (drawn r) mod 2 ^ 63, mkRand (source r) (S (drawn r))).

Definition Int (r : Rand) : Z * Rand := Int63 r.

Definition Uint32 (r : Rand) : Z * Rand :=
  let (d, r') := Int63 r in (Z.shiftr d 31, r').

Definition Int63n (n : Z) (r : Rand) : result (Z * Rand) :=
  if n <=? 0 then Panic "invalid argument to Int63n"
  else let (d, r') := Int63 r in Ok (d mod n, r').

Definition Intn (n : Z) (r : Rand) : result (Z * Rand) :=
  if n <=? 0 then Panic "invalid argument to Intn"
  else let (d, r') := Int63 r in Ok (d mod n, r').

(** The float with the integer value [z], for [0 <= z < 2^63]. *)
Definition float_of_Z (z : Z) : float := PrimFloat.of_uint63 (Uint63.of_Z z).

(** [Float64]: a multiple of [2^-53] in [0.0,1.0); the draw [0] gives
    [0.0], as it does in Go. *)
Definition Float64 (r : Rand) : float * Rand :=
  let (d, r') := Int63 r in
  (PrimFloat.div (float_of_Z (d mod 2 ^ 53)) (float_of_Z (2 ^ 53)), r').

(** [Float32]: a multiple of [2^-24] in [0.0,1.0). *)
Definition Float32 (r : Rand) : float * Rand :=
  let (d, r') := Int63 r in
  (PrimFloat.div (float_of_Z (d mod 2 ^ 24)) (float_of_Z (2 ^ 24)), r').

End rand.

(* ================================================================= *)
(** ** Package greenrun: data *)

(** A custom function, a self-generating method or a built-in default is
    user code that runs against a [Continue]: it may draw from the shared
    random stream and re-enter the generator on a part of its target.  Its
    behaviour is a tree of these requests: [RandInt63 k] draws the next
    output of [c.Rand]; [ContinueGreenRun obj k] is [c.GreenRun(obj)] and
    [ContinueGreenRunNoCustom obj k] is [c.GreenRunNoCustom(obj)], each
    continuing with [obj] as the call left it; [Fail] is a panic raised by
    the user code itself. *)
Inductive prog (A : Type) : Type :=
| Ret (a : A)
| Fail (msg : string)
| RandInt63 (k : Z -> prog A)
| ContinueGreenRun (obj : reflect.iface) (k : reflect.iface -> prog A)
| ContinueGreenRunNoCustom (obj : reflect.iface) (k : reflect.iface -> prog A).

Arguments Ret {A} a.
Arguments Fail {A} msg.
Arguments RandInt63 {A} k.
Arguments ContinueGreenRun {A} obj k.
Arguments ContinueGreenRunNoCustom {A} obj k.

(** The code behind a function value [func(x T, c greenrun.Continue)] or a
    method [GreenRun(c Continue)]: it receives its argument (the receiver)
    and returns that argument as the call left it. *)
Definition greenrunFunc : Type := reflect.Val -> prog reflect.Val.

(** Go passes arguments by value: what the caller sees afterwards is the
    pointee of a non-nil pointer argument, the entries of a non-nil map
    argument and the elements (not the length) of a slice argument. *)
Definition passByValue (arg out : reflect.Val) : reflect.Val :=
  match arg, out with
  | reflect.VPtr (Some _), reflect.VPtr (Some y) => reflect.VPtr (Some y)
  | reflect.VMap (Some _), reflect.VMap (Some m) => reflect.VMap (Some m)
  | reflect.VSlice (Some l), reflect.VSlice (Some l') =>
      if Nat.eqb (length l) (length l') then reflect.VSlice (Some l') else arg
  | _, _ => arg
  end.

(** [greenrunFuncMap]: [map[reflect.Type]reflect.Value]. *)
Definition greenrunFuncMap : Type := reflect.type -> option greenrunFunc.

Definition emptyFuncMap : greenrunFuncMap := fun _ => None.

Definition insertFunc (m : greenrunFuncMap) (t : reflect.type)
  (fn : greenrunFunc) : greenrunFuncMap :=
  fun t' => if reflect.type_eq_dec t t' then Some fn else m t'.

Record GreenRunner : Type := mkGreenRunner {
  greenrunFuncs : greenrunFuncMap;
  defaultGreenRunFuncs : greenrunFuncMap;
  r : rand.Rand;
  nilChance : float;
  minElements : Z;
  maxElements : Z;
  maxDepth : Z
}.

Definition with_r (f : GreenRunner) (r' : rand.Rand) : GreenRunner :=
  mkGreenRunner (greenrunFuncs f) (defaultGreenRunFuncs f) r'
    (nilChance f) (minElements f) (maxElements f) (maxDepth f).

(** [greenrunerContext]: the generator and the depth of the current run. *)
Record greenrunerContext : Type := mkContext {
  greenruner : GreenRunner;
  curDepth : Z
}.

Definition with_rand (fc : greenrunerContext) (r' : rand.Rand)
  : greenrunerContext :=
  mkContext (with_r (greenruner fc) r') (curDepth fc).

(** The type [greenrun.Continue], as [reflect.TypeOf(Continue{})] sees it. *)
Definition ContinueT : reflect.type :=
  reflect.Named "greenrun.Continue"
    (reflect.StructOf
       [("fc", false, reflect.PtrTo (reflect.Named "greenrun.greenrunerContext"
                                  (reflect.StructOf [])));
        ("Rand", true, reflect.PtrTo (reflect.Named "rand.Rand"
                                  (reflect.StructOf [])))]).

(* ================================================================= *)
(** ** Configuration *)

(** An argument of [Funcs]: an [interface{}] holding any Go value; when
    the value is a function, the second component is its code. *)
Definition anyFunc : Type := option (reflect.type * greenrunFunc).

Definition anyFunc_Kind (a : anyFunc) : reflect.Kind :=
  match a with None => reflect.Invalid | Some (t, _) => reflect.Kind_of t end.

(** One turn of the loop of [Funcs]. *)
Definition Funcs1 (f : GreenRunner) (a : anyFunc) : result GreenRunner :=
  match a with
  | None => Panic "Need only funcs!"
  | Some (t, body) =>
      if negb (reflect.Kind_eqb (reflect.Kind_of t) reflect.Func) then
        Panic "Need only funcs!"
      else if negb (reflect.NumIn t =? 2) || negb (reflect.NumOut t =? 0) then
        Panic "Need 2 in and 0 out params!"
      else
        let argT := reflect.In t 0 in
        match reflect.Kind_of argT with
        | reflect.Ptr | reflect.Map =>
            if negb (reflect.type_eqb (reflect.In t 1) ContinueT) then
              Panic "greenrunFunc's second parameter must be type greenrun.Continue"
            else
              Ok (mkGreenRunner (insertFunc (greenrunFuncs f) argT body)
                    (defaultGreenRunFuncs f) (r f) (nilChance f)
                    (minElements f) (maxElements f) (maxDepth f))
        | _ => Panic "greenrunFunc must take pointer or map type"
        end
  end.

Fixpoint Funcs (f : GreenRunner) (fns : list anyFunc) : result GreenRunner :=
  match fns with
  | [] => Ok f
  | a :: rest => rbind (Funcs1 f a) (fun f' => Funcs f' rest)
  end.

(** [RandSource]: [f.r = rand.New(s)]. *)
Definition RandSource (f : GreenRunner) (s : nat -> Z) : GreenRunner :=
  with_r f (rand.mkRand s O).

Definition NilChance (f : GreenRunner) (p : float) : result GreenRunner :=
  if PrimFloat.ltb p 0%float || PrimFloat.ltb 1%float p then
    Panic "p should be between 0 and 1, inclusive."
  else
    Ok (mkGreenRunner (greenrunFuncs f) (defaultGreenRunFuncs f) (r f) p
          (minElements f) (maxElements f) (maxDepth f)).

Definition NumElements (f : GreenRunner) (atLeast atMost : Z)
  : result GreenRunner :=
  if atLeast >? atMost then Panic "atLeast must be <= atMost"
  else if atLeast <? 0 then Panic "atLeast must be >= 0"
  else
    Ok (mkGreenRunner (greenrunFuncs f) (defaultGreenRunFuncs f) (r f)
          (nilChance f) atLeast atMost (maxDepth f)).

Definition MaxDepth (f : GreenRunner) (d : Z) : GreenRunner :=
  mkGreenRunner (greenrunFuncs f) (defaultGreenRunFuncs f) (r f)
    (nilChance f) (minElements f) (maxElements f) d.

Definition genElementCount (f : GreenRunner) : result (Z * GreenRunner) :=
  if minElements f =? maxElements f then Ok (minElements f, f)
  else
    match rand.Intn (int_add (int_sub (maxElements f) (minElements f)) 1)
            (r f) with
    | Ok (k, r') => Ok (int_add (minElements f) k, with_r f r')
    | Panic m => Panic m
    | OutOfFuel => OutOfFuel
    end.

Definition genShouldFill (f : GreenRunner) : bool * GreenRunner :=
  let (x, r') := rand.Float64 (r f) in
  (PrimFloat.ltb (nilChance f) x, with_r f r').

Definition flagNoCustomGreenRun : Z := Z.shiftl 1 0.

(* ================================================================= *)
(** ** Primitive generators *)

(** [randBool]: [r.Int()&1 == 1]. *)
Definition randBool (r : rand.Rand) : bool * rand.Rand :=
  let (d, r') := rand.Int r in (Z.land d 1 =? 1, r').

(** [randUint64]: [uint64(r.Uint32())<<32 | uint64(r.Uint32())]. *)
Definition randUint64 (r : rand.Rand) : Z * rand.Rand :=
  let (hi, r1) := rand.Uint32 r in
  let (lo, r2) := rand.Uint32 r1 in
  (Z.lor (wrapU 64 (Z.shiftl hi 32)) lo, r2).

Record charRange : Type := mkCharRange { first : Z; last : Z }.

(** [charRange.choose]; a rune is an [int32]. *)
Definition choose (cr : charRange) (rnd : rand.Rand) : result (Z * rand.Rand) :=
  let count := wrapS 64 (wrapS 32 (last cr - first cr)) in
  match rand.Int63n count rnd with
  | Ok (k, r') => Ok (wrapS 32 (first cr + wrapS 32 k), r')
  | Panic m => Panic m
  | OutOfFuel => OutOfFuel
  end.

Definition unicodeRanges : list charRange :=
  [ mkCharRange 32 126;           (* ' ' .. '~' *)
    mkCharRange 160 687;          (* U+00A0 .. U+02AF *)
    mkCharRange 19968 40959 ].    (* U+4E00 .. U+9FFF *)

(** The loop of [randString] over the [n] slots of [runes]. *)
Fixpoint randRunes (n : nat) (rnd : rand.Rand) : result (list Z * rand.Rand) :=
  match n with
  | O => Ok ([], rnd)
  | S n' =>
      match rand.Intn (Z.of_nat (length unicodeRanges)) rnd with
      | Ok (i, r1) =>
          match choose (nth (Z.to_nat i) unicodeRanges (mkCharRange 0 0)) r1 with
          | Ok (c, r2) =>
              match randRunes n' r2 with
              | Ok (cs, r3) => Ok (c :: cs, r3)
              | Panic m => Panic m
              | OutOfFuel => OutOfFuel
              end
          | Panic m => Panic m
          | OutOfFuel => OutOfFuel
          end
      | Panic m => Panic m
      | OutOfFuel => OutOfFuel
      end
  end.

(** [randString]: the string is the list of its runes; every rune the
    ranges hold is a valid code point, so [string(runes)] keeps them all. *)
Definition randString (rnd : rand.Rand) : result (list Z * rand.Rand) :=
  match rand.Intn 20 rnd with
  | Ok (n, r1) => randRunes (Z.to_nat n) r1
  | Panic m => Panic m
  | OutOfFuel => OutOfFuel
  end.

(** The width [SetInt] and [SetUint] truncate to. *)
Definition Kind_bits (k : reflect.Kind) : Z :=
  match k with
  | reflect.Int8 | reflect.Uint8 => 8
  | reflect.Int16 | reflect.Uint16 => 16
  | reflect.Int32 | reflect.Uint32 => 32
  | _ => 64
  end.

Definition greenrunInt (v : reflect.Value) (rnd : rand.Rand)
  : result (reflect.Value * rand.Rand) :=
  let (u, r') := randUint64 rnd in
  Ok (reflect.Set_ v (reflect.VInt (wrapS (Kind_bits (reflect.Kind_ v)) (wrapS 64 u))), r').

Definition greenrunUint (v : reflect.Value) (rnd : rand.Rand)
  : result (reflect.Value * rand.Rand) :=
  let (u, r') := randUint64 rnd in
  Ok (reflect.Set_ v (reflect.VUint (wrapU (Kind_bits (reflect.Kind_ v)) u)), r').

Definition fillFunc : Type :=
  reflect.Value -> rand.Rand -> result (reflect.Value * rand.Rand).

Definition fillFuncMap (k : reflect.Kind) : option fillFunc :=
  match k with
  | reflect.Bool =>
      Some (fun v rnd =>
              let (b, r') := randBool rnd in
              Ok (reflect.Set_ v (reflect.VBool b), r'))
  | reflect.Int | reflect.Int8 | reflect.Int16 | reflect.Int32
  | reflect.Int64 => Some greenrunInt
  | reflect.Uint | reflect.Uint8 | reflect.Uint16 | reflect.Uint32
  | reflect.Uint64 | reflect.Uintptr => Some greenrunUint
  | reflect.Float32 =>
      Some (fun v rnd =>
              let (x, r') := rand.Float32 rnd in
              Ok (reflect.Set_ v (reflect.VFloat x), r'))
  | reflect.Float64 =>
      Some (fun v rnd =>
              let (x, r') := rand.Float64 rnd in
              Ok (reflect.Set_ v (reflect.VFloat x), r'))
  | reflect.Complex64 => Some (fun _ _ => Panic "unimplemented")
  | reflect.Complex128 => Some (fun _ _ => Panic "unimplemented")
  | reflect.String =>
      Some (fun v rnd =>
              match randString rnd with
              | Ok (s, r') => Ok (reflect.Set_ v (reflect.VString s), r')
              | Panic m => Panic m
              | OutOfFuel => OutOfFuel
              end)
  | reflect.UnsafePointer => Some (fun _ _ => Panic "unimplemented")
  | _ => None
  end.

(** Go's [==] on the values a map key can hold.  Two non-nil pointers are
    equal only when they are the same allocation; the pointers the
    generator stores are fresh, hence distinct. *)
Fixpoint go_eqb (a b : reflect.Val) {struct a} : bool :=
  match a, b with
  | reflect.VBool x, reflect.VBool y => Bool.eqb x y
  | reflect.VInt x, reflect.VInt y => x =? y
  | reflect.VUint x, reflect.VUint y => x =? y
  | reflect.VFloat x, reflect.VFloat y => PrimFloat.eqb x y
  | reflect.VComplex x1 x2, reflect.VComplex y1 y2 =>
      PrimFloat.eqb x1 y1 && PrimFloat.eqb x2 y2
  | reflect.VString x, reflect.VString y =>
      if list_eq_dec Z.eq_dec x y then true else false
  | reflect.VUnsafePointer x, reflect.VUnsafePointer y => x =? y
  | reflect.VPtr None, reflect.VPtr None => true
  | reflect.VArray xs, reflect.VArray ys
  | reflect.VStruct xs, reflect.VStruct ys =>
      (fix all2 (l : list reflect.Val) (l' : list reflect.Val) : bool :=
         match l, l' with
         | [], [] => true
         | x :: t, y :: t' => go_eqb x y && all2 t t'
         | _, _ => false
         end) xs ys
  | _, _ => false
  end.

(** [v.SetMapIndex(key, val)] on the entries of a non-nil map. *)
Fixpoint SetMapIndex (m : list (reflect.Val * reflect.Val))
  (key val : reflect.Val) : list (reflect.Val * reflect.Val) :=
  match m with
  | [] => [(key, val)]
  | (k, x) :: rest =>
      if go_eqb k key then (k, val) :: rest
      else (k, x) :: SetMapIndex rest key val
  end.

(* ================================================================= *)
(** ** The generation context *)

Definition with_greenruner (fc : greenrunerContext) (f : GreenRunner)
  : greenrunerContext :=
  mkContext f (curDepth fc).

(** [fc.curDepth++] and the deferred [fc.curDepth--].  The counter cannot
    overflow: it is only incremented below [maxDepth]. *)
Definition incDepth (fc : greenrunerContext) : greenrunerContext :=
  mkContext (greenruner fc) (curDepth fc + 1).

Definition decDepth (fc : greenrunerContext) : greenrunerContext :=
  mkContext (greenruner fc) (curDepth fc - 1).

Definition deferDec {A} (x : result (A * greenrunerContext))
  : result (A * greenrunerContext) :=
  match x with
  | Ok (a, fc) => Ok (a, decDepth fc)
  | Panic m => Panic m
  | OutOfFuel => OutOfFuel
  end.

(** One recursive generation step, as the callers of [doGreenRun] see it. *)
Definition step : Type :=
  reflect.Value -> Z -> greenrunerContext ->
  result (reflect.Value * greenrunerContext).

(** What a custom lookup found (the first half of [tryCustom]). *)
Inductive custom : Type :=
| UseFunc (doCustom : greenrunFunc)
| UseSelf (recv : reflect.Val) (method : greenrunFunc)
| NoCustom.

Section Generation.

(** The method sets of the program's types: [implements t] is the code of
    [GreenRun(c Continue)] when the type [t] implements
    [greenrun.Interface]. *)
Variable implements : reflect.type -> option greenrunFunc.

(** After [c.GreenRun(obj)] the pointee of [obj] is what the step left. *)
Definition storeElem (obj : reflect.iface) (e : reflect.Value) : reflect.iface :=
  match obj, e with
  | Some (t, reflect.VPtr (Some _)), reflect.MkValue _ x _ _ =>
      Some (t, reflect.VPtr (Some x))
  | _, _ => obj
  end.

(** [Continue.GreenRun] and [Continue.GreenRunNoCustom]; [doGreenRun] is
    [c.fc.doGreenRun]. *)
Definition Continue_GreenRun (doGreenRun : step) (obj : reflect.iface)
  (fc : greenrunerContext) : result (reflect.iface * greenrunerContext) :=
  let v := reflect.ValueOf obj in
  if negb (reflect.Kind_eqb (reflect.Kind_ v) reflect.Ptr) then
    Panic "needed ptr!"
  else
    rbind (doGreenRun (reflect.Elem v) 0 fc)
      (fun '(e, fc') => Ok (storeElem obj e, fc')).

Definition Continue_GreenRunNoCustom (doGreenRun : step) (obj : reflect.iface)
  (fc : greenrunerContext) : result (reflect.iface * greenrunerContext) :=
  let v := reflect.ValueOf obj in
  if negb (reflect.Kind_eqb (reflect.Kind_ v) reflect.Ptr) then
    Panic "needed ptr!"
  else
    rbind (doGreenRun (reflect.Elem v) flagNoCustomGreenRun fc)
      (fun '(e, fc') => Ok (storeElem obj e, fc')).

(** Running user code against [Continue{fc: fc, Rand: fc.greenruner.r}]. *)
Fixpoint runProg {A : Type} (doGreenRun : step) (p : prog A)
  (fc : greenrunerContext) {struct p} : result (A * greenrunerContext) :=
  match p with
  | Ret a => Ok (a, fc)
  | Fail m => Panic m
  | RandInt63 k =>
      let (d, r') := rand.Int63 (r (greenruner fc)) in
      runProg doGreenRun (k d) (with_rand fc r')
  | ContinueGreenRun obj k =>
      match Continue_GreenRun doGreenRun obj fc with
      | Ok (obj', fc') => runProg doGreenRun (k obj') fc'
      | Panic m => Panic m
      | OutOfFuel => OutOfFuel
      end
  | ContinueGreenRunNoCustom obj k =>
      match Continue_GreenRunNoCustom doGreenRun obj fc with
      | Ok (obj', fc') => runProg doGreenRun (k obj') fc'
      | Panic m => Panic m
      | OutOfFuel => OutOfFuel
      end
  end.

(** [doCustom.Call([]reflect.Value{v, reflect.ValueOf(Continue{...})})]. *)
Definition Call (doGreenRun : step) (doCustom : greenrunFunc)
  (v : reflect.Value) (fc : greenrunerContext)
  : result (reflect.Value * greenrunerContext) :=
  match v with
  | reflect.ZeroValue => Panic "reflect: Call using zero Value argument"
  | reflect.MkValue t x a ro =>
      rbind (runProg doGreenRun (doCustom x) fc)
        (fun '(out, fc') => Ok (reflect.MkValue t (passByValue x out) a ro, fc'))
  end.

(** [v.CanInterface()], [v.Interface()] and the assertion
    [intf.(Interface)]. *)
Definition selfGreenRun (v : reflect.Value)
  : option (reflect.Val * greenrunFunc) :=
  if reflect.CanInterface v then
    match reflect.Interface_ v with
    | Some (dt, x) =>
        match implements dt with
        | Some m => Some (x, m)
        | None => None
        end
    | None => None
    end
  else None.

(** The lookups of [tryCustom], in its order: the custom functions, then
    self-generation, then the default functions. *)
Definition findCustom (f : GreenRunner) (v : reflect.Value) : custom :=
  match reflect.Type_ v with
  | None => NoCustom
  | Some t =>
      match greenrunFuncs f t with
      | Some doCustom => UseFunc doCustom
      | None =>
          match selfGreenRun v with
          | Some (x, m) => UseSelf x m
          | None =>
              match defaultGreenRunFuncs f t with
              | Some doCustom => UseFunc doCustom
              | None => NoCustom
              end
          end
      end
  end.

(** The [switch v.Kind()] of [tryCustom]: the argument the function is
    called with, or [None] where [tryCustom] returns false. *)
Definition allocTarget (v : reflect.Value) : option reflect.Value :=
  match v with
  | reflect.ZeroValue => None
  | reflect.MkValue t _ _ _ =>
      match reflect.Kind_of t with
      | reflect.Ptr =>
          if reflect.IsNil v then
            if negb (reflect.CanSet v) then None
            else Some (reflect.Set_ v (reflect.New (reflect.Elem_type t)))
          else Some v
      | reflect.Map =>
          if reflect.IsNil v then
            if negb (reflect.CanSet v) then None
            else Some (reflect.Set_ v (reflect.MakeMap t))
          else Some v
      | _ => None
      end
  end.

(** Storing what a method left of its receiver: into the slot, or into the
    dynamic value of a slot of interface kind. *)
Definition storeInterface (v : reflect.Value) (x' : reflect.Val) : reflect.Value :=
  match v with
  | reflect.ZeroValue => reflect.ZeroValue
  | reflect.MkValue t x a ro =>
      match reflect.Kind_of t, x with
      | reflect.Interface, reflect.VIface (Some (dt, _)) =>
          reflect.MkValue t (reflect.VIface (Some (dt, x'))) a ro
      | _, _ => reflect.MkValue t x' a ro
      end
  end.

Definition tryCustom (doGreenRun : step) (v : reflect.Value)
  (fc : greenrunerContext)
  : result (bool * reflect.Value * greenrunerContext) :=
  match v with
  | reflect.ZeroValue => Panic "reflect: call of reflect.Value.Type on zero Value"
  | _ =>
      match findCustom (greenruner fc) v with
      | NoCustom => Ok (false, v, fc)
      | UseSelf x m =>
          rbind (runProg doGreenRun (m x) fc)
            (fun '(out, fc') =>
               Ok (true, storeInterface v (passByValue x out), fc'))
      | UseFunc doCustom =>
          match allocTarget v with
          | None => Ok (false, v, fc)
          | Some v' =>
              rbind (Call doGreenRun doCustom v' fc)
                (fun '(v'', fc') => Ok (true, v'', fc'))
          end
      end
  end.

(** The loop of the [reflect.Map] case: [n] times, a fresh key and a fresh
    element are generated and stored. *)
Fixpoint fillMapLoop (doGreenRun : step) (kt et : reflect.type) (n : nat)
  (m : list (reflect.Val * reflect.Val)) (fc : greenrunerContext)
  : result (list (reflect.Val * reflect.Val) * greenrunerContext) :=
  match n with
  | O => Ok (m, fc)
  | S n' =>
      match doGreenRun (reflect.NewElem kt) 0 fc with
      | Ok (key, fc1) =>
          match doGreenRun (reflect.NewElem et) 0 fc1 with
          | Ok (val, fc2) =>
              fillMapLoop doGreenRun kt et n'
                (SetMapIndex m (reflect.val_of key (reflect.ZeroVal kt))
                   (reflect.val_of val (reflect.ZeroVal et)))
                fc2
          | Panic msg => Panic msg
          | OutOfFuel => OutOfFuel
          end
      | Panic msg => Panic msg
      | OutOfFuel => OutOfFuel
      end
  end.

(** The loops of the [reflect.Slice] and [reflect.Array] cases over
    [v.Index(i)]; [a] and [ro] are the flags of the elements. *)
Fixpoint fillElemsLoop (doGreenRun : step) (et : reflect.type) (a ro : bool)
  (elems : list reflect.Val) (fc : greenrunerContext)
  : result (list reflect.Val * greenrunerContext) :=
  match elems with
  | [] => Ok ([], fc)
  | x :: rest =>
      match doGreenRun (reflect.MkValue et x a ro) 0 fc with
      | Ok (e, fc1) =>
          match fillElemsLoop doGreenRun et a ro rest fc1 with
          | Ok (rest', fc2) => Ok (reflect.val_of e x :: rest', fc2)
          | Panic msg => Panic msg
          | OutOfFuel => OutOfFuel
          end
      | Panic msg => Panic msg
      | OutOfFuel => OutOfFuel
      end
  end.

(** The loop of the [reflect.Struct] case over [v.Field(i)]: a field is
    addressable when the struct is, and read-only when the struct is or the
    field is not exported. *)
Fixpoint fillFieldsLoop (doGreenRun : step) (a ro : bool)
  (fts : list (string * bool * reflect.type)) (vals : list reflect.Val)
  (fc : greenrunerContext) : result (list reflect.Val * greenrunerContext) :=
  match fts, vals with
  | (_, exported, ft) :: fts', x :: rest =>
      match doGreenRun (reflect.MkValue ft x a (ro || negb exported)) 0 fc with
      | Ok (e, fc1) =>
          match fillFieldsLoop doGreenRun a ro fts' rest fc1 with
          | Ok (rest', fc2) => Ok (reflect.val_of e x :: rest', fc2)
          | Panic msg => Panic msg
          | OutOfFuel => OutOfFuel
          end
      | Panic msg => Panic msg
      | OutOfFuel => OutOfFuel
      end
  | _, _ => Ok (vals, fc)
  end.

Definition array_elems (x : reflect.Val) : list reflect.Val :=
  match x with reflect.VArray l => l | _ => [] end.

Definition struct_fields (x : reflect.Val) : list reflect.Val :=
  match x with reflect.VStruct l => l | _ => [] end.

(** The second half of [doGreenRun]: [fillFuncMap], then the switch on
    [v.Kind()]. *)
Definition structural (doGreenRun : step) (v : reflect.Value)
  (fc : greenrunerContext) : result (reflect.Value * greenrunerContext) :=
  match v with
  | reflect.ZeroValue => Panic "Can't handle <invalid reflect.Value>"
  | reflect.MkValue t x a ro =>
      match fillFuncMap (reflect.Kind_of t) with
      | Some fn =>
          match fn v (r (greenruner fc)) with
          | Ok (v', r') => Ok (v', with_rand fc r')
          | Panic msg => Panic msg
          | OutOfFuel => OutOfFuel
          end
      | None =>
          match reflect.Kind_of t with
          | reflect.Map =>
              let (fill, f1) := genShouldFill (greenruner fc) in
              if fill then
                match genElementCount f1 with
                | Ok (n, f2) =>
                    match fillMapLoop doGreenRun (reflect.Key_type t)
                            (reflect.Elem_type t) (Z.to_nat n) []
                            (with_greenruner fc f2) with
                    | Ok (m, fc3) =>
                        Ok (reflect.MkValue t (reflect.VMap (Some m)) a ro, fc3)
                    | Panic msg => Panic msg
                    | OutOfFuel => OutOfFuel
                    end
                | Panic msg => Panic msg
                | OutOfFuel => OutOfFuel
                end
              else Ok (reflect.Set_ v (reflect.ZeroVal t), with_greenruner fc f1)
          | reflect.Ptr =>
              let (fill, f1) := genShouldFill (greenruner fc) in
              if fill then
                let v1 := reflect.Set_ v (reflect.New (reflect.Elem_type t)) in
                match doGreenRun (reflect.Elem v1) 0 (with_greenruner fc f1) with
                | Ok (e, fc2) =>
                    Ok (reflect.Set_ v
                          (reflect.VPtr
                             (Some (reflect.val_of e
                                      (reflect.ZeroVal (reflect.Elem_type t))))),
                        fc2)
                | Panic msg => Panic msg
                | OutOfFuel => OutOfFuel
                end
              else Ok (reflect.Set_ v (reflect.ZeroVal t), with_greenruner fc f1)
          | reflect.Slice =>
              let (fill, f1) := genShouldFill (greenruner fc) in
              if fill then
                match genElementCount f1 with
                | Ok (n, f2) =>
                    if n <? 0 then Panic "reflect.MakeSlice: negative len"
                    else
                      match fillElemsLoop doGreenRun (reflect.Elem_type t) true ro
                              (repeat (reflect.ZeroVal (reflect.Elem_type t))
                                 (Z.to_nat n))
                              (with_greenruner fc f2) with
                      | Ok (l, fc3) =>
                          Ok (reflect.MkValue t (reflect.VSlice (Some l)) a ro, fc3)
                      | Panic msg => Panic msg
                      | OutOfFuel => OutOfFuel
                      end
                | Panic msg => Panic msg
                | OutOfFuel => OutOfFuel
                end
              else Ok (reflect.Set_ v (reflect.ZeroVal t), with_greenruner fc f1)
          | reflect.Array =>
              let (fill, f1) := genShouldFill (greenruner fc) in
              if fill then
                match fillElemsLoop doGreenRun (reflect.Elem_type t) a ro
                        (array_elems x) (with_greenruner fc f1) with
                | Ok (l, fc2) => Ok (reflect.MkValue t (reflect.VArray l) a ro, fc2)
                | Panic msg => Panic msg
                | OutOfFuel => OutOfFuel
                end
              else Ok (reflect.Set_ v (reflect.ZeroVal t), with_greenruner fc f1)
          | reflect.Struct =>
              match fillFieldsLoop doGreenRun a ro (reflect.Fields t)
                      (struct_fields x) fc with
              | Ok (l, fc1) => Ok (reflect.MkValue t (reflect.VStruct l) a ro, fc1)
              | Panic msg => Panic msg
              | OutOfFuel => OutOfFuel
              end
          | _ => Panic "Can't handle"
          end
      end
  end.

(** After [tryCustom(v.Addr())] the slot holds the pointee. *)
Definition storeAddr (v a' : reflect.Value) : reflect.Value :=
  match a' with
  | reflect.MkValue _ (reflect.VPtr (Some x)) _ _ => reflect.Set_ v x
  | _ => v
  end.

(** [doGreenRun] from the test of [v.CanSet()] on; [doGreenRun] stands for
    the recursive calls, which the custom functions make too. *)
Definition doGreenRunBody (doGreenRun : step) (v : reflect.Value) (flags : Z)
  (fc : greenrunerContext) : result (reflect.Value * greenrunerContext) :=
  if negb (reflect.CanSet v) then Ok (v, fc)
  else if Z.land flags flagNoCustomGreenRun =? 0 then
    match (if reflect.CanAddr v then tryCustom doGreenRun (reflect.Addr v) fc
           else Ok (false, v, fc)) with
    | Ok (true, a', fc1) => Ok (storeAddr v a', fc1)
    | Ok (false, _, fc1) =>
        match tryCustom doGreenRun v fc1 with
        | Ok (true, v2, fc2) => Ok (v2, fc2)
        | Ok (false, v2, fc2) => structural doGreenRun v2 fc2
        | Panic msg => Panic msg
        | OutOfFuel => OutOfFuel
        end
    | Panic msg => Panic msg
    | OutOfFuel => OutOfFuel
    end
  else structural doGreenRun v fc.

(** [doGreenRun].  The recursion of the Go function is bounded by
    [maxDepth - curDepth]; [fuel] makes that bound structural, and
    [OutOfFuel] is returned only when it was chosen below the bound
    (lemma [doGreenRun_fuel]). *)
Fixpoint doGreenRun (fuel : nat) (v : reflect.Value) (flags : Z)
  (fc : greenrunerContext) {struct fuel}
  : result (reflect.Value * greenrunerContext) :=
  if curDepth fc >=? maxDepth (greenruner fc) then Ok (v, fc)
  else
    match fuel with
    | O => OutOfFuel
    | S fuel' =>
        deferDec (doGreenRunBody (doGreenRun fuel') v flags (incDepth fc))
    end.

Definition greenrunWithContext (f : GreenRunner) (v : reflect.Value)
  (flags : Z) : result (reflect.Value * GreenRunner) :=
  let fc := mkContext f 0 in
  match doGreenRun (Z.to_nat (maxDepth f)) v flags fc with
  | Ok (v', fc') => Ok (v', greenruner fc')
  | Panic msg => Panic msg
  | OutOfFuel => OutOfFuel
  end.

(** [GreenRun(obj)] and [GreenRunNoCustom(obj)]: the result is [obj] with
    its pointee as the run left it, and the generator with its stream
    advanced. *)
Definition GreenRun (f : GreenRunner) (obj : reflect.iface)
  : result (reflect.iface * GreenRunner) :=
  let v := reflect.ValueOf obj in
  if negb (reflect.Kind_eqb (reflect.Kind_ v) reflect.Ptr) then
    Panic "needed ptr!"
  else
    match greenrunWithContext f (reflect.Elem v) 0 with
    | Ok (e, f') => Ok (storeElem obj e, f')
    | Panic msg => Panic msg
    | OutOfFuel => OutOfFuel
    end.

Definition GreenRunNoCustom (f : GreenRunner) (obj : reflect.iface)
  : result (reflect.iface * GreenRunner) :=
  let v := reflect.ValueOf obj in
  if negb (reflect.Kind_eqb (reflect.Kind_ v) reflect.Ptr) then
    Panic "needed ptr!"
  else
    match greenrunWithContext f (reflect.Elem v) flagNoCustomGreenRun with
    | Ok (e, f') => Ok (storeElem obj e, f')
    | Panic msg => Panic msg
    | OutOfFuel => OutOfFuel
    end.

End Generation.

(* ================================================================= *)
(** ** The default function for [time.Time] and the constructor *)

(** [time.Time], a struct of three unexported fields. *)
Definition timeT : reflect.type :=
  reflect.Named "time.Time"
    (reflect.StructOf
       [("wall", false, reflect.BasicT reflect.BUint64);
        ("ext", false, reflect.BasicT reflect.BInt64);
        ("loc", false,
         reflect.PtrTo (reflect.Named "time.Location" (reflect.StructOf [])))]).

(** [time.Unix(sec, nsec)] of Go's standard library, by its documentation:
    [nsec] outside [0, 999999999] carries into the seconds. *)
Definition time_Unix (sec nsec : Z) : reflect.Val :=
  let sec' := wrapS 64 (sec + nsec / 1000000000) in
  let nsec' := nsec mod 1000000000 in
  reflect.VStruct
    [reflect.VUint nsec';
     reflect.VInt (wrapS 64 (sec' + 62135596800));
     reflect.VPtr (Some (reflect.VStruct []))].

(** [greenrunTime(t *time.Time, c Continue)]. *)
Definition greenrunTime : greenrunFunc :=
  fun _ =>
    RandInt63 (fun d =>
      let sec := d mod (1000 * 365 * 24 * 60 * 60) in
      ContinueGreenRun
        (Some (reflect.PtrTo (reflect.BasicT reflect.BInt64),
               reflect.VPtr (Some (reflect.VInt 0))))
        (fun obj =>
           let nsec :=
             match obj with
             | Some (_, reflect.VPtr (Some (reflect.VInt n))) => n
             | _ => 0
             end in
           Ret (reflect.VPtr (Some (time_Unix sec nsec))))).

(** [NewWithSeed]; [NewSource] is [rand.NewSource], the stream a seed
    stands for. *)
Definition NewWithSeed (NewSource : Z -> nat -> Z) (seed : Z) : GreenRunner :=
  mkGreenRunner
    emptyFuncMap
    (insertFunc emptyFuncMap (reflect.PtrTo timeT) greenrunTime)
    (rand.mkRand (NewSource seed) O)
    0x1.999999999999ap-3%float 1 10 100.

(* ================================================================= *)
(** ** The order of the custom lookups, as a decision list *)

(** The handler a step ends up running. *)
Inductive handler : Type :=
| RefOverride (fn : greenrunFunc)
| RefSelf (recv : reflect.Val) (method : greenrunFunc)
| RefDefault (fn : greenrunFunc)
| OwnOverride (fn : greenrunFunc)
| OwnSelf (recv : reflect.Val) (method : greenrunFunc)
| OwnDefault (fn : greenrunFunc)
| Structural.

Definition ptr_or_map (t : reflect.type) : bool :=
  match reflect.Kind_of t with
  | reflect.Ptr | reflect.Map => true
  | _ => false
  end.

Section Order.

Variable implements : reflect.type -> option greenrunFunc.

(** The order the program follows: the three lookups of [tryCustom] on the
    reference to the slot, then the same three on the slot itself, where a
    function found for the slot's own type runs only on a pointer or a
    map. *)
Definition lookupOrder (f : GreenRunner) (v : reflect.Value) : handler :=
  match v with
  | reflect.ZeroValue => Structural
  | reflect.MkValue t _ _ _ =>
      match greenrunFuncs f (reflect.PtrTo t) with
      | Some fn => RefOverride fn
      | None =>
      match selfGreenRun implements (reflect.Addr v) with
      | Some (x, m) => RefSelf x m
      | None =>
      match defaultGreenRunFuncs f (reflect.PtrTo t) with
      | Some fn => RefDefault fn
      | None =>
      match greenrunFuncs f t with
      | Some fn => if ptr_or_map t then OwnOverride fn else Structural
      | None =>
      match selfGreenRun implements v with
      | Some (x, m) => OwnSelf x m
      | None =>
      match defaultGreenRunFuncs f t with
      | Some fn => if ptr_or_map t then OwnDefault fn else Structural
      | None => Structural
      end end end end end end
  end.

(** The order in the words of the specification: an override for the
    reference type, then an override for the slot's own type, then
    self-generation, then a built-in default. *)
Definition claimedOrder (f : GreenRunner) (v : reflect.Value) : handler :=
  match v with
  | reflect.ZeroValue => Structural
  | reflect.MkValue t _ _ _ =>
      match greenrunFuncs f (reflect.PtrTo t) with
      | Some fn => RefOverride fn
      | None =>
      match greenrunFuncs f t with
      | Some fn => OwnOverride fn
      | None =>
      match selfGreenRun implements (reflect.Addr v) with
      | Some (x, m) => RefSelf x m
      | None =>
      match selfGreenRun implements v with
      | Some (x, m) => OwnSelf x m
      | None =>
      match defaultGreenRunFuncs f (reflect.PtrTo t) with
      | Some fn => RefDefault fn
      | None =>
      match defaultGreenRunFuncs f t with
      | Some fn => OwnDefault fn
      | None => Structural
      end end end end end end
  end.

(** The slot a function for the slot's own type is called with: a nil
    pointer or map is allocated first. *)
Definition allocated (v : reflect.Value) : reflect.Value :=
  match v with
  | reflect.ZeroValue => v
  | reflect.MkValue t _ _ _ =>
      if reflect.IsNil v then
        match reflect.Kind_of t with
        | reflect.Ptr => reflect.Set_ v (reflect.New (reflect.Elem_type t))
        | reflect.Map => reflect.Set_ v (reflect.MakeMap t)
        | _ => v
        end
      else v
  end.

(** Running a handler on a settable slot. *)
Definition runHandler (doGreenRun : step) (v : reflect.Value)
  (fc : greenrunerContext) (h : handler)
  : result (reflect.Value * greenrunerContext) :=
  match h with
  | RefOverride fn | RefDefault fn =>
      rbind (Call doGreenRun fn (reflect.Addr v) fc)
        (fun '(a', fc') => Ok (storeAddr v a', fc'))
  | RefSelf x m =>
      rbind (runProg doGreenRun (m x) fc)
        (fun '(out, fc') =>
           Ok (storeAddr v (storeInterface (reflect.Addr v) (passByValue x out)),
               fc'))
  | OwnOverride fn | OwnDefault fn => Call doGreenRun fn (allocated v) fc
  | OwnSelf x m =>
      rbind (runProg doGreenRun (m x) fc)
        (fun '(out, fc') => Ok (storeInterface v (passByValue x out), fc'))
  | Structural => structural doGreenRun v fc
  end.

End Order.

(* ================================================================= *)
(** ** Inputs of the examples *)

Definition noMethods : reflect.type -> option greenrunFunc := fun _ => None.

Definition intT : reflect.type := reflect.BasicT reflect.BInt.
Definition stringT : reflect.type := reflect.BasicT reflect.BString.

(** A source that always returns 0, and one that counts up in the high
    bits. *)
Definition zeroSource : nat -> Z := fun _ => 0.
Definition countSource : nat -> Z := fun n => (Z.of_nat n + 1) * 2 ^ 40 + 5.

Definition exGreenRunner : GreenRunner := NewWithSeed (fun _ => countSource) 0.

(** [struct { P *int; M map[int]int; S []int }]. *)
Definition PMS : reflect.type :=
  reflect.StructOf
    [("P", true, reflect.PtrTo intT);
     ("M", true, reflect.MapOf intT intT);
     ("S", true, reflect.SliceOf intT)].

Definition ptrTo (t : reflect.type) (x : reflect.Val) : reflect.iface :=
  Some (reflect.PtrTo t, reflect.VPtr (Some x)).

(** [type M map[string]int] with [func (m M) GreenRun(c Continue) {}]: the
    method set of [M] and, by promotion, of [*M] holds [GreenRun]. *)
Definition mapM : reflect.type := reflect.Named "M" (reflect.MapOf stringT intT).

Definition implementsM : reflect.type -> option greenrunFunc :=
  fun t =>
    if reflect.type_eq_dec t mapM then Some (fun x => Ret x)
    else if reflect.type_eq_dec t (reflect.PtrTo mapM) then Some (fun x => Ret x)
    else None.

(** [func(m M, c greenrun.Continue) { m["k"] = 1 }]. *)
Definition overrideM : greenrunFunc :=
  fun x =>
    match x with
    | reflect.VMap (Some es) =>
        Ret (reflect.VMap (Some (SetMapIndex es (reflect.VString [107])
                                   (reflect.VInt 1))))
    | _ => Fail "assignment to entry in nil map"
    end.

Definition overrideM_func : anyFunc :=
  Some (reflect.FuncOf [mapM; ContinueT] [] false, overrideM).

Definition greenRunnerM : GreenRunner :=
  mkGreenRunner (insertFunc emptyFuncMap mapM overrideM)
    (defaultGreenRunFuncs exGreenRunner) (r exGreenRunner)
    (nilChance exGreenRunner) (minElements exGreenRunner)
    (maxElements exGreenRunner) (maxDepth exGreenRunner).

(** [type T struct { X int; Next *T }]. *)
Definition nodeT : reflect.type :=
  reflect.Named "T"
    (reflect.StructOf
       [("X", true, intT); ("Next", true, reflect.PtrTo (reflect.Ref "T"))]).

(** [func(t *T, c Continue) { *t = T{X: 42} }] for the recursive [T]. *)
Definition overrideNode : greenrunFunc :=
  fun _ => Ret (reflect.VPtr (Some (reflect.VStruct
                                      [reflect.VInt 42; reflect.VPtr None]))).

Definition greenRunnerNode : GreenRunner :=
  mkGreenRunner (insertFunc emptyFuncMap (reflect.PtrTo nodeT) overrideNode)
    emptyFuncMap (rand.mkRand countSource O) 0%float 1 1 100.

(* ================================================================= *)
(** ** Predicates of the statements *)

(** Two states of one stream: the source is the same, only the position
    may differ. *)
Definition same_source (r1 r2 : rand.Rand) : Prop :=
  rand.source r2 = rand.source r1.

(** A run draws from the random stream of the context and changes nothing
    else: the depth counter and the configuration come back as they
    were, and the stream is still the stream of the same source. *)
Definition evolves (fc fc' : greenrunerContext) : Prop :=
  curDepth fc' = curDepth fc /\
  greenruner fc' = with_r (greenruner fc) (r (greenruner fc')) /\
  same_source (r (greenruner fc)) (r (greenruner fc')).

(** The outcome of a computation started in [fc]: a normal return only
    advanced the stream, and fuel ran out only if [b] allows it. *)
Definition post {A : Type} (b : Prop) (fc : greenrunerContext)
  (x : result (A * greenrunerContext)) : Prop :=
  match x with
  | Ok (_, fc') => evolves fc fc'
  | Panic _ => True
  | OutOfFuel => b
  end.

(** The contexts of one level of a run: the depth [d] under the ceiling
    [M]. *)
Definition at_depth (d M : Z) (fc : greenrunerContext) : Prop :=
  curDepth fc = d /\ maxDepth (greenruner fc) = M.


(** The number of bytes of the UTF-8 encoding of a code point, and of a
    string given by its runes: Go's [len(s)]. *)
Definition utf8_size (c : Z) : Z :=
  if c <? 128 then 1 else if c <? 2048 then 2 else if c <? 65536 then 3 else 4.

Definition utf8_len (s : list Z) : Z := fold_right Z.add 0 (map utf8_size s).

(** A rune of one of the built-in ranges, upper end excluded. *)
Definition in_some_range (c : Z) : Prop :=
  Exists (fun cr => first cr <= c < last cr) unicodeRanges.

(** The kinds no generator exists for. *)
Definition unsupportedKind (k : reflect.Kind) : bool :=
  match k with
  | reflect.Chan | reflect.Func | reflect.Interface
  | reflect.Complex64 | reflect.Complex128 | reflect.UnsafePointer => true
  | _ => false
  end.

(** A generator without custom functions, for a program without
    self-generating types. *)
Definition noCustoms (f : GreenRunner) : Prop :=
  (forall t, greenrunFuncs f t = None) /\
  (forall t, defaultGreenRunFuncs f t = None).

(** What a test observes of a run: the target as the run left it and the
    number of draws made from the stream. *)
Definition observe (x : result (reflect.iface * GreenRunner))
  : result (option reflect.Val * nat) :=
  match x with
  | Ok (obj, g) => Ok (option_map snd obj, rand.drawn (r g))
  | Panic m => Panic m
  | OutOfFuel => OutOfFuel
  end.

(** The source of the stream a primitive generator returns. *)
Definition source_after {A : Type} (rnd : rand.Rand)
  (x : result (A * rand.Rand)) : nat -> Z :=
  match x with
  | Ok (_, r') => rand.source r'
  | _ => rand.source rnd
  end.

(** A field of pointer, map or slice kind that was filled, a map and a
    slice with one entry. *)
Definition filled (k : reflect.Kind) (y : reflect.Val) : Prop :=
  match k with
  | reflect.Ptr => exists z, y = reflect.VPtr (Some z)
  | reflect.Map => exists key e, y = reflect.VMap (Some [(key, e)])
  | reflect.Slice => exists e, y = reflect.VSlice (Some [e])
  | _ => True
  end.

(** The configuration [NilChance(0).NumElements(1, 1)] on the stream of
    the source [src], with no function registered through [Funcs] and, as
    default function, at most the one [NewWithSeed] installs for
    [*time.Time]. *)
Definition plain_config (src : nat -> Z) (f : GreenRunner) : Prop :=
  nilChance f = 0%float /\ minElements f = 1 /\ maxElements f = 1 /\
  (forall t, greenrunFuncs f t = None) /\
  (forall t fn, defaultGreenRunFuncs f t = Some fn ->
                t = reflect.PtrTo timeT /\ fn = greenrunTime) /\
  rand.source (r f) = src.

(** Every field of pointer kind holds a pointer, nil or not. *)
Definition pointer_fields (fts : list (string * bool * reflect.type))
  (vals : list reflect.Val) : Prop :=
  Forall2 (fun fld x => reflect.Kind_of (snd fld) = reflect.Ptr ->
                        exists p, x = reflect.VPtr p) fts vals.

(** [NewWithSeed(..).RandSource(oneSource).NilChance(0).NumElements(1, 1)]. *)
Definition zeroNilGreenRunner : GreenRunner :=
  mkGreenRunner emptyFuncMap
    (insertFunc emptyFuncMap (reflect.PtrTo timeT) greenrunTime)
    (rand.mkRand (fun _ => 1) O) 0%float 1 1 100.

(** [struct { P *int; T *time.Time; M map[int]int; S []int }]. *)
Definition PTMS : reflect.type :=
  reflect.StructOf
    [("P", true, reflect.PtrTo (reflect.BasicT reflect.BInt));
     ("T", true, reflect.PtrTo timeT);
     ("M", true, reflect.MapOf (reflect.BasicT reflect.BInt)
                   (reflect.BasicT reflect.BInt));
     ("S", true, reflect.SliceOf (reflect.BasicT reflect.BInt))].

(** No output of the source makes [Float64()] return [0.0]. *)
Definition never_zero (src : nat -> Z) : Prop :=
  forall i, PrimFloat.ltb 0%float (fst (rand.Float64 (rand.mkRand src i))) = true.

(** A source whose outputs are all 1. *)
Definition oneSource : nat -> Z := fun _ => 1.

(* ================================================================= *)
(** ** Further example inputs and predicates *)

(** A source whose draws are all [2^52]: [Float64()] returns one half. *)
Definition halfSource : nat -> Z := fun _ => 2 ^ 52.

(** A generator with the settings of [New()] and no function registered,
    on the stream of [src]. *)
Definition plainGreenRunner (src : nat -> Z) : GreenRunner :=
  mkGreenRunner emptyFuncMap emptyFuncMap (rand.mkRand src O)
    0x1.999999999999ap-3%float 1 10 100.

(** The kinds [fillFuncMap] generates: its keys without the three
    that panic. *)
Definition primitiveKind (k : reflect.Kind) : bool :=
  match k with
  | reflect.Bool
  | reflect.Int | reflect.Int8 | reflect.Int16 | reflect.Int32 | reflect.Int64
  | reflect.Uint | reflect.Uint8 | reflect.Uint16 | reflect.Uint32
  | reflect.Uint64 | reflect.Uintptr
  | reflect.Float32 | reflect.Float64 | reflect.String => true
  | _ => false
  end.

(** A value of the representation and the width of a primitive kind. *)
Definition fits (k : reflect.Kind) (y : reflect.Val) : Prop :=
  match k with
  | reflect.Bool => exists b, y = reflect.VBool b
  | reflect.Int | reflect.Int8 | reflect.Int16 | reflect.Int32
  | reflect.Int64 =>
      exists z, y = reflect.VInt z /\
                - 2 ^ (Kind_bits k - 1) <= z < 2 ^ (Kind_bits k - 1)
  | reflect.Uint | reflect.Uint8 | reflect.Uint16 | reflect.Uint32
  | reflect.Uint64 | reflect.Uintptr =>
      exists z, y = reflect.VUint z /\ 0 <= z < 2 ^ Kind_bits k
  | reflect.Float32 | reflect.Float64 => exists x, y = reflect.VFloat x
  | reflect.String =>
      exists s, y = reflect.VString s /\ (length s < 20)%nat
  | _ => False
  end.

(** [func(p *T, c Continue) { *p = y }]. *)
Definition setter (y : reflect.Val) : greenrunFunc :=
  fun _ => Ret (reflect.VPtr (Some y)).

(** What a custom function called on a pointer to [x] left in [x]. *)
Definition pointee_after (x out : reflect.Val) : reflect.Val :=
  match passByValue (reflect.VPtr (Some x)) out with
  | reflect.VPtr (Some y) => y
  | _ => x
  end.


Definition int64T : reflect.type := reflect.BasicT reflect.BInt64.

(** [Funcs] given a function for [*string] and two for [*int]. *)
Definition threeFuncs : list anyFunc :=
  [Some (reflect.FuncOf [reflect.PtrTo stringT; ContinueT] [] false,
         setter (reflect.VString []));
   Some (reflect.FuncOf [reflect.PtrTo intT; ContinueT] [] false,
         setter (reflect.VInt 7));
   Some (reflect.FuncOf [reflect.PtrTo intT; ContinueT] [] false,
         setter (reflect.VInt 42))].

Definition threeGreenRunner : GreenRunner :=
  mkGreenRunner
    (insertFunc
       (insertFunc
          (insertFunc emptyFuncMap (reflect.PtrTo stringT)
             (setter (reflect.VString [])))
          (reflect.PtrTo intT) (setter (reflect.VInt 7)))
       (reflect.PtrTo intT) (setter (reflect.VInt 42)))
    emptyFuncMap (rand.mkRand halfSource O)
    0x1.999999999999ap-3%float 1 10 100.

(* ================================================================= *)
(** ** What a step may change *)


Lemma with_r_same (f : GreenRunner) : with_r f (r f) = f.
Proof. destruct f; reflexivity. Qed.

Lemma with_r_with_r (f : GreenRunner) (r1 r2 : rand.Rand) :
  with_r (with_r f r1) r2 = with_r f r2.
Proof. reflexivity. Qed.

Lemma evolves_refl (fc : greenrunerContext) : evolves fc fc.
Proof.
  split; [reflexivity|]. split; [symmetry; apply with_r_same|reflexivity].
Qed.

Lemma evolves_trans (a b c : greenrunerContext) :
  evolves a b -> evolves b c -> evolves a c.
Proof.
  unfold evolves, same_source. intros (H1 & H2 & H3) (H4 & H5 & H6).
  split; [congruence|]. split; [|congruence].
  rewrite H5, H2. reflexivity.
Qed.

Lemma evolves_with_rand (fc : greenrunerContext) (r' : rand.Rand) :
  same_source (r (greenruner fc)) r' -> evolves fc (with_rand fc r').
Proof. intros H. split; [reflexivity|]. split; [reflexivity|exact H]. Qed.

Lemma evolves_maxDepth (fc fc' : greenrunerContext) :
  evolves fc fc' -> maxDepth (greenruner fc') = maxDepth (greenruner fc).
Proof. intros (_ & H & _). rewrite H. reflexivity. Qed.

Lemma evolves_funcs (fc fc' : greenrunerContext) :
  evolves fc fc' ->
  greenrunFuncs (greenruner fc') = greenrunFuncs (greenruner fc) /\
  defaultGreenRunFuncs (greenruner fc') = defaultGreenRunFuncs (greenruner fc).
Proof. intros (_ & H & _). rewrite H. split; reflexivity. Qed.

Lemma evolves_config (fc fc' : greenrunerContext) :
  evolves fc fc' ->
  nilChance (greenruner fc') = nilChance (greenruner fc) /\
  minElements (greenruner fc') = minElements (greenruner fc) /\
  maxElements (greenruner fc') = maxElements (greenruner fc).
Proof. intros (_ & H & _). rewrite H. repeat split. Qed.

(** The methods of [rand.Rand] and the primitive generators draw from the
    stream and keep its source. *)
Lemma Int63_source (rnd : rand.Rand) : same_source rnd (snd (rand.Int63 rnd)).
Proof. reflexivity. Qed.

Lemma Intn_source (n k : Z) (rnd r' : rand.Rand) :
  rand.Intn n rnd = Ok (k, r') -> same_source rnd r'.
Proof.
  unfold rand.Intn. destruct (n <=? 0); [discriminate|].
  intros H; inversion H; subst. reflexivity.
Qed.

Lemma Int63n_source (n k : Z) (rnd r' : rand.Rand) :
  rand.Int63n n rnd = Ok (k, r') -> same_source rnd r'.
Proof.
  unfold rand.Int63n. destruct (n <=? 0); [discriminate|].
  intros H; inversion H; subst. reflexivity.
Qed.

Lemma choose_source (cr : charRange) (c : Z) (rnd r' : rand.Rand) :
  choose cr rnd = Ok (c, r') -> same_source rnd r'.
Proof.
  unfold choose. destruct (rand.Int63n _ rnd) as [[k r1]| |] eqn:E;
    try discriminate.
  intros H; inversion H; subst. eapply Int63n_source; eassumption.
Qed.

Lemma randRunes_source (n : nat) (s : list Z) (rnd r' : rand.Rand) :
  randRunes n rnd = Ok (s, r') -> same_source rnd r'.
Proof.
  revert s rnd r'. induction n as [|n IH]; intros s rnd r'; cbn [randRunes].
  - intros H; inversion H; subst. reflexivity.
  - destruct (rand.Intn _ rnd) as [[i r1]| |] eqn:E1; try discriminate.
    destruct (choose _ r1) as [[c r2]| |] eqn:E2; try discriminate.
    destruct (randRunes n r2) as [[cs r3]| |] eqn:E3; try discriminate.
    intros H; inversion H; subst.
    apply Intn_source in E1. apply choose_source in E2. apply IH in E3.
    unfold same_source in *. congruence.
Qed.

Lemma randString_source (s : list Z) (rnd r' : rand.Rand) :
  randString rnd = Ok (s, r') -> same_source rnd r'.
Proof.
  unfold randString. destruct (rand.Intn 20 rnd) as [[n r1]| |] eqn:E1;
    try discriminate.
  intros H. apply Intn_source in E1. apply randRunes_source in H.
  unfold same_source in *. congruence.
Qed.


Lemma fillFuncMap_source (k : reflect.Kind) (fn : fillFunc)
  (v v' : reflect.Value) (rnd r' : rand.Rand) :
  fillFuncMap k = Some fn -> fn v rnd = Ok (v', r') -> same_source rnd r'.
Proof.
  intros Hk H. unfold same_source.
  change (rand.source r') with (source_after rnd (Ok (v', r'))).
  rewrite <- H. clear H.
  destruct k; cbn [fillFuncMap] in Hk; inversion Hk; subst; clear Hk;
    try reflexivity.
  destruct (randString rnd) as [[s r2]| |] eqn:E; try reflexivity.
  apply randString_source in E. exact E.
Qed.

Lemma post_evolves {A : Type} (b : Prop) (fc fc1 : greenrunerContext)
  (x : result (A * greenrunerContext)) :
  evolves fc fc1 -> post b fc1 x -> post b fc x.
Proof.
  intros He. destruct x as [[a fc2]| |]; simpl; auto.
  apply evolves_trans; assumption.
Qed.

Lemma genShouldFill_with_r (f : GreenRunner) :
  snd (genShouldFill f) = with_r f (r (snd (genShouldFill f))) /\
  same_source (r f) (r (snd (genShouldFill f))).
Proof.
  unfold genShouldFill, rand.Float64, rand.Int63. split; reflexivity.
Qed.

Lemma genElementCount_with_r (f f' : GreenRunner) (n : Z) :
  genElementCount f = Ok (n, f') ->
  f' = with_r f (r f') /\ same_source (r f) (r f').
Proof.
  unfold genElementCount.
  destruct (minElements f =? maxElements f).
  - intros H; inversion H; subst.
    split; [symmetry; apply with_r_same|reflexivity].
  - destruct (rand.Intn _ _) as [[k r']| |] eqn:E; try discriminate.
    intros H; inversion H; subst.
    split; [reflexivity|]. eapply Intn_source; eassumption.
Qed.

Lemma genElementCount_fuel (f : GreenRunner) : genElementCount f <> OutOfFuel.
Proof.
  unfold genElementCount, rand.Intn.
  destruct (minElements f =? maxElements f); [discriminate|].
  destruct (_ <=? 0); [discriminate|].
  destruct (rand.Int63 (r f)); discriminate.
Qed.

Lemma Intn_fuel (n : Z) (rnd : rand.Rand) : rand.Intn n rnd <> OutOfFuel.
Proof.
  unfold rand.Intn. destruct (n <=? 0); [discriminate|].
  destruct (rand.Int63 rnd); discriminate.
Qed.

Lemma choose_fuel (cr : charRange) (rnd : rand.Rand) : choose cr rnd <> OutOfFuel.
Proof.
  unfold choose, rand.Int63n. destruct (_ <=? 0); [discriminate|].
  destruct (rand.Int63 rnd); discriminate.
Qed.

Lemma randRunes_fuel (n : nat) (rnd : rand.Rand) : randRunes n rnd <> OutOfFuel.
Proof.
  revert rnd. induction n as [|n IH]; intros rnd; [discriminate|].
  cbn [randRunes].
  pose proof (Intn_fuel (Z.of_nat (length unicodeRanges)) rnd) as H1.
  destruct (rand.Intn _ rnd) as [[i r1]| |]; try discriminate; [|congruence].
  pose proof (choose_fuel (nth (Z.to_nat i) unicodeRanges (mkCharRange 0 0)) r1)
    as H2.
  destruct (choose _ r1) as [[c r2]| |]; try discriminate; [|congruence].
  specialize (IH r2).
  destruct (randRunes n r2) as [[cs r3]| |]; try discriminate. congruence.
Qed.

Lemma randString_fuel (rnd : rand.Rand) : randString rnd <> OutOfFuel.
Proof.
  unfold randString.
  pose proof (Intn_fuel 20 rnd) as H1.
  destruct (rand.Intn 20 rnd) as [[n r1]| |]; try discriminate; [|congruence].
  apply randRunes_fuel.
Qed.

Lemma fillFuncMap_fuel (k : reflect.Kind) (fn : fillFunc) (v : reflect.Value)
  (rnd : rand.Rand) :
  fillFuncMap k = Some fn -> fn v rnd <> OutOfFuel.
Proof.
  destruct k; simpl; intros H; inversion H; subst; clear H;
    unfold greenrunInt, greenrunUint;
    try discriminate;
    try (destruct (randBool rnd); discriminate);
    try (destruct (randUint64 rnd); discriminate);
    try (destruct (rand.Float32 rnd); discriminate);
    try (destruct (rand.Float64 rnd); discriminate).
  pose proof (randString_fuel rnd) as Hn.
  destruct (randString rnd) as [[s r2]| |]; try discriminate. congruence.
Qed.

(* ================================================================= *)
(** ** Every part of a step keeps the context *)

Ltac post_ok H :=
  match type of H with
  | post _ _ ?x =>
      let a := fresh "a" in
      let fc1 := fresh "fc1" in
      let E := fresh "E" in
      destruct x as [[a fc1]| |] eqn:E; cbn [post] in H |- *;
      [ | exact I | exact H ]
  end.

Section StepPost.

Variable implements : reflect.type -> option greenrunFunc.
Variable rec : step.
Variable b : Prop.
Variables d M : Z.


Hypothesis rec_post :
  forall v fl fc, at_depth d M fc -> post b fc (rec v fl fc).

Lemma at_depth_evolves (fc fc' : greenrunerContext) :
  at_depth d M fc -> evolves fc fc' -> at_depth d M fc'.
Proof.
  intros [H1 H2] He. split.
  - destruct He; congruence.
  - rewrite (evolves_maxDepth _ _ He). assumption.
Qed.

Lemma Continue_GreenRun_post (obj : reflect.iface) (fc : greenrunerContext) :
  at_depth d M fc -> post b fc (Continue_GreenRun rec obj fc).
Proof.
  intros Hd. unfold Continue_GreenRun.
  destruct (negb _); [exact I|].
  pose proof (rec_post (reflect.Elem (reflect.ValueOf obj)) 0 fc Hd) as H.
  unfold rbind. post_ok H. exact H.
Qed.

Lemma Continue_GreenRunNoCustom_post (obj : reflect.iface)
  (fc : greenrunerContext) :
  at_depth d M fc -> post b fc (Continue_GreenRunNoCustom rec obj fc).
Proof.
  intros Hd. unfold Continue_GreenRunNoCustom.
  destruct (negb _); [exact I|].
  pose proof (rec_post (reflect.Elem (reflect.ValueOf obj))
                flagNoCustomGreenRun fc Hd) as H.
  unfold rbind. post_ok H. exact H.
Qed.

Lemma runProg_post {A : Type} (p : prog A) (fc : greenrunerContext) :
  at_depth d M fc -> post b fc (runProg rec p fc).
Proof.
  revert fc. induction p as [a|m|k IH|obj k IH|obj k IH]; intros fc Hd;
    cbn [runProg].
  - apply evolves_refl.
  - exact I.
  - destruct (rand.Int63 (r (greenruner fc))) as [z r'] eqn:E.
    assert (He : evolves fc (with_rand fc r')).
    { apply evolves_with_rand.
      pose proof (Int63_source (r (greenruner fc))) as Hs.
      rewrite E in Hs. exact Hs. }
    apply post_evolves with (fc1 := with_rand fc r'); [exact He|].
    apply IH. eapply at_depth_evolves; eassumption.
  - pose proof (Continue_GreenRun_post obj fc Hd) as H. post_ok H.
    eapply post_evolves; [exact H|]. apply IH.
    eapply at_depth_evolves; eassumption.
  - pose proof (Continue_GreenRunNoCustom_post obj fc Hd) as H. post_ok H.
    eapply post_evolves; [exact H|]. apply IH.
    eapply at_depth_evolves; eassumption.
Qed.

Lemma Call_post (fn : greenrunFunc) (v : reflect.Value) (fc : greenrunerContext) :
  at_depth d M fc -> post b fc (Call rec fn v fc).
Proof.
  intros Hd. unfold Call. destruct v as [|t x a ro]; [exact I|].
  pose proof (runProg_post (fn x) fc Hd) as H.
  unfold rbind. post_ok H. exact H.
Qed.

Lemma tryCustom_post (v : reflect.Value) (fc : greenrunerContext) :
  at_depth d M fc -> post b fc (tryCustom implements rec v fc).
Proof.
  intros Hd. unfold tryCustom. destruct v as [|t x a ro]; [exact I|].
  destruct (findCustom _ _ _) as [fn|recv m|].
  - destruct (allocTarget _) as [v'|]; [|apply evolves_refl].
    pose proof (Call_post fn v' fc Hd) as H.
    unfold rbind. post_ok H. exact H.
  - pose proof (runProg_post (m recv) fc Hd) as H.
    unfold rbind. post_ok H. exact H.
  - apply evolves_refl.
Qed.

Lemma fillMapLoop_post (kt et : reflect.type) (n : nat)
  (m : list (reflect.Val * reflect.Val)) (fc : greenrunerContext) :
  at_depth d M fc -> post b fc (fillMapLoop rec kt et n m fc).
Proof.
  revert m fc. induction n as [|n IH]; intros m fc Hd; cbn [fillMapLoop].
  - apply evolves_refl.
  - pose proof (rec_post (reflect.NewElem kt) 0 fc Hd) as H. post_ok H.
    pose proof (at_depth_evolves _ _ Hd H) as Hd1.
    pose proof (rec_post (reflect.NewElem et) 0 fc1 Hd1) as H1.
    apply post_evolves with (fc1 := fc1); [exact H|].
    post_ok H1.
    apply post_evolves with (fc1 := fc0); [exact H1|].
    apply IH. eapply at_depth_evolves; eassumption.
Qed.

Lemma fillElemsLoop_post (et : reflect.type) (a ro : bool)
  (elems : list reflect.Val) (fc : greenrunerContext) :
  at_depth d M fc -> post b fc (fillElemsLoop rec et a ro elems fc).
Proof.
  revert fc. induction elems as [|x rest IH]; intros fc Hd;
    cbn [fillElemsLoop].
  - apply evolves_refl.
  - pose proof (rec_post (reflect.MkValue et x a ro) 0 fc Hd) as H. post_ok H.
    pose proof (at_depth_evolves _ _ Hd H) as Hd1.
    pose proof (IH fc1 Hd1) as H1.
    apply post_evolves with (fc1 := fc1); [exact H|].
    post_ok H1. exact H1.
Qed.

Lemma fillFieldsLoop_post (a ro : bool)
  (fts : list (string * bool * reflect.type)) (vals : list reflect.Val)
  (fc : greenrunerContext) :
  at_depth d M fc -> post b fc (fillFieldsLoop rec a ro fts vals fc).
Proof.
  revert vals fc. induction fts as [|[[nm ex] ft] fts IH]; intros vals fc Hd;
    cbn [fillFieldsLoop].
  - apply evolves_refl.
  - destruct vals as [|x rest]; [apply evolves_refl|].
    pose proof (rec_post (reflect.MkValue ft x a (ro || negb ex)) 0 fc Hd) as H.
    post_ok H.
    pose proof (at_depth_evolves _ _ Hd H) as Hd1.
    pose proof (IH rest fc1 Hd1) as H1.
    apply post_evolves with (fc1 := fc1); [exact H|].
    post_ok H1. exact H1.
Qed.

Lemma evolves_step_greenruner (fc : greenrunerContext) (f1 f2 : GreenRunner) :
  f2 = with_r f1 (r f2) /\ same_source (r f1) (r f2) ->
  evolves (with_greenruner fc f1) (with_greenruner fc f2).
Proof. intros H. split; [reflexivity|exact H]. Qed.

Lemma evolves_genShouldFill (fc : greenrunerContext) :
  evolves fc (with_greenruner fc (snd (genShouldFill (greenruner fc)))).
Proof. split; [reflexivity|apply genShouldFill_with_r]. Qed.

Lemma structural_post (v : reflect.Value) (fc : greenrunerContext) :
  at_depth d M fc -> post b fc (structural rec v fc).
Proof.
  intros Hd. unfold structural. destruct v as [|t x a ro]; [exact I|].
  destruct (fillFuncMap (reflect.Kind_of t)) as [fn|] eqn:Ef.
  { pose proof (fillFuncMap_fuel _ fn (reflect.MkValue t x a ro)
                  (r (greenruner fc)) Ef) as Hf.
    destruct (fn _ _) as [[v' r']| |] eqn:En; cbn [post];
      [|exact I|congruence].
    apply evolves_with_rand. eapply fillFuncMap_source; eassumption. }
  pose proof (evolves_genShouldFill fc) as Hg.
  destruct (reflect.Kind_of t); try exact I.
  - (* Array *)
    destruct (genShouldFill (greenruner fc)) as [fill f1]; cbn [snd] in Hg.
    destruct fill; [|exact Hg].
    pose proof (fillElemsLoop_post (reflect.Elem_type t) a ro (array_elems x)
                  _ (at_depth_evolves _ _ Hd Hg)) as H.
    apply post_evolves with (fc1 := with_greenruner fc f1); [exact Hg|].
    post_ok H. exact H.
  - (* Map *)
    destruct (genShouldFill (greenruner fc)) as [fill f1]; cbn [snd] in Hg.
    destruct fill; [|exact Hg].
    pose proof (genElementCount_fuel f1) as Hn.
    destruct (genElementCount f1) as [[n f2]| |] eqn:En;
      [|exact I|congruence].
    pose proof (evolves_step_greenruner fc f1 f2
                  (genElementCount_with_r _ _ _ En)) as H2.
    pose proof (evolves_trans _ _ _ Hg H2) as Hg2.
    pose proof (fillMapLoop_post (reflect.Key_type t) (reflect.Elem_type t)
                  (Z.to_nat n) [] _ (at_depth_evolves _ _ Hd Hg2)) as H.
    apply post_evolves with (fc1 := with_greenruner fc f2); [exact Hg2|].
    post_ok H. exact H.
  - (* Ptr *)
    destruct (genShouldFill (greenruner fc)) as [fill f1]; cbn [snd] in Hg.
    destruct fill; [|exact Hg].
    pose proof (rec_post
                  (reflect.Elem
                     (reflect.Set_ (reflect.MkValue t x a ro)
                        (reflect.New (reflect.Elem_type t)))) 0
                  _ (at_depth_evolves _ _ Hd Hg)) as H.
    apply post_evolves with (fc1 := with_greenruner fc f1); [exact Hg|].
    post_ok H. exact H.
  - (* Slice *)
    destruct (genShouldFill (greenruner fc)) as [fill f1]; cbn [snd] in Hg.
    destruct fill; [|exact Hg].
    pose proof (genElementCount_fuel f1) as Hn.
    destruct (genElementCount f1) as [[n f2]| |] eqn:En;
      [|exact I|congruence].
    destruct (n <? 0); [exact I|].
    pose proof (evolves_step_greenruner fc f1 f2
                  (genElementCount_with_r _ _ _ En)) as H2.
    pose proof (evolves_trans _ _ _ Hg H2) as Hg2.
    pose proof (fillElemsLoop_post (reflect.Elem_type t) true ro
                  (repeat (reflect.ZeroVal (reflect.Elem_type t)) (Z.to_nat n))
                  _ (at_depth_evolves _ _ Hd Hg2)) as H.
    apply post_evolves with (fc1 := with_greenruner fc f2); [exact Hg2|].
    post_ok H. exact H.
  - (* Struct *)
    pose proof (fillFieldsLoop_post a ro (reflect.Fields t) (struct_fields x)
                  fc Hd) as H.
    post_ok H. exact H.
Qed.

Lemma doGreenRunBody_post (v : reflect.Value) (flags : Z)
  (fc : greenrunerContext) :
  at_depth d M fc -> post b fc (doGreenRunBody implements rec v flags fc).
Proof.
  intros Hd. unfold doGreenRunBody.
  destruct (negb (reflect.CanSet v)); [apply evolves_refl|].
  destruct (Z.land flags flagNoCustomGreenRun =? 0);
    [|apply structural_post; assumption].
  assert (H : post b fc
                (if reflect.CanAddr v
                 then tryCustom implements rec (reflect.Addr v) fc
                 else Ok (false, v, fc))).
  { destruct (reflect.CanAddr v);
      [apply tryCustom_post; assumption|apply evolves_refl]. }
  destruct (if reflect.CanAddr v then _ else _) as [[[done a'] fc1]| |];
    cbn [post] in H |- *; [|exact I|exact H].
  destruct done; [exact H|].
  pose proof (tryCustom_post v fc1 (at_depth_evolves _ _ Hd H)) as H1.
  apply post_evolves with (fc1 := fc1); [exact H|].
  destruct (tryCustom implements rec v fc1) as [[[done2 v2] fc2]| |];
    cbn [post] in H1 |- *; [|exact I|exact H1].
  destruct done2; [exact H1|].
  apply post_evolves with (fc1 := fc2); [exact H1|].
  apply structural_post. eapply at_depth_evolves; [|exact H1].
  eapply at_depth_evolves; eassumption.
Qed.

End StepPost.

Lemma post_weaken {A : Type} (b b' : Prop) (fc : greenrunerContext)
  (x : result (A * greenrunerContext)) :
  (b -> b') -> post b fc x -> post b' fc x.
Proof. intros Hb. destruct x as [[a fc']| |]; simpl; auto. Qed.

Lemma deferDec_post {A : Type} (b : Prop) (fc : greenrunerContext)
  (x : result (A * greenrunerContext)) :
  post b (incDepth fc) x -> post b fc (deferDec x).
Proof.
  destruct x as [[a fc']| |]; simpl; auto.
  intros (H1 & H2 & H3). split; [|split]; simpl in *.
  - rewrite H1. lia.
  - exact H2.
  - exact H3.
Qed.

(** The invariant of [doGreenRun]: it returns with the depth counter and
    the configuration it was called with, and it runs out of fuel only
    when the fuel was below the remaining depth budget. *)
Lemma doGreenRun_post (implements : reflect.type -> option greenrunFunc)
  (fuel : nat) (v : reflect.Value) (flags : Z) (fc : greenrunerContext) :
  post (Z.of_nat fuel < maxDepth (greenruner fc) - curDepth fc) fc
    (doGreenRun implements fuel v flags fc).
Proof.
  revert v flags fc. induction fuel as [|n IH]; intros v flags fc;
    cbn [doGreenRun];
    destruct (curDepth fc >=? maxDepth (greenruner fc)) eqn:Eg;
    try apply evolves_refl.
  - cbn [post]. rewrite Z.geb_leb in Eg. apply Z.leb_gt in Eg. lia.
  - apply deferDec_post.
    apply doGreenRunBody_post
      with (d := curDepth fc + 1) (M := maxDepth (greenruner fc)).
    + intros v' fl fc' [Hd HM].
      eapply post_weaken; [|apply IH]. rewrite Hd, HM. lia.
    + split; reflexivity.
Qed.

Lemma doGreenRun_evolves (implements : reflect.type -> option greenrunFunc)
  (fuel : nat) (v v' : reflect.Value) (flags : Z)
  (fc fc' : greenrunerContext) :
  doGreenRun implements fuel v flags fc = Ok (v', fc') -> evolves fc fc'.
Proof.
  intros H. pose proof (doGreenRun_post implements fuel v flags fc) as P.
  rewrite H in P. exact P.
Qed.

Lemma doGreenRun_fuel (implements : reflect.type -> option greenrunFunc)
  (fuel : nat) (v : reflect.Value) (flags : Z) (fc : greenrunerContext) :
  maxDepth (greenruner fc) - curDepth fc <= Z.of_nat fuel ->
  doGreenRun implements fuel v flags fc <> OutOfFuel.
Proof.
  intros Hf H. pose proof (doGreenRun_post implements fuel v flags fc) as P.
  rewrite H in P. cbn [post] in P. lia.
Qed.

Lemma greenrunWithContext_fuel (implements : reflect.type -> option greenrunFunc)
  (f : GreenRunner) (v : reflect.Value) (flags : Z) :
  greenrunWithContext implements f v flags <> OutOfFuel.
Proof.
  unfold greenrunWithContext.
  pose proof (doGreenRun_fuel implements (Z.to_nat (maxDepth f)) v flags
                (mkContext f 0)) as H.
  destruct (doGreenRun _ _ _ _ _) as [[v' fc']| |]; try discriminate.
  exfalso. apply H; [|reflexivity]. cbn. lia.
Qed.

Lemma GreenRun_fuel (implements : reflect.type -> option greenrunFunc)
  (f : GreenRunner) (obj : reflect.iface) :
  GreenRun implements f obj <> OutOfFuel /\
  GreenRunNoCustom implements f obj <> OutOfFuel.
Proof.
  unfold GreenRun, GreenRunNoCustom. split.
  - destruct (negb _); [discriminate|].
    pose proof (greenrunWithContext_fuel implements f
                  (reflect.Elem (reflect.ValueOf obj)) 0) as H.
    destruct (greenrunWithContext _ _ _ _) as [[e f']| |];
      try discriminate. congruence.
  - destruct (negb _); [discriminate|].
    pose proof (greenrunWithContext_fuel implements f
                  (reflect.Elem (reflect.ValueOf obj)) flagNoCustomGreenRun) as H.
    destruct (greenrunWithContext _ _ _ _) as [[e f']| |];
      try discriminate. congruence.
Qed.

(* ================================================================= *)
(** ** Where a step calls the recursive step *)

(** Two candidates [rec1] and [rec2] for the recursive calls that agree on
    the flags in [F] and the contexts in [Q] give the same step, as long
    as the step only calls them there.  [F] and [Q] thus bound the flags
    and the contexts of the nested calls. *)
Section StepExt.

Variable implements : reflect.type -> option greenrunFunc.
Variables rec1 rec2 : step.
Variable Q : greenrunerContext -> Prop.
Variable F : Z -> Prop.

Hypothesis Q_evolves : forall fc fc', Q fc -> evolves fc fc' -> Q fc'.
Hypothesis rec1_post : forall v fl fc, post True fc (rec1 v fl fc).
Hypothesis agree : forall v fl fc, F fl -> Q fc -> rec1 v fl fc = rec2 v fl fc.
Hypothesis F0 : F 0.

Ltac call_rec v fl fc :=
  let P := fresh "P" in
  pose proof (rec1_post v fl fc) as P;
  rewrite <- (agree v fl fc) by assumption;
  destruct (rec1 v fl fc) as [[? ?]| |]; cbn [post] in P; [|reflexivity..].

Lemma fillMapLoop_ext (kt et : reflect.type) (n : nat)
  (m : list (reflect.Val * reflect.Val)) (fc : greenrunerContext) :
  Q fc -> fillMapLoop rec1 kt et n m fc = fillMapLoop rec2 kt et n m fc.
Proof.
  revert m fc. induction n as [|n IH]; intros m fc HQ; cbn [fillMapLoop];
    [reflexivity|].
  call_rec (reflect.NewElem kt) 0 fc.
  assert (HQ1 : Q g) by (eapply Q_evolves; eassumption).
  call_rec (reflect.NewElem et) 0 g.
  apply IH. eapply Q_evolves; eassumption.
Qed.

Lemma fillElemsLoop_ext (et : reflect.type) (a ro : bool)
  (elems : list reflect.Val) (fc : greenrunerContext) :
  Q fc -> fillElemsLoop rec1 et a ro elems fc = fillElemsLoop rec2 et a ro elems fc.
Proof.
  revert fc. induction elems as [|x rest IH]; intros fc HQ;
    cbn [fillElemsLoop]; [reflexivity|].
  call_rec (reflect.MkValue et x a ro) 0 fc.
  rewrite IH by (eapply Q_evolves; eassumption). reflexivity.
Qed.

Lemma fillFieldsLoop_ext (a ro : bool)
  (fts : list (string * bool * reflect.type)) (vals : list reflect.Val)
  (fc : greenrunerContext) :
  Q fc -> fillFieldsLoop rec1 a ro fts vals fc = fillFieldsLoop rec2 a ro fts vals fc.
Proof.
  revert vals fc. induction fts as [|[[nm ex] ft] fts IH]; intros vals fc HQ;
    cbn [fillFieldsLoop]; [reflexivity|].
  destruct vals as [|x rest]; [reflexivity|].
  call_rec (reflect.MkValue ft x a (ro || negb ex)) 0 fc.
  rewrite IH by (eapply Q_evolves; eassumption). reflexivity.
Qed.

Lemma structural_ext (v : reflect.Value) (fc : greenrunerContext) :
  Q fc -> structural rec1 v fc = structural rec2 v fc.
Proof.
  intros HQ. unfold structural. destruct v as [|t x a ro]; [reflexivity|].
  destruct (fillFuncMap (reflect.Kind_of t)); [reflexivity|].
  pose proof (evolves_genShouldFill fc) as Hg.
  destruct (reflect.Kind_of t); try reflexivity.
  - destruct (genShouldFill (greenruner fc)) as [fill f1]; cbn [snd] in Hg.
    destruct fill; [|reflexivity].
    rewrite fillElemsLoop_ext by (eapply Q_evolves; eassumption). reflexivity.
  - destruct (genShouldFill (greenruner fc)) as [fill f1]; cbn [snd] in Hg.
    destruct fill; [|reflexivity].
    destruct (genElementCount f1) as [[n f2]| |] eqn:En; try reflexivity.
    rewrite fillMapLoop_ext; [reflexivity|].
    apply Q_evolves with (fc := fc); [assumption|].
    eapply evolves_trans; [exact Hg|].
    apply evolves_step_greenruner. eapply genElementCount_with_r; eassumption.
  - destruct (genShouldFill (greenruner fc)) as [fill f1]; cbn [snd] in Hg.
    destruct fill; [|reflexivity].
    rewrite agree; [reflexivity|assumption|].
    eapply Q_evolves; eassumption.
  - destruct (genShouldFill (greenruner fc)) as [fill f1]; cbn [snd] in Hg.
    destruct fill; [|reflexivity].
    destruct (genElementCount f1) as [[n f2]| |] eqn:En; try reflexivity.
    destruct (n <? 0); [reflexivity|].
    rewrite fillElemsLoop_ext; [reflexivity|].
    apply Q_evolves with (fc := fc); [assumption|].
    eapply evolves_trans; [exact Hg|].
    apply evolves_step_greenruner. eapply genElementCount_with_r; eassumption.
  - rewrite fillFieldsLoop_ext by assumption. reflexivity.
Qed.

Hypothesis F1 : F flagNoCustomGreenRun.

Lemma Continue_GreenRun_ext (obj : reflect.iface) (fc : greenrunerContext) :
  Q fc -> Continue_GreenRun rec1 obj fc = Continue_GreenRun rec2 obj fc.
Proof.
  intros HQ. unfold Continue_GreenRun. rewrite agree by assumption.
  reflexivity.
Qed.

Lemma Continue_GreenRunNoCustom_ext (obj : reflect.iface)
  (fc : greenrunerContext) :
  Q fc ->
  Continue_GreenRunNoCustom rec1 obj fc = Continue_GreenRunNoCustom rec2 obj fc.
Proof.
  intros HQ. unfold Continue_GreenRunNoCustom. rewrite agree by assumption.
  reflexivity.
Qed.

Lemma rec1_at_depth (fc : greenrunerContext) :
  forall v fl fc', at_depth (curDepth fc) (maxDepth (greenruner fc)) fc' ->
                   post True fc' (rec1 v fl fc').
Proof. intros; apply rec1_post. Qed.

Lemma runProg_ext {A : Type} (p : prog A) (fc : greenrunerContext) :
  Q fc -> runProg rec1 p fc = runProg rec2 p fc.
Proof.
  revert fc. induction p as [a|m|k IH|obj k IH|obj k IH]; intros fc HQ;
    cbn [runProg]; try reflexivity.
  - destruct (rand.Int63 (r (greenruner fc))) as [z r'] eqn:E.
    apply IH. eapply Q_evolves; [eassumption|].
    apply evolves_with_rand.
    pose proof (Int63_source (r (greenruner fc))) as Hs.
    rewrite E in Hs. exact Hs.
  - pose proof (Continue_GreenRun_post rec1 True _ _ (rec1_at_depth fc) obj fc
                  (conj eq_refl eq_refl)) as P.
    rewrite <- Continue_GreenRun_ext by assumption.
    destruct (Continue_GreenRun rec1 obj fc) as [[obj' fc']| |];
      try reflexivity.
    apply IH. eapply Q_evolves; eassumption.
  - pose proof (Continue_GreenRunNoCustom_post rec1 True _ _ (rec1_at_depth fc)
                  obj fc (conj eq_refl eq_refl)) as P.
    rewrite <- Continue_GreenRunNoCustom_ext by assumption.
    destruct (Continue_GreenRunNoCustom rec1 obj fc) as [[obj' fc']| |];
      try reflexivity.
    apply IH. eapply Q_evolves; eassumption.
Qed.

Lemma Call_ext (fn : greenrunFunc) (v : reflect.Value) (fc : greenrunerContext) :
  Q fc -> Call rec1 fn v fc = Call rec2 fn v fc.
Proof.
  intros HQ. unfold Call. destruct v; [reflexivity|].
  rewrite runProg_ext by assumption. reflexivity.
Qed.

Lemma tryCustom_ext (v : reflect.Value) (fc : greenrunerContext) :
  Q fc -> tryCustom implements rec1 v fc = tryCustom implements rec2 v fc.
Proof.
  intros HQ. unfold tryCustom. destruct v; [reflexivity|].
  destruct (findCustom _ _ _); try reflexivity.
  - destruct (allocTarget _); [|reflexivity].
    rewrite Call_ext by assumption. reflexivity.
  - rewrite runProg_ext by assumption. reflexivity.
Qed.

Lemma doGreenRunBody_ext (v : reflect.Value) (flags : Z)
  (fc : greenrunerContext) :
  Q fc ->
  doGreenRunBody implements rec1 v flags fc
  = doGreenRunBody implements rec2 v flags fc.
Proof.
  intros HQ. unfold doGreenRunBody.
  destruct (negb (reflect.CanSet v)); [reflexivity|].
  destruct (Z.land flags flagNoCustomGreenRun =? 0);
    [|apply structural_ext; assumption].
  assert (P : post True fc
                (if reflect.CanAddr v
                 then tryCustom implements rec1 (reflect.Addr v) fc
                 else Ok (false, v, fc))).
  { destruct (reflect.CanAddr v); [|apply evolves_refl].
    apply tryCustom_post
      with (d := curDepth fc) (M := maxDepth (greenruner fc));
      [intros; apply rec1_post|split; reflexivity]. }
  assert (E : (if reflect.CanAddr v
               then tryCustom implements rec1 (reflect.Addr v) fc
               else Ok (false, v, fc))
              = (if reflect.CanAddr v
                 then tryCustom implements rec2 (reflect.Addr v) fc
                 else Ok (false, v, fc))).
  { destruct (reflect.CanAddr v); [|reflexivity].
    apply tryCustom_ext; assumption. }
  rewrite <- E.
  destruct (if reflect.CanAddr v then _ else _) as [[[done a'] fc1]| |];
    try reflexivity.
  destruct done; [reflexivity|]. cbn [post] in P.
  assert (HQ1 : Q fc1) by (eapply Q_evolves; eassumption).
  pose proof (tryCustom_post implements rec1 True (curDepth fc1)
                (maxDepth (greenruner fc1)) (rec1_at_depth fc1) v fc1
                (conj eq_refl eq_refl)) as P1.
  rewrite <- tryCustom_ext by assumption.
  destruct (tryCustom implements rec1 v fc1) as [[[done2 v2] fc2]| |];
    try reflexivity.
  destruct done2; [reflexivity|]. cbn [post] in P1.
  apply structural_ext. eapply Q_evolves; eassumption.
Qed.

End StepExt.

(* ================================================================= *)
(** ** Configuration: [NilChance], [NumElements], [Funcs] *)

(** C8.  [NilChance(p)] panics exactly when [p < 0] or [p > 1] (the
    comparisons of [float64]) and [NumElements(atLeast, atMost)] exactly
    when [atLeast > atMost] or [atLeast < 0]; a call that does not panic
    returns the generator with the fields it names replaced and every
    other field, the random stream included, as it was. *)
Theorem config_validation (f : GreenRunner) :
  (forall p : float,
      is_panic (NilChance f p) = true <->
      (PrimFloat.ltb p 0%float = true \/ PrimFloat.ltb 1%float p = true))
  /\ (forall p : float,
      is_panic (NilChance f p) = false ->
      NilChance f p =
      Ok (mkGreenRunner (greenrunFuncs f) (defaultGreenRunFuncs f) (r f) p
            (minElements f) (maxElements f) (maxDepth f)))
  /\ (forall atLeast atMost : Z,
      is_panic (NumElements f atLeast atMost) = true <->
      (atLeast > atMost \/ atLeast < 0))
  /\ (forall atLeast atMost : Z,
      is_panic (NumElements f atLeast atMost) = false ->
      NumElements f atLeast atMost =
      Ok (mkGreenRunner (greenrunFuncs f) (defaultGreenRunFuncs f) (r f)
            (nilChance f) atLeast atMost (maxDepth f))).
Proof.
  split; [|split; [|split]].
  - intros p. unfold NilChance. split.
    + intros H.
      destruct (PrimFloat.ltb p 0) eqn:E1; [left; reflexivity|].
      destruct (PrimFloat.ltb 1 p) eqn:E2; [right; reflexivity|].
      discriminate H.
    + intros [H|H]; rewrite H; [reflexivity|].
      rewrite orb_true_r. reflexivity.
  - intros p. unfold NilChance.
    destruct (PrimFloat.ltb p 0 || PrimFloat.ltb 1 p); [discriminate|reflexivity].
  - intros atLeast atMost. unfold NumElements. split.
    + intros H.
      destruct (atLeast >? atMost) eqn:E1; [left; apply Z.gtb_gt; assumption|].
      destruct (atLeast <? 0) eqn:E2; [right; apply Z.ltb_lt; assumption|].
      discriminate H.
    + intros [H|H].
      * apply Z.gtb_gt in H. rewrite H. reflexivity.
      * apply Z.ltb_lt in H. destruct (atLeast >? atMost); [reflexivity|].
        rewrite H. reflexivity.
  - intros atLeast atMost. unfold NumElements.
    destruct (atLeast >? atMost); [discriminate|].
    destruct (atLeast <? 0); [discriminate|reflexivity].
Qed.

Lemma config_validation_witness :
  is_panic (NilChance exGreenRunner 0%float) = false /\
  NilChance exGreenRunner 0%float =
  Ok (mkGreenRunner (greenrunFuncs exGreenRunner)
        (defaultGreenRunFuncs exGreenRunner) (r exGreenRunner) 0%float
        (minElements exGreenRunner) (maxElements exGreenRunner)
        (maxDepth exGreenRunner)).
Proof.
  split; [reflexivity|].
  apply (proj1 (proj2 (config_validation exGreenRunner)) 0%float).
  reflexivity.
Defined.


Lemma Kind_eqb_eq (a b : reflect.Kind) :
  reflect.Kind_eqb a b = true <-> a = b.
Proof.
  unfold reflect.Kind_eqb. destruct (reflect.Kind_eq_dec a b); split;
    congruence.
Qed.


Lemma insertFunc_same (m : greenrunFuncMap) (t : reflect.type)
  (fn : greenrunFunc) : insertFunc m t fn t = Some fn.
Proof.
  unfold insertFunc. destruct (reflect.type_eq_dec t t); congruence.
Qed.

Lemma insertFunc_other (m : greenrunFuncMap) (t t' : reflect.type)
  (fn : greenrunFunc) : t' <> t -> insertFunc m t fn t' = m t'.
Proof.
  unfold insertFunc. destruct (reflect.type_eq_dec t t'); congruence.
Qed.





(* ================================================================= *)
(** ** Element counts *)

Lemma wrapS64_id (z : Z) : is_int z -> wrapS 64 z = z.
Proof.
  unfold is_int, MinInt64, MaxInt64, wrapS, wrapU. intros H.
  change (2 ^ (64 - 1)) with 9223372036854775808.
  change (2 ^ 64) with 18446744073709551616.
  change (2 ^ 63) with 9223372036854775808 in H.
  destruct (Z_lt_le_dec z 0) as [Hn|Hp].
  - replace (z mod 18446744073709551616) with (z + 18446744073709551616).
    + destruct (_ <? _) eqn:E; [apply Z.ltb_lt in E; lia|lia].
    + apply Z.mod_unique with (q := -1); lia.
  - rewrite Z.mod_small by lia.
    destruct (_ <? _) eqn:E; [reflexivity|apply Z.ltb_ge in E; lia].
Qed.

Ltac int_lia :=
  unfold is_int, MinInt64, MaxInt64 in *;
  change (2 ^ 63) with 9223372036854775808 in *; lia.

Lemma wrapS32_small (z : Z) : 0 <= z < 2 ^ 31 -> wrapS 32 z = z.
Proof.
  unfold wrapS, wrapU. intros H.
  change (2 ^ (32 - 1)) with 2147483648.
  change (2 ^ 32) with 4294967296.
  change (2 ^ 31) with 2147483648 in H.
  rewrite Z.mod_small by lia.
  destruct (_ <? _) eqn:E; [reflexivity|apply Z.ltb_ge in E; lia].
Qed.

Lemma Int63_range (rnd : rand.Rand) : 0 <= fst (rand.Int63 rnd) < 2 ^ 63.
Proof. unfold rand.Int63. cbn [fst]. apply Z.mod_pos_bound. lia. Qed.

Lemma Intn_range (n : Z) (rnd : rand.Rand) :
  0 < n ->
  exists k r', rand.Intn n rnd = Ok (k, r') /\ 0 <= k < n.
Proof.
  intros Hn. unfold rand.Intn.
  destruct (n <=? 0) eqn:E; [apply Z.leb_le in E; lia|].
  destruct (rand.Int63 rnd) as [d r']. eexists _, _. split; [reflexivity|].
  apply Z.mod_pos_bound. assumption.
Qed.

(** With bounds that are [int]s and a range that [int] arithmetic can
    measure, the count is drawn inside the range. *)
Lemma genElementCount_in_range (f : GreenRunner) :
  0 <= minElements f <= maxElements f ->
  maxElements f <= MaxInt64 ->
  maxElements f - minElements f < MaxInt64 ->
  exists n f',
    genElementCount f = Ok (n, f') /\ minElements f <= n <= maxElements f.
Proof.
  intros H Hmax Hov. unfold genElementCount.
  destruct (minElements f =? maxElements f) eqn:E.
  - apply Z.eqb_eq in E. eexists _, _. split; [reflexivity|lia].
  - apply Z.eqb_neq in E. unfold int_add, int_sub.
    rewrite (wrapS64_id (maxElements f - minElements f))
      by int_lia.
    rewrite (wrapS64_id (maxElements f - minElements f + 1))
      by int_lia.
    destruct (Intn_range (maxElements f - minElements f + 1) (r f))
      as (k & r' & Ek & Hk); [lia|].
    rewrite Ek. eexists _, _. split; [reflexivity|].
    rewrite wrapS64_id by int_lia. lia.
Qed.

(** Every count of the range is drawn from some stream. *)
Lemma genElementCount_reachable (f : GreenRunner) (n : Z) :
  0 <= minElements f <= maxElements f ->
  maxElements f <= MaxInt64 ->
  maxElements f - minElements f < MaxInt64 ->
  minElements f <= n <= maxElements f ->
  exists f', genElementCount (RandSource f (fun _ => n - minElements f))
             = Ok (n, f').
Proof.
  intros H Hmax Hov Hn. unfold genElementCount, RandSource.
  cbn [minElements maxElements with_r r].
  destruct (minElements f =? maxElements f) eqn:E.
  - apply Z.eqb_eq in E. eexists. f_equal. f_equal. lia.
  - apply Z.eqb_neq in E. unfold int_add, int_sub.
    rewrite (wrapS64_id (maxElements f - minElements f))
      by int_lia.
    rewrite (wrapS64_id (maxElements f - minElements f + 1))
      by int_lia.
    unfold rand.Intn.
    destruct (_ <=? 0) eqn:E0; [apply Z.leb_le in E0; lia|].
    unfold rand.Int63. cbn [rand.source rand.drawn].
    rewrite (Z.mod_small (n - minElements f) (2 ^ 63)) by int_lia.
    rewrite Z.mod_small by lia.
    rewrite wrapS64_id by int_lia.
    eexists. f_equal. f_equal. lia.
Qed.

(** With [minElements = maxElements] the count is that value and no draw
    is made. *)
Lemma genElementCount_fixed (f : GreenRunner) :
  minElements f = maxElements f ->
  genElementCount f = Ok (minElements f, f).
Proof.
  intros H. unfold genElementCount. rewrite H, Z.eqb_refl. reflexivity.
Qed.

(** C9.  The widest range [NumElements] accepts, [0 .. MaxInt64], has
    [maxElements - minElements + 1] wrap around to [MinInt64]: whatever the
    stream, [genElementCount] then panics in [Intn] and draws no count. *)
Theorem genElementCount_widest_range_panics (f : GreenRunner) (src : nat -> Z) :
  exists f',
    NumElements f 0 MaxInt64 = Ok f' /\
    minElements f' <= maxElements f' /\
    genElementCount (RandSource f' src) = Panic "invalid argument to Intn".
Proof.
  eexists. split; [reflexivity|]. split; [cbn; discriminate|].
  reflexivity.
Qed.

(* ================================================================= *)
(** ** Strings *)


Lemma Int63n_range (n : Z) (rnd : rand.Rand) :
  0 < n ->
  exists k r', rand.Int63n n rnd = Ok (k, r') /\ 0 <= k < n.
Proof.
  intros Hn. unfold rand.Int63n.
  destruct (n <=? 0) eqn:E; [apply Z.leb_le in E; lia|].
  destruct (rand.Int63 rnd) as [d r']. eexists _, _. split; [reflexivity|].
  apply Z.mod_pos_bound. assumption.
Qed.

Lemma choose_in_range (cr : charRange) (rnd : rand.Rand) :
  In cr unicodeRanges ->
  exists c r', choose cr rnd = Ok (c, r') /\ first cr <= c < last cr.
Proof.
  intros Hin. unfold choose.
  assert (Hcr : 0 <= first cr /\ first cr < last cr /\ last cr < 2 ^ 16).
  { cbn in Hin. destruct Hin as [H|[H|[H|[]]]]; subst cr; cbn; lia. }
  destruct Hcr as (H0 & H1 & H2).
  rewrite (wrapS32_small (last cr - first cr)) by lia.
  rewrite wrapS64_id by int_lia.
  destruct (Int63n_range (last cr - first cr) rnd) as (k & r' & Ek & Hk);
    [lia|].
  rewrite Ek. eexists _, _. split; [reflexivity|].
  rewrite (wrapS32_small k) by lia.
  rewrite wrapS32_small by lia. lia.
Qed.

Lemma randRunes_spec (n : nat) (rnd : rand.Rand) :
  exists s r', randRunes n rnd = Ok (s, r') /\ length s = n /\
               Forall in_some_range s.
Proof.
  revert rnd. induction n as [|n IH]; intros rnd; cbn [randRunes].
  - eexists _, _. split; [reflexivity|]. split; [reflexivity|constructor].
  - destruct (Intn_range (Z.of_nat (length unicodeRanges)) rnd)
      as (i & r1 & Ei & Hi); [cbn; lia|].
    rewrite Ei.
    assert (Hin : In (nth (Z.to_nat i) unicodeRanges (mkCharRange 0 0))
                    unicodeRanges).
    { apply nth_In. lia. }
    destruct (choose_in_range _ r1 Hin) as (c & r2 & Ec & Hc).
    rewrite Ec.
    destruct (IH r2) as (s & r3 & Es & Hl & Hs). rewrite Es.
    eexists _, _. split; [reflexivity|]. split; [cbn; lia|].
    constructor; [|assumption].
    apply Exists_exists. eexists. split; eassumption.
Qed.

Lemma last_not_in_range (cr : charRange) :
  In cr unicodeRanges -> ~ in_some_range (last cr).
Proof.
  intros Hin H. apply Exists_exists in H. destruct H as (cr' & Hin' & Hr).
  cbn in Hin, Hin'.
  destruct Hin as [H|[H|[H|[]]]]; subst cr;
    destruct Hin' as [H|[H|[H|[]]]]; subst cr'; cbn in Hr; lia.
Qed.

Lemma utf8_len_bound (s : list Z) :
  Forall in_some_range s -> utf8_len s <= 3 * Z.of_nat (length s).
Proof.
  induction 1 as [|c s Hc Hs IH]; [cbn; lia|].
  unfold utf8_len in *. cbn [map fold_right length].
  assert (utf8_size c <= 3).
  { assert (Hb : c < 65536).
    { apply Exists_exists in Hc. destruct Hc as (cr & Hin & Hr).
      cbn in Hin. destruct Hin as [H|[H|[H|[]]]]; subst cr; cbn in Hr; lia. }
    unfold utf8_size.
    destruct (c <? 128); [lia|]. destruct (c <? 2048); [lia|].
    destruct (c <? 65536) eqn:E; [lia|]. apply Z.ltb_ge in E. lia. }
  lia.
Qed.

(** C10.  [choose] returns a rune of its range with the upper end
    excluded, and [randString] always returns: a string of at most 19
    runes (at most 57 bytes), each rune in one of the three ranges, none
    of them the upper end of a range ('~', U+02AF, U+9FFF). *)
Theorem randString_runes (rnd : rand.Rand) :
  (forall cr, In cr unicodeRanges ->
     exists c r', choose cr rnd = Ok (c, r') /\ first cr <= c < last cr)
  /\ exists s r',
       randString rnd = Ok (s, r') /\
       (length s <= 19)%nat /\
       utf8_len s <= 57 /\
       Forall in_some_range s /\
       (forall cr, In cr unicodeRanges -> ~ In (last cr) s).
Proof.
  split; [intros cr Hin; apply choose_in_range; assumption|].
  unfold randString.
  destruct (Intn_range 20 rnd) as (n & r1 & En & Hn); [lia|].
  rewrite En.
  destruct (randRunes_spec (Z.to_nat n) r1) as (s & r2 & Es & Hl & Hs).
  exists s, r2. split; [assumption|]. split; [lia|].
  split; [pose proof (utf8_len_bound s Hs); lia|]. split; [assumption|].
  intros cr Hin Hs'. apply (last_not_in_range cr Hin).
  rewrite Forall_forall in Hs. apply Hs. assumption.
Qed.

Lemma randString_runes_witness :
  exists c r', choose (mkCharRange 32 126) (r exGreenRunner) = Ok (c, r')
               /\ 32 <= c < 126.
Proof.
  apply (proj1 (randString_runes (r exGreenRunner)) (mkCharRange 32 126)).
  left. reflexivity.
Defined.

(* ================================================================= *)
(** ** The depth ceiling *)

Lemma storeElem_Elem (obj : reflect.iface) :
  storeElem obj (reflect.Elem (reflect.ValueOf obj)) = obj.
Proof.
  destruct obj as [[t x]|]; [|reflexivity].
  destruct x; try reflexivity. destruct pointee; reflexivity.
Qed.

Lemma doGreenRun_at_ceiling (implements : reflect.type -> option greenrunFunc)
  (fuel : nat) (v : reflect.Value) (flags : Z) (fc : greenrunerContext) :
  maxDepth (greenruner fc) <= curDepth fc ->
  doGreenRun implements fuel v flags fc = Ok (v, fc).
Proof.
  intros H. destruct fuel; cbn [doGreenRun];
    destruct (curDepth fc >=? maxDepth (greenruner fc)) eqn:E;
    try reflexivity; rewrite Z.geb_leb in E; apply Z.leb_gt in E; lia.
Qed.

Lemma doGreenRun_post_True (implements : reflect.type -> option greenrunFunc)
  (fuel : nat) (v : reflect.Value) (flags : Z) (fc : greenrunerContext) :
  post True fc (doGreenRun implements fuel v flags fc).
Proof. eapply post_weaken; [|apply doGreenRun_post]. intros _; exact I. Qed.

(** C3.  At the ceiling a step returns the slot and the context untouched;
    so [GreenRun] and [GreenRunNoCustom] with [MaxDepth(d)], [d <= 0],
    return their target as it was, without a panic and without a draw.
    A step that returns has restored the depth counter, and every nested
    step it makes, for a field, an element, a pointee or on behalf of a
    custom function, runs one level deeper than the step itself. *)
Theorem depth_ceiling (implements : reflect.type -> option greenrunFunc) :
  (forall fuel v flags fc,
      maxDepth (greenruner fc) <= curDepth fc ->
      doGreenRun implements fuel v flags fc = Ok (v, fc))
  /\ (forall f d obj,
      d <= 0 ->
      reflect.Kind_ (reflect.ValueOf obj) = reflect.Ptr ->
      GreenRun implements (MaxDepth f d) obj = Ok (obj, MaxDepth f d) /\
      GreenRunNoCustom implements (MaxDepth f d) obj = Ok (obj, MaxDepth f d))
  /\ (forall fuel v flags fc v' fc',
      doGreenRun implements fuel v flags fc = Ok (v', fc') ->
      curDepth fc' = curDepth fc)
  /\ (forall fuel v flags fc (rec2 : step),
      curDepth fc < maxDepth (greenruner fc) ->
      (forall v' fl fc',
          curDepth fc' = curDepth fc + 1 ->
          maxDepth (greenruner fc') = maxDepth (greenruner fc) ->
          doGreenRun implements fuel v' fl fc' = rec2 v' fl fc') ->
      doGreenRun implements (S fuel) v flags fc
      = deferDec (doGreenRunBody implements rec2 v flags (incDepth fc))).
Proof.
  split; [|split; [|split]].
  - intros. apply doGreenRun_at_ceiling. assumption.
  - intros f d obj Hd Hk.
    unfold GreenRun, GreenRunNoCustom, greenrunWithContext.
    rewrite Hk. cbn [reflect.Kind_eqb negb].
    destruct (reflect.Kind_eq_dec reflect.Ptr reflect.Ptr); [|congruence].
    cbn [negb].
    rewrite !doGreenRun_at_ceiling by (cbn; lia).
    cbn [greenruner]. rewrite storeElem_Elem.
    split; reflexivity.
  - intros fuel v flags fc v' fc' H.
    apply doGreenRun_evolves in H. destruct H as [Hd _]. exact Hd.
  - intros fuel v flags fc rec2 Hlt Hag. cbn [doGreenRun].
    destruct (curDepth fc >=? maxDepth (greenruner fc)) eqn:E.
    { rewrite Z.geb_leb in E. apply Z.leb_le in E. lia. }
    f_equal.
    apply doGreenRunBody_ext
      with (Q := at_depth (curDepth fc + 1) (maxDepth (greenruner fc)))
           (F := fun _ => True).
    + intros a b. apply at_depth_evolves.
    + intros. apply doGreenRun_post_True.
    + intros v' fl fc' _ [H1 H2]. apply Hag; assumption.
    + exact I.
    + exact I.
    + split; reflexivity.
Qed.

Lemma depth_ceiling_witness :
  GreenRun noMethods (MaxDepth exGreenRunner 0) (ptrTo PMS (reflect.ZeroVal PMS))
  = Ok (ptrTo PMS (reflect.ZeroVal PMS), MaxDepth exGreenRunner 0).
Proof.
  apply (proj1 (proj2 (depth_ceiling noMethods)) exGreenRunner 0
           (ptrTo PMS (reflect.ZeroVal PMS))).
  - lia.
  - reflexivity.
Defined.

(* ================================================================= *)
(** ** Targets of custom and default functions *)

Lemma allocated_fresh (t : reflect.type) (x : reflect.Val) (a ro : bool) :
  let v := reflect.MkValue t x a ro in
  reflect.IsNil v = true ->
  (reflect.Kind_of t = reflect.Ptr ->
   allocated v = reflect.MkValue t
                   (reflect.VPtr (Some (reflect.ZeroVal (reflect.Elem_type t))))
                   a ro)
  /\ (reflect.Kind_of t = reflect.Map ->
      allocated v = reflect.MkValue t (reflect.VMap (Some [])) a ro).
Proof.
  intros v Hn. unfold allocated. subst v. rewrite Hn.
  split; intros Hk; rewrite Hk; reflexivity.
Qed.

(** C4.  When [tryCustom] has found a custom or a default function for a
    slot, it calls the function exactly when the slot is a pointer or a
    map that is non-nil or can be set, and the argument of the call is
    then never nil: a nil slot is first set to a fresh pointee or to an
    empty map.  Nothing of this reads the nil chance or the random
    stream. *)
Theorem custom_target_allocated
  (implements : reflect.type -> option greenrunFunc) (rec : step)
  (v : reflect.Value) (fc : greenrunerContext) (doCustom : greenrunFunc) :
  findCustom implements (greenruner fc) v = UseFunc doCustom ->
  match allocTarget v with
  | Some v' =>
      reflect.IsNil v' = false
      /\ (reflect.IsNil v = true ->
          reflect.CanSet v = true /\ v' = allocated v)
      /\ (reflect.IsNil v = false -> v' = v)
      /\ tryCustom implements rec v fc
         = rbind (Call rec doCustom v' fc)
             (fun '(v'', fc') => Ok (true, v'', fc'))
  | None =>
      tryCustom implements rec v fc = Ok (false, v, fc)
      /\ (reflect.Kind_ v = reflect.Ptr \/ reflect.Kind_ v = reflect.Map ->
          reflect.IsNil v = true /\ reflect.CanSet v = false)
  end.
Proof.
  intros Hf. unfold tryCustom. rewrite Hf.
  destruct v as [|t x a ro]; [discriminate Hf|].
  unfold allocTarget, allocated.
  destruct (reflect.Kind_of t) eqn:Ek;
    try (split; [reflexivity|];
         cbn [reflect.Kind_]; rewrite Ek; intros [H|H]; discriminate H).
  - (* Map *)
    destruct (reflect.IsNil (reflect.MkValue t x a ro)) eqn:En.
    + destruct (reflect.CanSet (reflect.MkValue t x a ro)) eqn:Ec; cbn [negb].
      * split; [reflexivity|]. split; [intros _; split; reflexivity|].
        split; [intros H; discriminate H|reflexivity].
      * split; [reflexivity|]. intros _. split; reflexivity.
    + split; [assumption|]. split; [intros H; discriminate H|].
      split; [intros _; reflexivity|reflexivity].
  - (* Ptr *)
    destruct (reflect.IsNil (reflect.MkValue t x a ro)) eqn:En.
    + destruct (reflect.CanSet (reflect.MkValue t x a ro)) eqn:Ec; cbn [negb].
      * split; [reflexivity|]. split; [intros _; split; reflexivity|].
        split; [intros H; discriminate H|reflexivity].
      * split; [reflexivity|]. intros _. split; reflexivity.
    + split; [assumption|]. split; [intros H; discriminate H|].
      split; [intros _; reflexivity|reflexivity].
Qed.

Lemma custom_target_allocated_witness :
  tryCustom noMethods (doGreenRun noMethods 0)
    (reflect.NewElem (reflect.PtrTo timeT)) (mkContext exGreenRunner 1)
  = rbind (Call (doGreenRun noMethods 0) greenrunTime
             (reflect.MkValue (reflect.PtrTo timeT)
                (reflect.VPtr (Some (reflect.ZeroVal timeT))) true false)
             (mkContext exGreenRunner 1))
      (fun '(v'', fc') => Ok (true, v'', fc')).
Proof.
  apply (custom_target_allocated noMethods (doGreenRun noMethods 0)
           (reflect.NewElem (reflect.PtrTo timeT)) (mkContext exGreenRunner 1)
           greenrunTime eq_refl).
Defined.

(* ================================================================= *)
(** ** [GreenRunNoCustom] *)


Lemma tryCustom_miss (implements : reflect.type -> option greenrunFunc)
  (rec : step) (v : reflect.Value) (fc : greenrunerContext) :
  v <> reflect.ZeroValue ->
  findCustom implements (greenruner fc) v = NoCustom ->
  tryCustom implements rec v fc = Ok (false, v, fc).
Proof.
  intros Hv Hf. unfold tryCustom. rewrite Hf.
  destruct v; [congruence|reflexivity].
Qed.

Lemma doGreenRunBody_flagged (implements : reflect.type -> option greenrunFunc)
  (rec : step) (v : reflect.Value) (fc : greenrunerContext) :
  doGreenRunBody implements rec v flagNoCustomGreenRun fc
  = if negb (reflect.CanSet v) then Ok (v, fc) else structural rec v fc.
Proof. reflexivity. Qed.

Lemma doGreenRunBody_miss (implements : reflect.type -> option greenrunFunc)
  (rec : step) (v : reflect.Value) (fc : greenrunerContext) :
  findCustom implements (greenruner fc) (reflect.Addr v) = NoCustom ->
  findCustom implements (greenruner fc) v = NoCustom ->
  doGreenRunBody implements rec v 0 fc
  = doGreenRunBody implements rec v flagNoCustomGreenRun fc.
Proof.
  intros Ha Hv. rewrite doGreenRunBody_flagged. unfold doGreenRunBody.
  destruct (reflect.CanSet v) eqn:Ec; cbn [negb]; [|reflexivity].
  assert (Hz : v <> reflect.ZeroValue) by (intros ->; discriminate Ec).
  change (Z.land 0 flagNoCustomGreenRun =? 0) with true. cbv iota.
  destruct (reflect.CanAddr v).
  - rewrite (tryCustom_miss implements rec (reflect.Addr v) fc);
      [|destruct v; [congruence|discriminate]|assumption].
    rewrite (tryCustom_miss implements rec v fc) by assumption. reflexivity.
  - rewrite (tryCustom_miss implements rec v fc) by assumption. reflexivity.
Qed.


Lemma GreenRunNoCustom_unfold
  (implements : reflect.type -> option greenrunFunc) (f : GreenRunner)
  (t : reflect.type) (x : reflect.Val) :
  0 < maxDepth f ->
  GreenRunNoCustom implements f (ptrTo t x)
  = match structural
            (doGreenRun implements (Nat.pred (Z.to_nat (maxDepth f))))
            (reflect.MkValue t x true false) (incDepth (mkContext f 0)) with
    | Ok (v', fc') => Ok (ptrTo t (reflect.val_of v' x), greenruner (decDepth fc'))
    | Panic m => Panic m
    | OutOfFuel => OutOfFuel
    end.
Proof.
  intros Hd. unfold GreenRunNoCustom, ptrTo, greenrunWithContext.
  cbn [reflect.ValueOf reflect.Kind_ reflect.Kind_of reflect.Elem].
  change (negb (reflect.Kind_eqb reflect.Ptr reflect.Ptr)) with false.
  cbv iota. change (reflect.Elem_type (reflect.PtrTo t)) with t.
  destruct (Z.to_nat (maxDepth f)) as [|k] eqn:Ef; [lia|].
  cbn [Nat.pred doGreenRun curDepth greenruner].
  destruct (0 >=? maxDepth f) eqn:E.
  { rewrite Z.geb_leb in E. apply Z.leb_le in E. lia. }
  rewrite doGreenRunBody_flagged. cbn [reflect.CanSet andb negb].
  destruct (structural _ _ _) as [[v' fc1]| |]; cbn [deferDec];
    [|reflexivity|reflexivity].
  destruct v' as [|t' y a' ro']; reflexivity.
Qed.




(* ================================================================= *)
(** ** Panics *)


Lemma findCustom_noCustoms (f : GreenRunner) (v : reflect.Value) :
  noCustoms f -> findCustom noMethods f v = NoCustom.
Proof.
  intros [H1 H2]. unfold findCustom.
  destruct (reflect.Type_ v) as [t|]; [|reflexivity].
  rewrite H1, H2. unfold selfGreenRun, noMethods.
  destruct (reflect.CanInterface v); [|reflexivity].
  destruct (reflect.Interface_ v) as [[dt x]|]; reflexivity.
Qed.

Lemma noCustoms_evolves (fc fc' : greenrunerContext) :
  evolves fc fc' -> noCustoms (greenruner fc) -> noCustoms (greenruner fc').
Proof.
  intros He [H1 H2]. destruct (evolves_funcs _ _ He) as [E1 E2].
  split; intros t; [rewrite E1|rewrite E2]; auto.
Qed.

Lemma structural_unsupported (rec : step) (t : reflect.type) (x : reflect.Val)
  (a ro : bool) (fc : greenrunerContext) :
  unsupportedKind (reflect.Kind_of t) = true ->
  is_panic (structural rec (reflect.MkValue t x a ro) fc) = true.
Proof.
  unfold structural. destruct (reflect.Kind_of t); try discriminate;
    intros _; reflexivity.
Qed.

Lemma doGreenRun_unsupported (implements : reflect.type -> option greenrunFunc)
  (fuel : nat) (v : reflect.Value) (flags : Z) (fc : greenrunerContext) :
  reflect.CanSet v = true ->
  unsupportedKind (reflect.Kind_ v) = true ->
  curDepth fc < maxDepth (greenruner fc) ->
  (Z.land flags flagNoCustomGreenRun <> 0 \/
   (findCustom implements (greenruner fc) (reflect.Addr v) = NoCustom /\
    findCustom implements (greenruner fc) v = NoCustom)) ->
  is_panic (doGreenRun implements (S fuel) v flags fc) = true.
Proof.
  intros Hs Hk Hd Hc. cbn [doGreenRun].
  destruct (curDepth fc >=? maxDepth (greenruner fc)) eqn:E.
  { rewrite Z.geb_leb in E. apply Z.leb_le in E. lia. }
  assert (Hb : is_panic (structural (doGreenRun implements fuel) v (incDepth fc))
               = true).
  { destruct v as [|t x a ro]; [discriminate Hs|].
    apply structural_unsupported. exact Hk. }
  assert (Hbody : doGreenRunBody implements (doGreenRun implements fuel) v flags
                    (incDepth fc)
                  = structural (doGreenRun implements fuel) v (incDepth fc)).
  { destruct Hc as [Hf|[Ha Hv]].
    - unfold doGreenRunBody. rewrite Hs. cbn [negb].
      destruct (Z.land flags flagNoCustomGreenRun =? 0) eqn:E0;
        [apply Z.eqb_eq in E0; congruence|reflexivity].
    - destruct (Z.land flags flagNoCustomGreenRun =? 0) eqn:E0.
      + unfold doGreenRunBody. rewrite Hs, E0. cbn [negb].
        assert (Hz : v <> reflect.ZeroValue) by (intros ->; discriminate Hs).
        destruct (reflect.CanAddr v).
        * rewrite (tryCustom_miss implements _ (reflect.Addr v) (incDepth fc));
            [|destruct v; [congruence|discriminate]|assumption].
          rewrite (tryCustom_miss implements _ v (incDepth fc)) by assumption.
          reflexivity.
        * rewrite (tryCustom_miss implements _ v (incDepth fc)) by assumption.
          reflexivity.
      + unfold doGreenRunBody. rewrite Hs, E0. reflexivity. }
  rewrite Hbody.
  destruct (structural _ _ _) as [[v' fc']| |]; try discriminate Hb.
  reflexivity.
Qed.

Section Abort.

Variable rec : step.
Variables d M : Z.

Hypothesis rec_post :
  forall v fl fc, at_depth d M fc -> post False fc (rec v fl fc).
Hypothesis rec_unsupported :
  forall ft x fc,
    at_depth d M fc -> noCustoms (greenruner fc) ->
    unsupportedKind (reflect.Kind_of ft) = true ->
    is_panic (rec (reflect.MkValue ft x true false) 0 fc) = true.

(** A struct with an exported field of an unsupported kind: the loop over
    its fields ends in a panic, at that field or before it. *)
Lemma fillFieldsLoop_abort (fts : list (string * bool * reflect.type))
  (vals : list reflect.Val) (fc : greenrunerContext) :
  at_depth d M fc -> noCustoms (greenruner fc) ->
  length vals = length fts ->
  Exists (fun fld => snd (fst fld) = true /\
                     unsupportedKind (reflect.Kind_of (snd fld)) = true) fts ->
  is_panic (fillFieldsLoop rec true false fts vals fc) = true.
Proof.
  revert vals fc. induction fts as [|[[nm ex] ft] fts IH];
    intros vals fc Hd Hn Hl Hex; [inversion Hex|].
  destruct vals as [|x rest]; [discriminate Hl|].
  cbn [fillFieldsLoop].
  pose proof (rec_post (reflect.MkValue ft x true (false || negb ex)) 0 fc Hd)
    as P.
  inversion Hex as [fld l [Hexp Hk]|fld l Hrest]; subst.
  - cbn [fst snd] in Hexp, Hk. subst ex. cbn [negb orb] in *.
    pose proof (rec_unsupported ft x fc Hd Hn Hk) as Hp.
    destruct (rec _ _ _) as [[e fc1]| |]; try discriminate Hp. reflexivity.
  - destruct (rec _ _ _) as [[e fc1]| |]; cbn [post] in P;
      [|reflexivity|contradiction].
    assert (Hp : is_panic (fillFieldsLoop rec true false fts rest fc1) = true).
    { apply IH.
      - eapply at_depth_evolves; eassumption.
      - eapply noCustoms_evolves; eassumption.
      - cbn in Hl. lia.
      - assumption. }
    destruct (fillFieldsLoop _ _ _ _ _ _) as [[l' fc2]| |];
      try discriminate Hp. reflexivity.
Qed.

End Abort.

(** C7.  [GreenRun], [GreenRunNoCustom], [Continue.GreenRun] and
    [Continue.GreenRunNoCustom] panic on a target that is not a pointer.
    The structural generation panics on a slot of kind channel, function,
    interface, complex or unsafe pointer, and so does the step that
    reaches it: a settable slot of such a kind, below the depth ceiling,
    with the custom lookups skipped or finding nothing.  The panic ends
    the whole call: without custom functions, [GreenRun] on a struct with
    an exported field of such a kind panics. *)
Theorem generation_panics (implements : reflect.type -> option greenrunFunc) :
  (forall f obj (rec : step) fc,
      reflect.Kind_ (reflect.ValueOf obj) <> reflect.Ptr ->
      GreenRun implements f obj = Panic "needed ptr!" /\
      GreenRunNoCustom implements f obj = Panic "needed ptr!" /\
      Continue_GreenRun rec obj fc = Panic "needed ptr!" /\
      Continue_GreenRunNoCustom rec obj fc = Panic "needed ptr!")
  /\ (forall (rec : step) t x a ro fc,
      unsupportedKind (reflect.Kind_of t) = true ->
      is_panic (structural rec (reflect.MkValue t x a ro) fc) = true)
  /\ (forall fuel v flags fc,
      reflect.CanSet v = true ->
      unsupportedKind (reflect.Kind_ v) = true ->
      curDepth fc < maxDepth (greenruner fc) ->
      (Z.land flags flagNoCustomGreenRun <> 0 \/
       (findCustom implements (greenruner fc) (reflect.Addr v) = NoCustom /\
        findCustom implements (greenruner fc) v = NoCustom)) ->
      is_panic (doGreenRun implements (S fuel) v flags fc) = true)
  /\ (forall f t vals,
      noCustoms f ->
      2 <= maxDepth f ->
      reflect.Kind_of t = reflect.Struct ->
      length vals = length (reflect.Fields t) ->
      Exists (fun fld => snd (fst fld) = true /\
                         unsupportedKind (reflect.Kind_of (snd fld)) = true)
        (reflect.Fields t) ->
      is_panic (GreenRun noMethods f (ptrTo t (reflect.VStruct vals))) = true).
Proof.
  split; [|split; [|split]].
  - intros f obj rec fc Hk.
    assert (E : reflect.Kind_eqb (reflect.Kind_ (reflect.ValueOf obj))
                  reflect.Ptr = false).
    { destruct (reflect.Kind_eqb _ _) eqn:E; [|reflexivity].
      apply Kind_eqb_eq in E. congruence. }
    unfold GreenRun, GreenRunNoCustom, Continue_GreenRun,
      Continue_GreenRunNoCustom.
    rewrite E. repeat split.
  - intros. apply structural_unsupported. assumption.
  - intros. apply doGreenRun_unsupported; assumption.
  - intros f t vals Hn Hd Hk Hl Hex.
    unfold GreenRun, ptrTo, greenrunWithContext.
    cbn [reflect.ValueOf reflect.Kind_ reflect.Kind_of reflect.Elem].
    change (negb (reflect.Kind_eqb reflect.Ptr reflect.Ptr)) with false.
    cbv iota.
    destruct (Z.to_nat (maxDepth f)) as [|[|k]] eqn:Ef; try lia.
    cbn [doGreenRun curDepth greenruner].
    destruct (0 >=? maxDepth f) eqn:E.
    { rewrite Z.geb_leb in E. apply Z.leb_le in E. lia. }
    assert (Hbody : is_panic
                      (doGreenRunBody noMethods (doGreenRun noMethods (S k))
                         (reflect.MkValue (reflect.Elem_type (reflect.PtrTo t))
                            (reflect.VStruct vals) true false) 0
                         (incDepth (mkContext f 0))) = true).
    { unfold doGreenRunBody.
      cbn [reflect.CanSet reflect.CanAddr andb negb].
      change (Z.land 0 flagNoCustomGreenRun =? 0) with true. cbv iota.
      rewrite tryCustom_miss;
        [|discriminate|apply findCustom_noCustoms; assumption].
      rewrite tryCustom_miss;
        [|discriminate|apply findCustom_noCustoms; assumption].
      change (reflect.Elem_type (reflect.PtrTo t)) with t.
      unfold structural. rewrite Hk. cbn [fillFuncMap].
      cbn [struct_fields].
      pose proof (fillFieldsLoop_abort (doGreenRun noMethods (S k)) 1
                    (maxDepth f)) as Hab.
      assert (Hp : is_panic
                     (fillFieldsLoop (doGreenRun noMethods (S k)) true false
                        (reflect.Fields t) vals (incDepth (mkContext f 0)))
                   = true).
      { apply Hab.
        - intros v fl fc [H1 H2].
          eapply post_weaken; [|apply doGreenRun_post].
          rewrite H1, H2. lia.
        - intros ft x fc [H1 H2] Hnc Hu.
          apply doGreenRun_unsupported.
          + reflexivity.
          + exact Hu.
          + lia.
          + right. split; apply findCustom_noCustoms; assumption.
        - split; reflexivity.
        - exact Hn.
        - exact Hl.
        - exact Hex. }
      destruct (fillFieldsLoop _ _ _ _ _ _) as [[l fc1]| |];
        try discriminate Hp. reflexivity. }
    destruct (doGreenRunBody _ _ _ _ _) as [[v' fc']| |];
      try discriminate Hbody. reflexivity.
Qed.

Lemma generation_panics_witness :
  is_panic
    (GreenRun noMethods
       (MaxDepth (mkGreenRunner emptyFuncMap emptyFuncMap
                    (rand.mkRand countSource O) 0%float 1 1 100) 2)
       (ptrTo (reflect.StructOf
                 [("A", true, intT);
                  ("C", true, reflect.ChanOf intT)])
          (reflect.VStruct [reflect.VInt 0; reflect.VChan]))) = true.
Proof.
  apply (proj2 (proj2 (proj2 (generation_panics noMethods)))).
  - split; reflexivity.
  - cbn. lia.
  - reflexivity.
  - reflexivity.
  - apply Exists_cons_tl. apply Exists_cons_hd. split; reflexivity.
Defined.

(* ================================================================= *)
(** ** The order of the custom lookups *)

Lemma findCustom_Addr (implements : reflect.type -> option greenrunFunc)
  (f : GreenRunner) (t : reflect.type) (x : reflect.Val) (a ro : bool) :
  findCustom implements f (reflect.Addr (reflect.MkValue t x a ro))
  = match greenrunFuncs f (reflect.PtrTo t) with
    | Some fn => UseFunc fn
    | None =>
        match selfGreenRun implements (reflect.Addr (reflect.MkValue t x a ro)) with
        | Some (y, m) => UseSelf y m
        | None =>
            match defaultGreenRunFuncs f (reflect.PtrTo t) with
            | Some fn => UseFunc fn
            | None => NoCustom
            end
        end
    end.
Proof. reflexivity. Qed.

Lemma tryCustom_Addr_func (implements : reflect.type -> option greenrunFunc)
  (rec : step) (t : reflect.type) (x : reflect.Val) (a ro : bool)
  (fc : greenrunerContext) (fn : greenrunFunc) :
  findCustom implements (greenruner fc) (reflect.Addr (reflect.MkValue t x a ro))
  = UseFunc fn ->
  tryCustom implements rec (reflect.Addr (reflect.MkValue t x a ro)) fc
  = rbind (Call rec fn (reflect.Addr (reflect.MkValue t x a ro)) fc)
      (fun '(v'', fc') => Ok (true, v'', fc')).
Proof.
  intros H. unfold tryCustom. cbn [reflect.Addr]. cbn [reflect.Addr] in H.
  rewrite H. reflexivity.
Qed.

Lemma allocTarget_settable (t : reflect.type) (x : reflect.Val) :
  allocTarget (reflect.MkValue t x true false)
  = if ptr_or_map t then Some (allocated (reflect.MkValue t x true false))
    else None.
Proof.
  unfold allocTarget, allocated, ptr_or_map.
  destruct (reflect.Kind_of t); try reflexivity;
    destruct (reflect.IsNil _); reflexivity.
Qed.

Lemma lookup_order_body (implements : reflect.type -> option greenrunFunc)
  (rec : step) (v : reflect.Value) (fc : greenrunerContext) :
  reflect.CanSet v = true ->
  doGreenRunBody implements rec v 0 fc
  = runHandler rec v fc (lookupOrder implements (greenruner fc) v).
Proof.
  intros Hs. destruct v as [|t x a ro]; [discriminate Hs|].
  cbn [reflect.CanSet] in Hs. apply andb_true_iff in Hs.
  destruct Hs as [Ha Hro]. apply negb_true_iff in Hro. subst a ro.
  unfold doGreenRunBody. cbn [reflect.CanSet reflect.CanAddr andb negb].
  change (Z.land 0 flagNoCustomGreenRun =? 0) with true. cbv iota.
  unfold lookupOrder.
  pose proof (findCustom_Addr implements (greenruner fc) t x true false) as FA.
  destruct (greenrunFuncs (greenruner fc) (reflect.PtrTo t)) as [fn|] eqn:E1.
  { rewrite (tryCustom_Addr_func implements rec t x true false fc fn FA).
    cbn [runHandler]. unfold rbind.
    destruct (Call rec fn _ fc) as [[a' fc1]| |]; reflexivity. }
  destruct (selfGreenRun implements (reflect.Addr (reflect.MkValue t x true false)))
    as [[y m]|] eqn:E2.
  { unfold tryCustom at 1. cbn [reflect.Addr] in FA |- *. rewrite FA.
    cbn [runHandler]. unfold rbind.
    destruct (runProg rec (m y) fc) as [[out fc1]| |]; reflexivity. }
  destruct (defaultGreenRunFuncs (greenruner fc) (reflect.PtrTo t))
    as [fn|] eqn:E3.
  { rewrite (tryCustom_Addr_func implements rec t x true false fc fn FA).
    cbn [runHandler]. unfold rbind.
    destruct (Call rec fn _ fc) as [[a' fc1]| |]; reflexivity. }
  rewrite (tryCustom_miss implements rec _ fc); [|discriminate|exact FA].
  unfold tryCustom, findCustom. cbn [reflect.Type_].
  destruct (greenrunFuncs (greenruner fc) t) as [fn|] eqn:E4.
  { rewrite allocTarget_settable.
    destruct (ptr_or_map t); [|reflexivity].
    cbn [runHandler]. unfold rbind.
    destruct (Call rec fn _ fc) as [[v2 fc2]| |]; reflexivity. }
  destruct (selfGreenRun implements (reflect.MkValue t x true false))
    as [[y m]|] eqn:E5.
  { cbn [runHandler]. unfold rbind.
    destruct (runProg rec (m y) fc) as [[out fc1]| |]; reflexivity. }
  destruct (defaultGreenRunFuncs (greenruner fc) t) as [fn|] eqn:E6;
    [|reflexivity].
  rewrite allocTarget_settable.
  destruct (ptr_or_map t); [|reflexivity].
  cbn [runHandler]. unfold rbind.
  destruct (Call rec fn _ fc) as [[v2 fc2]| |]; reflexivity.
Qed.

(** C1, as the program has it.  On a settable slot of type [T], below
    the depth ceiling and with the lookups not suppressed, a step runs the
    first of: the custom function for [*T], the self-generation of the
    reference ([*T] implements [greenrun.Interface]), the default function
    for [*T]; then the custom function for [T], the self-generation of the
    value, the default function for [T], where a function found for [T]
    runs only if [T] is a pointer or a map and otherwise ends the lookups;
    then the structural generation.  In particular a custom function
    registered for [*T] runs on every such slot of type [T], whatever [T]
    or [*T] implement and whatever defaults exist. *)
Theorem custom_lookup_order (implements : reflect.type -> option greenrunFunc)
  (fuel : nat) (v : reflect.Value) (fc : greenrunerContext) :
  reflect.CanSet v = true ->
  curDepth fc < maxDepth (greenruner fc) ->
  doGreenRun implements (S fuel) v 0 fc
  = deferDec (runHandler (doGreenRun implements fuel) v (incDepth fc)
                (lookupOrder implements (greenruner fc) v))
  /\ (forall t fn,
        reflect.Type_ v = Some t ->
        greenrunFuncs (greenruner fc) (reflect.PtrTo t) = Some fn ->
        doGreenRun implements (S fuel) v 0 fc
        = deferDec
            (rbind (Call (doGreenRun implements fuel) fn (reflect.Addr v)
                      (incDepth fc))
               (fun '(a', fc') => Ok (storeAddr v a', fc')))).
Proof.
  intros Hs Hd.
  assert (E : doGreenRun implements (S fuel) v 0 fc
              = deferDec (runHandler (doGreenRun implements fuel) v (incDepth fc)
                            (lookupOrder implements (greenruner fc) v))).
  { cbn [doGreenRun].
    destruct (curDepth fc >=? maxDepth (greenruner fc)) eqn:Eg.
    { rewrite Z.geb_leb in Eg. apply Z.leb_le in Eg. lia. }
    rewrite lookup_order_body by assumption. reflexivity. }
  split; [exact E|].
  intros t fn Ht Hfn. rewrite E.
  destruct v as [|t' x a ro]; [discriminate Ht|].
  cbn [reflect.Type_] in Ht. inversion Ht; subst t'.
  unfold lookupOrder. rewrite Hfn. reflexivity.
Qed.

Lemma custom_lookup_order_witness :
  doGreenRun noMethods 2 (reflect.NewElem nodeT) 0 (mkContext greenRunnerNode 0)
  = deferDec
      (rbind (Call (doGreenRun noMethods 1) overrideNode
                (reflect.Addr (reflect.NewElem nodeT))
                (incDepth (mkContext greenRunnerNode 0)))
         (fun '(a', fc') => Ok (storeAddr (reflect.NewElem nodeT) a', fc'))).
Proof.
  apply (proj2 (custom_lookup_order noMethods 1 (reflect.NewElem nodeT)
                  (mkContext greenRunnerNode 0) eq_refl eq_refl)
           nodeT overrideNode eq_refl eq_refl).
Defined.

(** C1 as stated fails.  [type M map[string]int] has a method [GreenRun],
    so [*M] implements [greenrun.Interface] too, and a custom function is
    registered for [M] through [Funcs].  The order of the specification
    (custom function for [*M], custom function for [M], self-generation,
    default) selects the custom function, which stores an entry in a fresh
    map.  The program finds the self-generation of [*M] before it looks
    for a custom function for [M]: the step returns with the map nil and
    the custom function is never called.  So the step is not the stated
    order on every settable slot.  Nor is any lookup made on a slot that
    cannot be set or at the depth ceiling: there the custom function
    registered for [*T] is not called either.  [Funcs] has accepted the
    function for [M], and the doc comment of [GreenRun] says that a custom
    function is looked for first and [greenrun.Interface] only if there is
    none; a function taking [*M] is found first, as the doc comment says
    ([custom_lookup_order]). *)
Lemma claimed_order_counterexample :
  Funcs exGreenRunner [overrideM_func] = Ok greenRunnerM
  /\ greenrunFuncs greenRunnerM mapM = Some overrideM
  /\ implementsM mapM <> None
  /\ claimedOrder implementsM greenRunnerM (reflect.NewElem mapM)
     = OwnOverride overrideM
  /\ runHandler (doGreenRun implementsM 99) (reflect.NewElem mapM)
       (mkContext greenRunnerM 1) (OwnOverride overrideM)
     = Ok (reflect.MkValue mapM
             (reflect.VMap (Some [(reflect.VString [107], reflect.VInt 1)]))
             true false,
           mkContext greenRunnerM 1)
  /\ doGreenRun implementsM 100 (reflect.NewElem mapM) 0
       (mkContext greenRunnerM 0)
     = Ok (reflect.NewElem mapM, mkContext greenRunnerM 0)
  /\ observe (GreenRun implementsM greenRunnerM (ptrTo mapM (reflect.VMap None)))
     = Ok (Some (reflect.VPtr (Some (reflect.VMap None))), 0%nat)
  /\ greenrunFuncs greenRunnerNode (reflect.PtrTo nodeT) = Some overrideNode
  /\ doGreenRun noMethods 100
       (reflect.MkValue nodeT (reflect.ZeroVal nodeT) true true) 0
       (mkContext greenRunnerNode 0)
     = Ok (reflect.MkValue nodeT (reflect.ZeroVal nodeT) true true,
           mkContext greenRunnerNode 0)
  /\ doGreenRun noMethods 100 (reflect.NewElem nodeT) 0
       (mkContext (MaxDepth greenRunnerNode 0) 0)
     = Ok (reflect.NewElem nodeT, mkContext (MaxDepth greenRunnerNode 0) 0)
  /\ ~ (forall implements (rec : step) v fc,
          reflect.CanSet v = true ->
          doGreenRunBody implements rec v 0 fc
          = runHandler rec v fc (claimedOrder implements (greenruner fc) v)).
Proof.
  split; [reflexivity|]. split; [reflexivity|]. split; [discriminate|].
  split; [reflexivity|]. split; [reflexivity|]. split; [reflexivity|].
  split; [reflexivity|]. split; [reflexivity|]. split; [reflexivity|].
  split; [reflexivity|].
  intros H.
  specialize (H implementsM (doGreenRun implementsM 99) (reflect.NewElem mapM)
                (mkContext greenRunnerM 1) eq_refl).
  apply (f_equal (fun x => match x with
                           | Ok (v, _) => reflect.IsNil v
                           | _ => false
                           end)) in H.
  vm_compute in H. discriminate H.
Qed.

(* ================================================================= *)
(** ** The nil chance *)

Lemma fillElemsLoop_length (rec : step) (et : reflect.type) (a ro : bool)
  (elems l : list reflect.Val) (fc fc' : greenrunerContext) :
  fillElemsLoop rec et a ro elems fc = Ok (l, fc') -> length l = length elems.
Proof.
  revert l fc fc'. induction elems as [|x rest IH]; intros l fc fc';
    cbn [fillElemsLoop].
  - intros H; inversion H; reflexivity.
  - destruct (rec _ _ _) as [[e fc1]| |]; try discriminate.
    destruct (fillElemsLoop _ _ _ _ _ _) as [[rest' fc2]| |] eqn:E;
      try discriminate.
    intros H; inversion H; subst. cbn. f_equal. eapply IH. eassumption.
Qed.

(** When the draw of [genShouldFill] exceeds the nil chance, a pointer, a
    map and a slice are generated non-nil, and with [NumElements(1, 1)] a
    map and a slice hold one entry. *)
Lemma structural_filled (rec : step) (t : reflect.type) (x : reflect.Val)
  (a ro : bool) (fc fc' : greenrunerContext) (v' : reflect.Value) :
  fst (genShouldFill (greenruner fc)) = true ->
  minElements (greenruner fc) = 1 ->
  maxElements (greenruner fc) = 1 ->
  structural rec (reflect.MkValue t x a ro) fc = Ok (v', fc') ->
  match reflect.Kind_of t with
  | reflect.Ptr => exists y, v' = reflect.MkValue t (reflect.VPtr (Some y)) a ro
  | reflect.Map =>
      exists k e, v' = reflect.MkValue t (reflect.VMap (Some [(k, e)])) a ro
  | reflect.Slice =>
      exists e, v' = reflect.MkValue t (reflect.VSlice (Some [e])) a ro
  | _ => True
  end.
Proof.
  intros Hfill Hmin Hmax. unfold structural.
  destruct (reflect.Kind_of t) eqn:Ek; try exact (fun _ => I); cbn [fillFuncMap].
  - (* Map *)
    destruct (genShouldFill (greenruner fc)) as [fill f1] eqn:Eg.
    cbn [fst] in Hfill. subst fill.
    assert (Hf1 : minElements f1 = maxElements f1 /\ minElements f1 = 1).
    { destruct (genShouldFill_with_r (greenruner fc)) as [H _].
      rewrite Eg in H. cbn [snd] in H. rewrite H. cbn. lia. }
    destruct Hf1 as [Heq H1].
    rewrite (genElementCount_fixed f1 Heq). rewrite H1.
    change (Z.to_nat 1) with 1%nat. cbn [fillMapLoop].
    destruct (rec _ _ _) as [[key fc1]| |]; try discriminate.
    destruct (rec _ _ _) as [[val fc2]| |]; try discriminate.
    cbn [SetMapIndex]. intros H; inversion H; subst. eexists _, _. reflexivity.
  - (* Ptr *)
    destruct (genShouldFill (greenruner fc)) as [fill f1] eqn:Eg.
    cbn [fst] in Hfill. subst fill.
    destruct (rec _ _ _) as [[e fc1]| |]; try discriminate.
    intros H; inversion H; subst. eexists. reflexivity.
  - (* Slice *)
    destruct (genShouldFill (greenruner fc)) as [fill f1] eqn:Eg.
    cbn [fst] in Hfill. subst fill.
    assert (Hf1 : minElements f1 = maxElements f1 /\ minElements f1 = 1).
    { destruct (genShouldFill_with_r (greenruner fc)) as [H _].
      rewrite Eg in H. cbn [snd] in H. rewrite H. cbn. lia. }
    destruct Hf1 as [Heq H1].
    rewrite (genElementCount_fixed f1 Heq). rewrite H1.
    change (1 <? 0) with false. cbv iota.
    change (Z.to_nat 1) with 1%nat. cbn [repeat].
    destruct (fillElemsLoop _ _ _ _ _ _) as [[l fc1]| |] eqn:El;
      try discriminate.
    apply fillElemsLoop_length in El. cbn in El.
    destruct l as [|e [|e' l]]; try discriminate El.
    intros H; inversion H; subst. eexists. reflexivity.
Qed.

(** With the nil chance 0 the test of [genShouldFill] is [Float64() > 0]:
    it fails on the draw [0.0]. *)
Lemma genShouldFill_zero_draw (f : GreenRunner) :
  nilChance f = 0%float ->
  rand.source (r f) (rand.drawn (r f)) = 0 ->
  fst (genShouldFill f) = false.
Proof.
  intros Hn Hs. unfold genShouldFill, rand.Float64, rand.Int63.
  rewrite Hn, Hs. reflexivity.
Qed.

(** C2.  [NewWithSeed(..).NilChance(0).NumElements(1, 1)] with a source
    whose outputs are 0: [Float64()] returns [0.0], the test
    [0.0 > nilChance] fails, and [GreenRun] leaves the pointer, the map
    and the slice of [struct { P *int; M map[int]int; S []int }] nil, after
    one draw for each.  With a source that never makes [Float64()] return
    [0.0] the three fields are filled, one entry each. *)
Theorem nil_chance_zero_leaves_nil :
  exists g1 g2,
    NilChance exGreenRunner 0%float = Ok g1
    /\ NumElements g1 1 1 = Ok g2
    /\ observe (GreenRun noMethods (RandSource g2 zeroSource)
                  (ptrTo PMS (reflect.ZeroVal PMS)))
       = Ok (Some (reflect.VPtr
                     (Some (reflect.VStruct
                              [reflect.VPtr None; reflect.VMap None;
                               reflect.VSlice None]))),
             3%nat)
    /\ observe (GreenRun noMethods (RandSource g2 countSource)
                  (ptrTo PMS (reflect.ZeroVal PMS)))
       = Ok (Some (reflect.VPtr
                     (Some (reflect.VStruct
                              [reflect.VPtr (Some (reflect.VInt 4398046512640));
                               reflect.VMap
                                 (Some [(reflect.VInt 10995116280832,
                                         reflect.VInt 15393162792960)]);
                               reflect.VSlice
                                 (Some [reflect.VInt 21990232561152])]))),
             11%nat).
Proof.
  eexists _, _. split; [reflexivity|]. split; [reflexivity|].
  split; vm_compute; reflexivity.
Qed.

(* ================================================================= *)
(** ** Fuel *)

(** Above the remaining depth budget the fuel does not matter: the step is
    a function of the slot, the flags and the context alone. *)
Lemma doGreenRun_fuel_irrelevant
  (implements : reflect.type -> option greenrunFunc) (n m : nat)
  (v : reflect.Value) (flags : Z) (fc : greenrunerContext) :
  maxDepth (greenruner fc) - curDepth fc <= Z.of_nat n ->
  maxDepth (greenruner fc) - curDepth fc <= Z.of_nat m ->
  doGreenRun implements n v flags fc = doGreenRun implements m v flags fc.
Proof.
  revert m v flags fc. induction n as [|n IH]; intros m v flags fc Hn Hm.
  - rewrite !doGreenRun_at_ceiling by lia. reflexivity.
  - destruct (Z_le_gt_dec (maxDepth (greenruner fc)) (curDepth fc)) as [Hc|Hc].
    { rewrite !doGreenRun_at_ceiling by lia. reflexivity. }
    destruct m as [|m]; [lia|].
    cbn [doGreenRun].
    destruct (curDepth fc >=? maxDepth (greenruner fc)); [reflexivity|].
    f_equal.
    apply doGreenRunBody_ext
      with (Q := at_depth (curDepth fc + 1) (maxDepth (greenruner fc)))
           (F := fun _ => True).
    + intros a b. apply at_depth_evolves.
    + intros. apply doGreenRun_post_True.
    + intros v' fl fc' _ [H1 H2]. apply IH; rewrite H1, H2; lia.
    + exact I.
    + exact I.
    + split; reflexivity.
Qed.

(* ================================================================= *)
(** * Further properties of the generator *)

(* ================================================================= *)
(** ** What a call leaves alone *)

(** X1.  A call of [GreenRun] or [GreenRunNoCustom] that returns has drawn from
    the stream of the generator and changed nothing else of it: the two
    function tables, the nil chance, the element counts and the depth
    ceiling are the ones it was called with, and the stream is still the
    stream of the same source. *)
Theorem GreenRun_keeps_generator
  (implements : reflect.type -> option greenrunFunc) (f f' : GreenRunner)
  (obj obj' : reflect.iface) :
  GreenRun implements f obj = Ok (obj', f') \/
  GreenRunNoCustom implements f obj = Ok (obj', f') ->
  f' = with_r f (r f') /\ rand.source (r f') = rand.source (r f).
Proof.
  assert (H : forall flags,
             match greenrunWithContext implements f
                     (reflect.Elem (reflect.ValueOf obj)) flags with
             | Ok (_, g) => g = with_r f (r g) /\
                            rand.source (r g) = rand.source (r f)
             | _ => True
             end).
  { intros flags. unfold greenrunWithContext.
    destruct (doGreenRun _ _ _ _ _) as [[v' fc']| |] eqn:E; try exact I.
    apply doGreenRun_evolves in E. destruct E as (_ & E2 & E3).
    split; [exact E2|exact E3]. }
  unfold GreenRun, GreenRunNoCustom.
  destruct (negb _); [intros [E|E]; discriminate E|].
  intros [E|E].
  - specialize (H 0).
    destruct (greenrunWithContext _ _ _ _) as [[e g]| |]; try discriminate E.
    inversion E; subst. exact H.
  - specialize (H flagNoCustomGreenRun).
    destruct (greenrunWithContext _ _ _ _) as [[e g]| |]; try discriminate E.
    inversion E; subst. exact H.
Qed.

Lemma GreenRun_keeps_generator_witness :
  mkGreenRunner emptyFuncMap emptyFuncMap (rand.mkRand oneSource 11)
    0%float 1 1 100
  = with_r (mkGreenRunner emptyFuncMap emptyFuncMap (rand.mkRand oneSource O)
              0%float 1 1 100)
      (rand.mkRand oneSource 11)
  /\ oneSource = oneSource.
Proof.
  apply (GreenRun_keeps_generator noMethods
           (mkGreenRunner emptyFuncMap emptyFuncMap (rand.mkRand oneSource O)
              0%float 1 1 100)
           (mkGreenRunner emptyFuncMap emptyFuncMap (rand.mkRand oneSource 11)
              0%float 1 1 100)
           (ptrTo PMS (reflect.VStruct (struct_fields (reflect.ZeroVal PMS))))
           (ptrTo PMS
              (reflect.VStruct
                 [reflect.VPtr (Some (reflect.VInt 0));
                  reflect.VMap (Some [(reflect.VInt 0, reflect.VInt 0)]);
                  reflect.VSlice (Some [reflect.VInt 0])]))).
  left. vm_compute. reflexivity.
Defined.

(** X2.  [tryCustom] returns false only where it has changed nothing: the slot
    and the context come back as they were, no draw made and no function
    called. *)
Theorem tryCustom_false_no_effect
  (implements : reflect.type -> option greenrunFunc) (rec : step)
  (v v' : reflect.Value) (fc fc' : greenrunerContext) :
  tryCustom implements rec v fc = Ok (false, v', fc') -> v' = v /\ fc' = fc.
Proof.
  unfold tryCustom. destruct v as [|t x a ro]; [discriminate|].
  destruct (findCustom _ _ _) as [fn|recv m|].
  - destruct (allocTarget _) as [v1|].
    + unfold rbind. destruct (Call _ _ _ _) as [[v2 fc2]| |]; discriminate.
    + intros H; inversion H; subst. split; reflexivity.
  - unfold rbind. destruct (runProg _ _ _) as [[out fc2]| |]; discriminate.
  - intros H; inversion H; subst. split; reflexivity.
Qed.

Lemma tryCustom_false_no_effect_witness :
  reflect.NewElem intT = reflect.NewElem intT /\
  mkContext exGreenRunner 0 = mkContext exGreenRunner 0.
Proof.
  apply (tryCustom_false_no_effect noMethods (doGreenRun noMethods 0)
           (reflect.NewElem intT) (reflect.NewElem intT)
           (mkContext exGreenRunner 0) (mkContext exGreenRunner 0)).
  reflexivity.
Defined.

Lemma dec_inc_depth (fc : greenrunerContext) : decDepth (incDepth fc) = fc.
Proof.
  destruct fc as [g d]. unfold decDepth, incDepth. cbn [greenruner curDepth].
  f_equal. lia.
Qed.

(** A slot that cannot be set, such as an unexported field or the target
    behind a nil pointer, is returned as it is, with the context as it
    was. *)
Lemma doGreenRun_unsettable (implements : reflect.type -> option greenrunFunc)
  (fuel : nat) (v : reflect.Value) (flags : Z) (fc : greenrunerContext) :
  reflect.CanSet v = false ->
  maxDepth (greenruner fc) - curDepth fc <= Z.of_nat fuel ->
  doGreenRun implements fuel v flags fc = Ok (v, fc).
Proof.
  intros Hs Hf. destruct fuel as [|n]; cbn [doGreenRun];
    destruct (curDepth fc >=? maxDepth (greenruner fc)) eqn:E;
    try reflexivity.
  - rewrite Z.geb_leb in E. apply Z.leb_gt in E. lia.
  - unfold doGreenRunBody. rewrite Hs. cbn [negb deferDec].
    rewrite dec_inc_depth. reflexivity.
Qed.

(** X3.  [GreenRun] and [GreenRunNoCustom] on a nil pointer: no panic, no draw,
    nothing generated. *)
Theorem GreenRun_nil_pointer (implements : reflect.type -> option greenrunFunc)
  (f : GreenRunner) (t : reflect.type) :
  GreenRun implements f (Some (reflect.PtrTo t, reflect.VPtr None))
  = Ok (Some (reflect.PtrTo t, reflect.VPtr None), f)
  /\ GreenRunNoCustom implements f (Some (reflect.PtrTo t, reflect.VPtr None))
     = Ok (Some (reflect.PtrTo t, reflect.VPtr None), f).
Proof.
  unfold GreenRun, GreenRunNoCustom, greenrunWithContext.
  cbn [reflect.ValueOf reflect.Kind_ reflect.Kind_of reflect.Elem].
  change (negb (reflect.Kind_eqb reflect.Ptr reflect.Ptr)) with false.
  cbv iota.
  rewrite !doGreenRun_unsettable by (try reflexivity; cbn; lia).
  split; reflexivity.
Qed.

(* ================================================================= *)
(** ** Struct fields *)

Lemma fillFieldsLoop_noop (rec : step) (a ro : bool)
  (fts : list (string * bool * reflect.type)) (vals : list reflect.Val)
  (fc : greenrunerContext) :
  (forall v, rec v 0 fc = Ok (v, fc)) ->
  fillFieldsLoop rec a ro fts vals fc = Ok (vals, fc).
Proof.
  intros Hrec. revert vals. induction fts as [|[[nm ex] ft] fts IH];
    intros vals; cbn [fillFieldsLoop]; [reflexivity|].
  destruct vals as [|x rest]; [reflexivity|].
  rewrite Hrec, IH. reflexivity.
Qed.

(** X4.  With [MaxDepth(1)] the fields of a struct are already at the ceiling:
    [GreenRunNoCustom] on a struct returns it untouched, without a draw
    and without a panic, whatever the kinds of its fields. *)
Theorem MaxDepth_one_struct_untouched
  (implements : reflect.type -> option greenrunFunc) (f : GreenRunner)
  (t : reflect.type) (vals : list reflect.Val) :
  reflect.Kind_of t = reflect.Struct ->
  GreenRunNoCustom implements (MaxDepth f 1) (ptrTo t (reflect.VStruct vals))
  = Ok (ptrTo t (reflect.VStruct vals), MaxDepth f 1).
Proof.
  intros Hk. unfold GreenRunNoCustom, ptrTo, greenrunWithContext.
  cbn [reflect.ValueOf reflect.Kind_ reflect.Kind_of reflect.Elem].
  change (negb (reflect.Kind_eqb reflect.Ptr reflect.Ptr)) with false.
  cbv iota. cbn [MaxDepth maxDepth]. change (Z.to_nat 1) with 1%nat.
  cbn [doGreenRun curDepth greenruner maxDepth].
  change (0 >=? 1) with false. cbv iota.
  rewrite doGreenRunBody_flagged. cbn [reflect.CanSet andb negb].
  change (reflect.Elem_type (reflect.PtrTo t)) with t.
  unfold structural. rewrite Hk. cbn [fillFuncMap struct_fields].
  rewrite fillFieldsLoop_noop.
  - cbn [deferDec]. rewrite dec_inc_depth. reflexivity.
  - intros v. reflexivity.
Qed.

Lemma MaxDepth_one_struct_untouched_witness :
  GreenRunNoCustom noMethods (MaxDepth exGreenRunner 1)
    (ptrTo (reflect.StructOf [("C", true, reflect.ChanOf intT)])
       (reflect.VStruct [reflect.VChan]))
  = Ok (ptrTo (reflect.StructOf [("C", true, reflect.ChanOf intT)])
          (reflect.VStruct [reflect.VChan]),
        MaxDepth exGreenRunner 1).
Proof.
  apply (MaxDepth_one_struct_untouched noMethods exGreenRunner
           (reflect.StructOf [("C", true, reflect.ChanOf intT)])
           [reflect.VChan]).
  reflexivity.
Defined.

Section Unexported.

Variable rec : step.
Variables d M : Z.

Hypothesis rec_post :
  forall v fl fc, at_depth d M fc -> post True fc (rec v fl fc).
Hypothesis rec_unsettable :
  forall v fl fc,
    at_depth d M fc -> reflect.CanSet v = false -> rec v fl fc = Ok (v, fc).

Lemma fillFieldsLoop_unexported (a ro : bool)
  (fts : list (string * bool * reflect.type)) (vals l : list reflect.Val)
  (fc fc' : greenrunerContext) :
  at_depth d M fc ->
  fillFieldsLoop rec a ro fts vals fc = Ok (l, fc') ->
  length l = length vals /\
  forall i nm ft x,
    nth_error fts i = Some (nm, false, ft) ->
    nth_error vals i = Some x ->
    nth_error l i = Some x.
Proof.
  revert vals l fc fc'. induction fts as [|[[nm ex] ft] fts IH];
    intros vals l fc fc' Hd; cbn [fillFieldsLoop].
  - intros H; inversion H; subst. split; [reflexivity|].
    intros i nm ft x Hn. destruct i; discriminate Hn.
  - destruct vals as [|x rest].
    { intros H; inversion H; subst. split; [reflexivity|].
      intros i nm' ft' y _ Hn. destruct i; discriminate Hn. }
    pose proof (rec_post (reflect.MkValue ft x a (ro || negb ex)) 0 fc Hd) as P.
    destruct (rec _ _ _) as [[e fc1]| |] eqn:Er; try discriminate.
    cbn [post] in P.
    destruct (fillFieldsLoop rec a ro fts rest fc1) as [[rest' fc2]| |] eqn:El;
      try discriminate.
    intros H; inversion H; subst.
    destruct (IH rest rest' fc1 fc' (at_depth_evolves _ _ _ _ Hd P) El)
      as [Hlen Hnth].
    split; [cbn; congruence|].
    intros i nm' ft' y Hf Hv. destruct i as [|i].
    + cbn in Hf, Hv |- *. inversion Hf; subst. inversion Hv; subst.
      rewrite rec_unsettable in Er.
      * inversion Er; subst. reflexivity.
      * exact Hd.
      * cbn. rewrite orb_true_r. apply andb_false_r.
    + cbn in Hf, Hv |- *. eapply Hnth; eassumption.
Qed.

End Unexported.

(** X5.  Unexported fields are never written: when [GreenRunNoCustom] on a
    struct returns, the struct has as many fields as before and every
    unexported field holds the value it held. *)
Theorem unexported_fields_untouched
  (implements : reflect.type -> option greenrunFunc) (f f' : GreenRunner)
  (t : reflect.type) (vals : list reflect.Val) (obj' : reflect.iface) :
  reflect.Kind_of t = reflect.Struct ->
  GreenRunNoCustom implements f (ptrTo t (reflect.VStruct vals)) = Ok (obj', f') ->
  exists l,
    obj' = ptrTo t (reflect.VStruct l) /\
    length l = length vals /\
    forall i nm ft x,
      nth_error (reflect.Fields t) i = Some (nm, false, ft) ->
      nth_error vals i = Some x ->
      nth_error l i = Some x.
Proof.
  intros Hk. unfold GreenRunNoCustom, ptrTo, greenrunWithContext.
  cbn [reflect.ValueOf reflect.Kind_ reflect.Kind_of reflect.Elem].
  change (negb (reflect.Kind_eqb reflect.Ptr reflect.Ptr)) with false.
  cbv iota. change (reflect.Elem_type (reflect.PtrTo t)) with t.
  destruct (Z_le_gt_dec (maxDepth f) 0) as [Hc|Hc].
  { rewrite doGreenRun_at_ceiling by (cbn; lia).
    cbn [storeElem]. intros H; inversion H; subst.
    exists vals. split; [reflexivity|]. split; [reflexivity|]. auto. }
  destruct (Z.to_nat (maxDepth f)) as [|k] eqn:Ef; [lia|].
  cbn [doGreenRun curDepth greenruner].
  destruct (0 >=? maxDepth f) eqn:E.
  { rewrite Z.geb_leb in E. apply Z.leb_le in E. lia. }
  rewrite doGreenRunBody_flagged. cbn [reflect.CanSet andb negb].
  unfold structural. rewrite Hk. cbn [fillFuncMap struct_fields].
  destruct (fillFieldsLoop _ _ _ _ _ _) as [[l fc1]| |] eqn:El;
    try discriminate.
  cbn [deferDec storeElem]. intros H; inversion H; subst. clear H.
  exists l. split; [reflexivity|].
  eapply (fillFieldsLoop_unexported (doGreenRun implements k) 1 (maxDepth f));
    [| | |exact El].
  - intros v fl fc _. apply doGreenRun_post_True.
  - intros v fl fc [H1 H2] Hs. apply doGreenRun_unsettable; [exact Hs|].
    rewrite H1, H2. lia.
  - split; reflexivity.
Qed.

Lemma unexported_fields_untouched_witness :
  exists l,
    ptrTo timeT (reflect.ZeroVal timeT) = ptrTo timeT (reflect.VStruct l) /\
    length l = 3%nat /\
    forall i nm ft x,
      nth_error (reflect.Fields timeT) i = Some (nm, false, ft) ->
      nth_error (struct_fields (reflect.ZeroVal timeT)) i = Some x ->
      nth_error l i = Some x.
Proof.
  apply (unexported_fields_untouched noMethods
           (plainGreenRunner halfSource) (plainGreenRunner halfSource)
           timeT (struct_fields (reflect.ZeroVal timeT))
           (ptrTo timeT (reflect.ZeroVal timeT))).
  - reflexivity.
  - vm_compute. reflexivity.
Defined.

(* ================================================================= *)
(** ** Slices, maps and arrays *)

Lemma ZeroVal_nil (t : reflect.type) :
  match reflect.Kind_of t with
  | reflect.Slice => reflect.ZeroVal t = reflect.VSlice None
  | reflect.Map => reflect.ZeroVal t = reflect.VMap None
  | reflect.Ptr => reflect.ZeroVal t = reflect.VPtr None
  | _ => True
  end.
Proof.
  induction t; cbn; try exact I; try reflexivity; try assumption.
  destruct b; exact I.
Qed.

Lemma genShouldFill_config (f : GreenRunner) :
  minElements (snd (genShouldFill f)) = minElements f /\
  maxElements (snd (genShouldFill f)) = maxElements f.
Proof.
  destruct (genShouldFill_with_r f) as [H _]. rewrite H. split; reflexivity.
Qed.

(** A run on a pointer to [x], flagged, is the structural generation of
    the pointee one level down. *)
Lemma GreenRunNoCustom_structural
  (implements : reflect.type -> option greenrunFunc) (f f' : GreenRunner)
  (t : reflect.type) (x : reflect.Val) (obj' : reflect.iface) :
  0 < maxDepth f ->
  GreenRunNoCustom implements f (ptrTo t x) = Ok (obj', f') ->
  exists k v' fc',
    structural (doGreenRun implements k) (reflect.MkValue t x true false)
      (incDepth (mkContext f 0)) = Ok (v', fc') /\
    obj' = ptrTo t (reflect.val_of v' x).
Proof.
  intros Hd. unfold GreenRunNoCustom, ptrTo, greenrunWithContext.
  cbn [reflect.ValueOf reflect.Kind_ reflect.Kind_of reflect.Elem].
  change (negb (reflect.Kind_eqb reflect.Ptr reflect.Ptr)) with false.
  cbv iota. change (reflect.Elem_type (reflect.PtrTo t)) with t.
  destruct (Z.to_nat (maxDepth f)) as [|k] eqn:Ef; [lia|].
  cbn [doGreenRun curDepth greenruner].
  destruct (0 >=? maxDepth f) eqn:E.
  { rewrite Z.geb_leb in E. apply Z.leb_le in E. lia. }
  rewrite doGreenRunBody_flagged. cbn [reflect.CanSet andb negb].
  destruct (structural _ _ _) as [[v' fc1]| |] eqn:Es; try discriminate.
  cbn [deferDec]. intros H; inversion H; subst. clear H.
  exists k, v', fc1. split; [exact Es|].
  destruct v' as [|t' y a' ro']; reflexivity.
Qed.

Lemma structural_slice (rec : step) (t : reflect.type) (x : reflect.Val)
  (a ro : bool) (fc fc' : greenrunerContext) (v' : reflect.Value) :
  reflect.Kind_of t = reflect.Slice ->
  0 <= minElements (greenruner fc) <= maxElements (greenruner fc) ->
  maxElements (greenruner fc) <= MaxInt64 ->
  maxElements (greenruner fc) - minElements (greenruner fc) < MaxInt64 ->
  structural rec (reflect.MkValue t x a ro) fc = Ok (v', fc') ->
  v' = reflect.MkValue t (reflect.VSlice None) a ro \/
  exists l,
    v' = reflect.MkValue t (reflect.VSlice (Some l)) a ro /\
    minElements (greenruner fc) <= Z.of_nat (length l)
      <= maxElements (greenruner fc).
Proof.
  intros Hk Hr Hmax Hov. unfold structural.
  pose proof (ZeroVal_nil t) as Hz. rewrite Hk in Hz |- *. cbn [fillFuncMap].
  pose proof (genShouldFill_config (greenruner fc)) as [Hmin' Hmax'].
  destruct (genShouldFill (greenruner fc)) as [fill f1].
  cbn [snd] in Hmin', Hmax'. destruct fill.
  - destruct (genElementCount_in_range f1) as (n & f2 & En & Hn);
      [lia|lia|lia|].
    rewrite En. destruct (n <? 0) eqn:E0; [apply Z.ltb_lt in E0; lia|].
    destruct (fillElemsLoop _ _ _ _ _ _) as [[l fc3]| |] eqn:El;
      try discriminate.
    intros H; inversion H; subst. right. exists l. split; [reflexivity|].
    apply fillElemsLoop_length in El. rewrite El, repeat_length.
    rewrite Z2Nat.id; lia.
  - cbn [reflect.Set_]. rewrite Hz. intros H; inversion H; subst.
    left. reflexivity.
Qed.

(** X6.  A slice generated by [GreenRunNoCustom] is nil or has a length within
    the bounds of [NumElements], whatever its element type and whatever
    custom functions fill the elements. *)
Theorem slice_length_in_bounds
  (implements : reflect.type -> option greenrunFunc) (f f' : GreenRunner)
  (t : reflect.type) (x : reflect.Val) (obj' : reflect.iface) :
  reflect.Kind_of t = reflect.Slice ->
  0 <= minElements f <= maxElements f ->
  maxElements f <= MaxInt64 ->
  maxElements f - minElements f < MaxInt64 ->
  0 < maxDepth f ->
  GreenRunNoCustom implements f (ptrTo t x) = Ok (obj', f') ->
  obj' = ptrTo t (reflect.VSlice None) \/
  exists l,
    obj' = ptrTo t (reflect.VSlice (Some l)) /\
    minElements f <= Z.of_nat (length l) <= maxElements f.
Proof.
  intros Hk Hr Hmax Hov Hd Hrun.
  destruct (GreenRunNoCustom_structural _ _ _ _ _ _ Hd Hrun)
    as (k & v' & fc' & Hs & Hobj).
  apply structural_slice in Hs; try assumption.
  destruct Hs as [Hv|(l & Hv & Hl)]; subst v' obj'.
  - left. reflexivity.
  - right. exists l. split; [reflexivity|exact Hl].
Qed.

Lemma slice_length_in_bounds_witness :
  ptrTo (reflect.SliceOf intT)
    (reflect.VSlice (Some (repeat (reflect.VInt 9007199256838144) 7)))
  = ptrTo (reflect.SliceOf intT) (reflect.VSlice None) \/
  exists l,
    ptrTo (reflect.SliceOf intT)
      (reflect.VSlice (Some (repeat (reflect.VInt 9007199256838144) 7)))
    = ptrTo (reflect.SliceOf intT) (reflect.VSlice (Some l)) /\
    1 <= Z.of_nat (length l) <= 10.
Proof.
  apply (slice_length_in_bounds noMethods
           (plainGreenRunner halfSource)
           (with_r (plainGreenRunner halfSource)
              (rand.mkRand halfSource 16))
           (reflect.SliceOf intT) (reflect.VSlice None)).
  - reflexivity.
  - cbn. lia.
  - vm_compute. discriminate.
  - vm_compute. reflexivity.
  - cbn. lia.
  - vm_compute. reflexivity.
Defined.

Lemma SetMapIndex_length (m : list (reflect.Val * reflect.Val))
  (key val : reflect.Val) :
  (length m <= length (SetMapIndex m key val) <= S (length m))%nat /\
  (1 <= length (SetMapIndex m key val))%nat.
Proof.
  induction m as [|[k x] rest IH]; cbn [SetMapIndex].
  - cbn. lia.
  - destruct (go_eqb k key); cbn [length]; lia.
Qed.

Lemma fillMapLoop_size (rec : step) (kt et : reflect.type) (n : nat)
  (m m' : list (reflect.Val * reflect.Val)) (fc fc' : greenrunerContext) :
  fillMapLoop rec kt et n m fc = Ok (m', fc') ->
  (length m <= length m' <= length m + n)%nat /\
  (0 < n -> 1 <= length m')%nat.
Proof.
  revert m fc. induction n as [|n IH]; intros m fc; cbn [fillMapLoop].
  - intros H; inversion H; subst. lia.
  - destruct (rec _ _ _) as [[key fc1]| |]; try discriminate.
    destruct (rec _ _ _) as [[val fc2]| |]; try discriminate.
    intros H. apply IH in H.
    pose proof (SetMapIndex_length m
                  (reflect.val_of key (reflect.ZeroVal kt))
                  (reflect.val_of val (reflect.ZeroVal et))) as L.
    lia.
Qed.

Lemma structural_map (rec : step) (t : reflect.type) (x : reflect.Val)
  (a ro : bool) (fc fc' : greenrunerContext) (v' : reflect.Value) :
  reflect.Kind_of t = reflect.Map ->
  0 <= minElements (greenruner fc) <= maxElements (greenruner fc) ->
  maxElements (greenruner fc) <= MaxInt64 ->
  maxElements (greenruner fc) - minElements (greenruner fc) < MaxInt64 ->
  structural rec (reflect.MkValue t x a ro) fc = Ok (v', fc') ->
  v' = reflect.MkValue t (reflect.VMap None) a ro \/
  exists m,
    v' = reflect.MkValue t (reflect.VMap (Some m)) a ro /\
    Z.of_nat (length m) <= maxElements (greenruner fc) /\
    (1 <= minElements (greenruner fc) -> 1 <= Z.of_nat (length m)).
Proof.
  intros Hk Hr Hmax Hov. unfold structural.
  pose proof (ZeroVal_nil t) as Hz. rewrite Hk in Hz |- *. cbn [fillFuncMap].
  pose proof (genShouldFill_config (greenruner fc)) as [Hmin' Hmax'].
  destruct (genShouldFill (greenruner fc)) as [fill f1].
  cbn [snd] in Hmin', Hmax'. destruct fill.
  - destruct (genElementCount_in_range f1) as (n & f2 & En & Hn);
      [lia|lia|lia|].
    rewrite En.
    destruct (fillMapLoop _ _ _ _ _ _) as [[m fc3]| |] eqn:El;
      try discriminate.
    intros H; inversion H; subst. right. exists m. split; [reflexivity|].
    apply fillMapLoop_size in El. cbn [length] in El. lia.
  - cbn [reflect.Set_]. rewrite Hz. intros H; inversion H; subst.
    left. reflexivity.
Qed.

(** X7.  A map generated by [GreenRunNoCustom] is nil or holds at most
    [maxElements] entries, and at least one when [minElements] is at least
    1: equal keys share an entry, so the drawn count is only an upper
    bound of the size. *)
Theorem map_size_in_bounds
  (implements : reflect.type -> option greenrunFunc) (f f' : GreenRunner)
  (t : reflect.type) (x : reflect.Val) (obj' : reflect.iface) :
  reflect.Kind_of t = reflect.Map ->
  0 <= minElements f <= maxElements f ->
  maxElements f <= MaxInt64 ->
  maxElements f - minElements f < MaxInt64 ->
  0 < maxDepth f ->
  GreenRunNoCustom implements f (ptrTo t x) = Ok (obj', f') ->
  obj' = ptrTo t (reflect.VMap None) \/
  exists m,
    obj' = ptrTo t (reflect.VMap (Some m)) /\
    Z.of_nat (length m) <= maxElements f /\
    (1 <= minElements f -> 1 <= Z.of_nat (length m)).
Proof.
  intros Hk Hr Hmax Hov Hd Hrun.
  destruct (GreenRunNoCustom_structural _ _ _ _ _ _ Hd Hrun)
    as (k & v' & fc' & Hs & Hobj).
  apply structural_map in Hs; try assumption.
  destruct Hs as [Hv|(m & Hv & Hm)]; subst v' obj'.
  - left. reflexivity.
  - right. exists m. split; [reflexivity|exact Hm].
Qed.

Lemma map_size_in_bounds_witness :
  ptrTo (reflect.MapOf intT intT)
    (reflect.VMap
       (Some [(reflect.VInt 9007199256838144, reflect.VInt 9007199256838144)]))
  = ptrTo (reflect.MapOf intT intT) (reflect.VMap None) \/
  exists m,
    ptrTo (reflect.MapOf intT intT)
      (reflect.VMap
         (Some [(reflect.VInt 9007199256838144,
                 reflect.VInt 9007199256838144)]))
    = ptrTo (reflect.MapOf intT intT) (reflect.VMap (Some m)) /\
    Z.of_nat (length m) <= 10 /\
    (1 <= 1 -> 1 <= Z.of_nat (length m)).
Proof.
  apply (map_size_in_bounds noMethods
           (plainGreenRunner halfSource)
           (with_r (plainGreenRunner halfSource) (rand.mkRand halfSource 30))
           (reflect.MapOf intT intT) (reflect.VMap None)).
  - reflexivity.
  - cbn. lia.
  - vm_compute. discriminate.
  - vm_compute. reflexivity.
  - cbn. lia.
  - vm_compute. reflexivity.
Defined.

Lemma ZeroVal_array (t : reflect.type) :
  reflect.Kind_of t = reflect.Array ->
  exists n e l,
    reflect.underlying t = reflect.ArrayOf n e /\
    reflect.ZeroVal t = reflect.VArray l /\ length l = n.
Proof.
  induction t; cbn [reflect.Kind_of]; try discriminate.
  - destruct b; discriminate.
  - intros _. exists len, t, (repeat (reflect.ZeroVal t) len).
    cbn. rewrite repeat_length. auto.
  - intros Hk. destruct (IHt Hk) as (n & e & l & Hu & Hz & Hl).
    exists n, (reflect.subst name (reflect.Named name t) e), l.
    cbn [reflect.underlying reflect.ZeroVal]. rewrite Hu. cbn. auto.
Qed.

(** X8.  An array keeps its length: [GreenRunNoCustom] fills its elements in
    place or resets it to the zero array, and never leaves anything but an
    array of the type's length. *)
Theorem array_keeps_length
  (implements : reflect.type -> option greenrunFunc) (f f' : GreenRunner)
  (t : reflect.type) (elems : list reflect.Val) (obj' : reflect.iface) :
  reflect.Kind_of t = reflect.Array ->
  length elems = reflect.Len_type t ->
  0 < maxDepth f ->
  GreenRunNoCustom implements f (ptrTo t (reflect.VArray elems)) = Ok (obj', f') ->
  exists l,
    obj' = ptrTo t (reflect.VArray l) /\ length l = reflect.Len_type t.
Proof.
  intros Hk Hlen Hd Hrun.
  destruct (GreenRunNoCustom_structural _ _ _ _ _ _ Hd Hrun)
    as (k & v' & fc' & Hs & Hobj).
  destruct (ZeroVal_array t Hk) as (n & e & z & Hu & Hz & Hn).
  assert (HL : reflect.Len_type t = n) by (unfold reflect.Len_type; rewrite Hu; reflexivity).
  revert Hs. unfold structural. rewrite Hk. cbn [fillFuncMap].
  destruct (genShouldFill _) as [fill f1]. destruct fill.
  - cbn [array_elems].
    destruct (fillElemsLoop _ _ _ _ _ _) as [[l fc2]| |] eqn:El;
      try discriminate.
    intros H; inversion H; subst v' fc'. subst obj'.
    exists l. split; [reflexivity|].
    apply fillElemsLoop_length in El. congruence.
  - cbn [reflect.Set_]. rewrite Hz. intros H; inversion H; subst v' fc'.
    subst obj'. exists z. split; [reflexivity|]. congruence.
Qed.

Lemma array_keeps_length_witness :
  exists l,
    ptrTo (reflect.ArrayOf 3 intT)
      (reflect.VArray (repeat (reflect.VInt 9007199256838144) 3))
    = ptrTo (reflect.ArrayOf 3 intT) (reflect.VArray l) /\
    length l = 3%nat.
Proof.
  apply (array_keeps_length noMethods
           (plainGreenRunner halfSource)
           (with_r (plainGreenRunner halfSource) (rand.mkRand halfSource 7))
           (reflect.ArrayOf 3 intT) (repeat (reflect.VInt 0) 3)).
  - reflexivity.
  - reflexivity.
  - cbn. lia.
  - vm_compute. reflexivity.
Defined.

(* ================================================================= *)
(** ** Termination *)

(** X9.  Every run ends: the depth ceiling bounds the nesting of the steps, so
    [GreenRun] and [GreenRunNoCustom] return or panic on every target,
    recursive types and re-entering custom functions included, and a step
    started at depth 0 needs no more than [maxDepth] nested levels. *)
Theorem GreenRun_terminates
  (implements : reflect.type -> option greenrunFunc) (f : GreenRunner)
  (obj : reflect.iface) :
  GreenRun implements f obj <> OutOfFuel /\
  GreenRunNoCustom implements f obj <> OutOfFuel /\
  forall (n : nat) (v : reflect.Value) (flags : Z),
    doGreenRun implements (Z.to_nat (maxDepth f) + n) v flags (mkContext f 0)
    = doGreenRun implements (Z.to_nat (maxDepth f)) v flags (mkContext f 0).
Proof.
  split; [|split].
  - unfold GreenRun. destruct (negb _); [discriminate|].
    pose proof (greenrunWithContext_fuel implements f
                  (reflect.Elem (reflect.ValueOf obj)) 0) as H.
    destruct (greenrunWithContext _ _ _ _) as [[e f']| |];
      try discriminate. congruence.
  - unfold GreenRunNoCustom. destruct (negb _); [discriminate|].
    pose proof (greenrunWithContext_fuel implements f
                  (reflect.Elem (reflect.ValueOf obj)) flagNoCustomGreenRun) as H.
    destruct (greenrunWithContext _ _ _ _) as [[e f']| |];
      try discriminate. congruence.
  - intros n v flags. apply doGreenRun_fuel_irrelevant; cbn; lia.
Qed.

(* ================================================================= *)
(** ** The primitive generators *)

Lemma wrapS_range (b z : Z) :
  0 < b -> - 2 ^ (b - 1) <= wrapS b z < 2 ^ (b - 1).
Proof.
  intros Hb. unfold wrapS, wrapU.
  assert (E : 2 ^ b = 2 * 2 ^ (b - 1)).
  { rewrite <- Z.pow_succ_r by lia. f_equal. lia. }
  assert (P : 0 < 2 ^ (b - 1)) by (apply Z.pow_pos_nonneg; lia).
  pose proof (Z.mod_pos_bound z (2 ^ b)) as M.
  destruct (_ <? _) eqn:L; [apply Z.ltb_lt in L|apply Z.ltb_ge in L]; lia.
Qed.

Lemma wrapU_range (b z : Z) : 0 <= b -> 0 <= wrapU b z < 2 ^ b.
Proof.
  intros Hb. unfold wrapU. apply Z.mod_pos_bound.
  apply Z.pow_pos_nonneg; lia.
Qed.

Lemma lor_high_low (hi lo : Z) :
  0 <= lo < 2 ^ 32 -> Z.lor (hi * 2 ^ 32) lo = hi * 2 ^ 32 + lo.
Proof.
  intros Hlo. rewrite <- Z.shiftl_mul_pow2 by lia.
  assert (L : Z.land (Z.shiftl hi 32) lo = 0).
  { apply Z.bits_inj'. intros n Hn. rewrite Z.land_spec, Z.bits_0.
    destruct (Z_lt_le_dec n 32) as [Hlt|Hge].
    - rewrite Z.shiftl_spec_low by lia. reflexivity.
    - rewrite <- (Z.mod_small lo (2 ^ 32)) by lia.
      rewrite Z.mod_pow2_bits_high by lia. apply andb_false_r. }
  rewrite Z.add_nocarry_lxor by exact L. symmetry. apply Z.lxor_lor. exact L.
Qed.

Lemma Uint32_value (rnd : rand.Rand) :
  fst (rand.Uint32 rnd) = (rand.source rnd (rand.drawn rnd) mod 2 ^ 63) / 2 ^ 31
  /\ 0 <= fst (rand.Uint32 rnd) < 2 ^ 32
  /\ snd (rand.Uint32 rnd) = rand.mkRand (rand.source rnd) (S (rand.drawn rnd)).
Proof.
  unfold rand.Uint32, rand.Int63. cbn [fst snd].
  rewrite Z.shiftr_div_pow2 by lia.
  pose proof (Z.mod_pos_bound (rand.source rnd (rand.drawn rnd)) (2 ^ 63)) as M.
  split; [reflexivity|]. split; [|reflexivity]. split.
  - apply Z.div_pos; lia.
  - apply Z.div_lt_upper_bound; [lia|].
    change (2 ^ 31 * 2 ^ 32) with (2 ^ 63). lia.
Qed.

(** [randUint64] joins the high 32 bits of two successive draws. *)
Lemma randUint64_value (rnd : rand.Rand) :
  fst (randUint64 rnd)
  = (rand.source rnd (rand.drawn rnd) mod 2 ^ 63) / 2 ^ 31 * 2 ^ 32
    + (rand.source rnd (S (rand.drawn rnd)) mod 2 ^ 63) / 2 ^ 31
  /\ 0 <= fst (randUint64 rnd) < 2 ^ 64.
Proof.
  unfold randUint64.
  destruct (Uint32_value rnd) as (Eh & Hh & Er).
  destruct (rand.Uint32 rnd) as [hi r1]. cbn [fst snd] in Eh, Hh, Er.
  destruct (Uint32_value r1) as (El & Hl & _).
  destruct (rand.Uint32 r1) as [lo r2]. cbn [fst snd] in El, Hl |- *.
  rewrite Er in El. cbn [rand.source rand.drawn] in El.
  unfold wrapU. rewrite Z.shiftl_mul_pow2 by lia.
  assert (B : 0 <= hi * 2 ^ 32 + lo < 2 ^ 64).
  { change (2 ^ 64) with (2 ^ 32 * 2 ^ 32). nia. }
  rewrite (Z.mod_small (hi * 2 ^ 32)).
  - rewrite lor_high_low by exact Hl. split; [congruence|exact B].
  - change (2 ^ 64) with (2 ^ 32 * 2 ^ 32) in *. nia.
Qed.

(** X10.  [randUint64] gives all 64 bits: its result is below [2^64], and every
    value below [2^64] is its result on some stream. *)
Theorem randUint64_all_bits (rnd : rand.Rand) (u : Z) :
  0 <= u < 2 ^ 64 ->
  0 <= fst (randUint64 rnd) < 2 ^ 64 /\
  exists src, fst (randUint64 (rand.mkRand src (rand.drawn rnd))) = u.
Proof.
  intros Hu. split; [apply randUint64_value|].
  exists (fun i => if Nat.eqb i (rand.drawn rnd)
                   then u / 2 ^ 32 * 2 ^ 31 else u mod 2 ^ 32 * 2 ^ 31).
  destruct (randUint64_value
              (rand.mkRand
                 (fun i => if Nat.eqb i (rand.drawn rnd)
                           then u / 2 ^ 32 * 2 ^ 31 else u mod 2 ^ 32 * 2 ^ 31)
                 (rand.drawn rnd))) as [E _].
  rewrite E. cbn [rand.source rand.drawn].
  rewrite Nat.eqb_refl.
  replace (Nat.eqb (S (rand.drawn rnd)) (rand.drawn rnd)) with false
    by (symmetry; apply Nat.eqb_neq; lia).
  assert (Hq : 0 <= u / 2 ^ 32 < 2 ^ 32).
  { split; [apply Z.div_pos; lia|].
    apply Z.div_lt_upper_bound; [lia|].
    change (2 ^ 32 * 2 ^ 32) with (2 ^ 64). lia. }
  pose proof (Z.mod_pos_bound u (2 ^ 32)) as Hm.
  rewrite (Z.mod_small (u / 2 ^ 32 * 2 ^ 31) (2 ^ 63)),
    (Z.mod_small (u mod 2 ^ 32 * 2 ^ 31) (2 ^ 63)).
  - rewrite !Z.div_mul by lia. symmetry.
    rewrite (Z.mul_comm (u / 2 ^ 32)). apply Z.div_mod. lia.
  - change (2 ^ 63) with (2 ^ 32 * 2 ^ 31). nia.
  - change (2 ^ 63) with (2 ^ 32 * 2 ^ 31). nia.
Qed.

Lemma randUint64_all_bits_witness :
  0 <= fst (randUint64 (rand.mkRand zeroSource O)) < 2 ^ 64 /\
  exists src,
    fst (randUint64 (rand.mkRand src (rand.drawn (rand.mkRand zeroSource O))))
    = 2 ^ 64 - 1.
Proof.
  apply (randUint64_all_bits (rand.mkRand zeroSource O) (2 ^ 64 - 1)).
  vm_compute. split; [discriminate|reflexivity].
Defined.

Lemma randString_length (rnd : rand.Rand) :
  exists s r', randString rnd = Ok (s, r') /\ (length s < 20)%nat.
Proof.
  destruct (Intn_range 20 rnd) as (n & r1 & En & Hn); [lia|].
  unfold randString. rewrite En.
  destruct (randRunes_spec (Z.to_nat n) r1) as (s & r2 & Es & Hl & _).
  exists s, r2. split; [exact Es|lia].
Qed.

Lemma fillFuncMap_fits (t : reflect.type) (fn : fillFunc) (x : reflect.Val)
  (a ro : bool) (rnd : rand.Rand) :
  primitiveKind (reflect.Kind_of t) = true ->
  fillFuncMap (reflect.Kind_of t) = Some fn ->
  exists y r',
    fn (reflect.MkValue t x a ro) rnd = Ok (reflect.MkValue t y a ro, r') /\
    fits (reflect.Kind_of t) y.
Proof.
  intros Hp Hfn.
  destruct (reflect.Kind_of t) eqn:Ek; try discriminate Hp;
    cbn [fillFuncMap] in Hfn; inversion Hfn; subst fn; clear Hfn;
    cbn [fits Kind_bits];
    try (unfold greenrunInt; destruct (randUint64 rnd) as [u r'];
         cbn [reflect.Set_ reflect.Kind_]; rewrite Ek; cbn [Kind_bits];
         eexists _, _; split; [reflexivity|];
         eexists; split; [reflexivity|apply wrapS_range; lia]);
    try (unfold greenrunUint; destruct (randUint64 rnd) as [u r'];
         cbn [reflect.Set_ reflect.Kind_]; rewrite Ek; cbn [Kind_bits];
         eexists _, _; split; [reflexivity|];
         eexists; split; [reflexivity|apply wrapU_range; lia]).
  - destruct (randBool rnd) as [b r']. eexists _, _. split; [reflexivity|].
    eexists. reflexivity.
  - destruct (rand.Float32 rnd) as [y r']. eexists _, _.
    split; [reflexivity|]. eexists. reflexivity.
  - destruct (rand.Float64 rnd) as [y r']. eexists _, _.
    split; [reflexivity|]. eexists. reflexivity.
  - destruct (randString_length rnd) as (s & r' & Es & Hl). rewrite Es.
    eexists _, _. split; [reflexivity|]. eexists. split; [reflexivity|exact Hl].
Qed.

Lemma structural_fits (rec : step) (t : reflect.type) (x : reflect.Val)
  (a ro : bool) (fc : greenrunerContext) :
  primitiveKind (reflect.Kind_of t) = true ->
  exists y r',
    structural rec (reflect.MkValue t x a ro) fc
    = Ok (reflect.MkValue t y a ro, with_rand fc r') /\
    fits (reflect.Kind_of t) y /\
    rand.source r' = rand.source (r (greenruner fc)).
Proof.
  intros Hp. unfold structural.
  destruct (fillFuncMap (reflect.Kind_of t)) as [fn|] eqn:Efn.
  - destruct (fillFuncMap_fits t fn x a ro (r (greenruner fc)) Hp Efn)
      as (y & r' & E & Hfit).
    pose proof (fillFuncMap_source _ _ _ _ _ _ Efn E) as Hs.
    rewrite E. exists y, r'. split; [reflexivity|]. split; assumption.
  - exfalso. destruct (reflect.Kind_of t); discriminate.
Qed.

Lemma dec_with_rand_inc (fc : greenrunerContext) (r' : rand.Rand) :
  decDepth (with_rand (incDepth fc) r') = with_rand fc r'.
Proof.
  destruct fc as [g d]. unfold decDepth, with_rand, incDepth.
  cbn [greenruner curDepth]. f_equal. lia.
Qed.

(** X11.  [GreenRunNoCustom] on a pointer to a boolean, an integer, a float or
    a string never panics: the target gets a value of its kind and width
    (an [int8] in [-128, 127], a string of fewer than 20 runes), and the
    generator comes back with only its stream advanced. *)
Theorem GreenRunNoCustom_primitive
  (implements : reflect.type -> option greenrunFunc) (f : GreenRunner)
  (t : reflect.type) (x : reflect.Val) :
  primitiveKind (reflect.Kind_of t) = true ->
  0 < maxDepth f ->
  exists y r',
    GreenRunNoCustom implements f (ptrTo t x) = Ok (ptrTo t y, with_r f r') /\
    fits (reflect.Kind_of t) y /\
    rand.source r' = rand.source (r f).
Proof.
  intros Hp Hd. rewrite GreenRunNoCustom_unfold by exact Hd.
  destruct (structural_fits
              (doGreenRun implements (Nat.pred (Z.to_nat (maxDepth f))))
              t x true false (incDepth (mkContext f 0)) Hp)
    as (y & r' & E & Hfit & Hs).
  rewrite E. exists y, r'. split; [|split; assumption].
  rewrite dec_with_rand_inc. reflexivity.
Qed.

Lemma GreenRunNoCustom_primitive_witness :
  exists y r',
    GreenRunNoCustom noMethods (plainGreenRunner halfSource)
      (ptrTo (reflect.BasicT reflect.BInt8) (reflect.VInt 0))
    = Ok (ptrTo (reflect.BasicT reflect.BInt8) y,
          with_r (plainGreenRunner halfSource) r') /\
    fits reflect.Int8 y /\
    rand.source r' = halfSource.
Proof.
  apply (GreenRunNoCustom_primitive noMethods (plainGreenRunner halfSource)
           (reflect.BasicT reflect.BInt8) (reflect.VInt 0)).
  - reflexivity.
  - cbn. lia.
Defined.

(* ================================================================= *)
(** ** Registered functions *)

(** [GreenRun] on a target for whose pointer type the lookup finds a
    function is one call of that function on the pointer to the target. *)
Lemma GreenRun_registered
  (implements : reflect.type -> option greenrunFunc) (f : GreenRunner)
  (t : reflect.type) (x : reflect.Val) (fn : greenrunFunc) :
  findCustom implements f (reflect.Addr (reflect.MkValue t x true false))
  = UseFunc fn ->
  0 < maxDepth f ->
  GreenRun implements f (ptrTo t x)
  = match runProg
            (doGreenRun implements (Nat.pred (Z.to_nat (maxDepth f))))
            (fn (reflect.VPtr (Some x))) (incDepth (mkContext f 0)) with
    | Ok (out, fc') =>
        Ok (ptrTo t (pointee_after x out), greenruner (decDepth fc'))
    | Panic m => Panic m
    | OutOfFuel => OutOfFuel
    end.
Proof.
  intros Hfn Hd. unfold GreenRun, ptrTo, greenrunWithContext.
  cbn [reflect.ValueOf reflect.Kind_ reflect.Kind_of reflect.Elem].
  change (negb (reflect.Kind_eqb reflect.Ptr reflect.Ptr)) with false.
  cbv iota. change (reflect.Elem_type (reflect.PtrTo t)) with t.
  destruct (Z.to_nat (maxDepth f)) as [|k] eqn:Ef; [lia|].
  cbn [Nat.pred doGreenRun curDepth greenruner].
  destruct (0 >=? maxDepth f) eqn:E.
  { rewrite Z.geb_leb in E. apply Z.leb_le in E. lia. }
  unfold doGreenRunBody. cbn [reflect.CanSet reflect.CanAddr andb negb].
  change (Z.land 0 flagNoCustomGreenRun =? 0) with true. cbv iota.
  rewrite (tryCustom_Addr_func implements (doGreenRun implements k) t x
             true false (incDepth (mkContext f 0)) fn).
  2:{ cbn [incDepth greenruner]. exact Hfn. }
  cbn [reflect.Addr Call].
  destruct (runProg _ _ _) as [[out fc']| |]; cbn [rbind deferDec];
    [|reflexivity|reflexivity].
  unfold pointee_after.
  destruct (passByValue (reflect.VPtr (Some x)) out) as
    [| | | | | | | | | |[y|]| | | |]; reflexivity.
Qed.



(* ================================================================= *)
(** ** The default function for [time.Time] *)

Lemma findCustom_nothing (implements : reflect.type -> option greenrunFunc)
  (f : GreenRunner) (t : reflect.type) (x : reflect.Val) (a : bool) :
  reflect.Kind_of t <> reflect.Interface ->
  greenrunFuncs f t = None ->
  implements t = None ->
  defaultGreenRunFuncs f t = None ->
  findCustom implements f (reflect.MkValue t x a false) = NoCustom.
Proof.
  intros Hk H1 H2 H3. unfold findCustom. cbn [reflect.Type_].
  rewrite H1, H3. unfold selfGreenRun.
  cbn [reflect.CanInterface negb reflect.Interface_].
  destruct (reflect.Kind_of t) eqn:Ek; try congruence; rewrite H2;
    reflexivity.
Qed.

(** A step on a settable slot of a primitive kind for which the lookups
    find nothing. *)
Lemma doGreenRun_plain_primitive
  (implements : reflect.type -> option greenrunFunc) (k : nat)
  (t : reflect.type) (x : reflect.Val) (fc : greenrunerContext) :
  primitiveKind (reflect.Kind_of t) = true ->
  curDepth fc < maxDepth (greenruner fc) ->
  findCustom implements (greenruner fc)
    (reflect.Addr (reflect.MkValue t x true false)) = NoCustom ->
  findCustom implements (greenruner fc) (reflect.MkValue t x true false)
  = NoCustom ->
  exists y r',
    doGreenRun implements (S k) (reflect.MkValue t x true false) 0 fc
    = Ok (reflect.MkValue t y true false, with_rand fc r') /\
    fits (reflect.Kind_of t) y /\
    rand.source r' = rand.source (r (greenruner fc)).
Proof.
  intros Hp Hd Ha Hv. cbn [doGreenRun].
  destruct (curDepth fc >=? maxDepth (greenruner fc)) eqn:E.
  { rewrite Z.geb_leb in E. apply Z.leb_le in E. lia. }
  rewrite doGreenRunBody_miss by assumption.
  rewrite doGreenRunBody_flagged. cbn [reflect.CanSet andb negb].
  destruct (structural_fits (doGreenRun implements k) t x true false
              (incDepth fc) Hp) as (y & r' & Es & Hfit & Hs).
  rewrite Es. cbn [deferDec]. rewrite dec_with_rand_inc.
  exists y, r'. split; [reflexivity|]. split; assumption.
Qed.

(** X13.  The generator of [NewWithSeed] fills a [time.Time] through its
    default function, although every field of [time.Time] is unexported:
    whatever the seed and the time held before, the target is
    [time.Unix(sec, nsec)] with [sec] within 1000 years of the epoch and
    [nsec] any [int64]. *)
Theorem default_time_function
  (implements : reflect.type -> option greenrunFunc)
  (NewSource : Z -> nat -> Z) (seed : Z) (x : reflect.Val) :
  implements (reflect.PtrTo timeT) = None ->
  implements (reflect.PtrTo int64T) = None ->
  implements int64T = None ->
  exists sec nsec f',
    GreenRun implements (NewWithSeed NewSource seed) (ptrTo timeT x)
    = Ok (ptrTo timeT (time_Unix sec nsec), f') /\
    0 <= sec < 1000 * 365 * 24 * 60 * 60 /\
    is_int nsec.
Proof.
  intros Ht Hp Hi.
  assert (Ne1 : reflect.PtrTo int64T <> reflect.PtrTo timeT) by discriminate.
  assert (Ne2 : int64T <> reflect.PtrTo timeT) by discriminate.
  rewrite (GreenRun_registered implements (NewWithSeed NewSource seed)
             timeT x greenrunTime).
  2:{ rewrite findCustom_Addr. unfold selfGreenRun.
      cbn [NewWithSeed greenrunFuncs defaultGreenRunFuncs emptyFuncMap
           reflect.Addr reflect.CanInterface negb reflect.Interface_
           reflect.Kind_of].
      rewrite Ht, insertFunc_same. reflexivity. }
  2:{ cbn. lia. }
  change (Nat.pred (Z.to_nat (maxDepth (NewWithSeed NewSource seed))))
    with (S 98).
  unfold greenrunTime. cbn [runProg]. unfold rand.Int63 at 1. cbv iota.
  set (d := rand.source _ _ mod 2 ^ 63).
  set (fc2 := with_rand _ _).
  cbn [runProg]. unfold Continue_GreenRun.
  cbn [reflect.ValueOf reflect.Kind_ reflect.Kind_of reflect.Elem
       reflect.Basic_Kind].
  change (negb (reflect.Kind_eqb reflect.Ptr reflect.Ptr)) with false.
  cbv iota.
  change (reflect.Elem_type (reflect.PtrTo (reflect.BasicT reflect.BInt64)))
    with int64T.
  destruct (doGreenRun_plain_primitive implements 98 int64T (reflect.VInt 0) fc2)
    as (y & r' & E & Hfit & _).
  - reflexivity.
  - cbn. lia.
  - rewrite findCustom_Addr. unfold selfGreenRun.
    cbn [reflect.Addr reflect.CanInterface negb reflect.Interface_
         reflect.Kind_of].
    rewrite Hp. subst fc2.
    cbn [with_rand incDepth greenruner NewWithSeed with_r greenrunFuncs
         defaultGreenRunFuncs emptyFuncMap].
    rewrite insertFunc_other by exact Ne1. reflexivity.
  - apply findCustom_nothing; [discriminate| |exact Hi|]; subst fc2;
      cbn [with_rand incDepth greenruner NewWithSeed with_r greenrunFuncs
           defaultGreenRunFuncs emptyFuncMap]; [reflexivity|].
    rewrite insertFunc_other by exact Ne2. reflexivity.
  - rewrite E. cbn [rbind storeElem runProg]. unfold pointee_after.
    cbn [passByValue]. destruct Hfit as (z & Hy & Hz). subst y.
    exists (d mod (1000 * 365 * 24 * 60 * 60)), z. eexists.
    split; [reflexivity|]. split.
    + apply Z.mod_pos_bound. lia.
    + unfold is_int, MinInt64, MaxInt64. cbn [Kind_bits int64T reflect.Kind_of
        reflect.Basic_Kind] in Hz.
      change (2 ^ (64 - 1)) with (2 ^ 63) in Hz. lia.
Qed.

Lemma default_time_function_witness :
  exists sec nsec f',
    GreenRun noMethods (NewWithSeed (fun _ => halfSource) 0)
      (ptrTo timeT (reflect.ZeroVal timeT))
    = Ok (ptrTo timeT (time_Unix sec nsec), f') /\
    0 <= sec < 1000 * 365 * 24 * 60 * 60 /\
    is_int nsec.
Proof.
  apply (default_time_function noMethods (fun _ => halfSource) 0
           (reflect.ZeroVal timeT)); reflexivity.
Defined.

(** X14.  With [MaxDepth(1)] the default function for [time.Time] still runs,
    but its nested [c.GreenRun(&nsec)] is at the ceiling: the target is a
    whole number of seconds, [time.Unix(sec, 0)]. *)
Theorem default_time_at_depth_one
  (implements : reflect.type -> option greenrunFunc)
  (NewSource : Z -> nat -> Z) (seed : Z) (x : reflect.Val) :
  implements (reflect.PtrTo timeT) = None ->
  exists sec f',
    GreenRun implements (MaxDepth (NewWithSeed NewSource seed) 1)
      (ptrTo timeT x)
    = Ok (ptrTo timeT (time_Unix sec 0), f') /\
    0 <= sec < 1000 * 365 * 24 * 60 * 60.
Proof.
  intros Ht.
  rewrite (GreenRun_registered implements
             (MaxDepth (NewWithSeed NewSource seed) 1) timeT x greenrunTime).
  2:{ rewrite findCustom_Addr. unfold selfGreenRun.
      cbn [MaxDepth NewWithSeed greenrunFuncs defaultGreenRunFuncs emptyFuncMap
           reflect.Addr reflect.CanInterface negb reflect.Interface_
           reflect.Kind_of].
      rewrite Ht, insertFunc_same. reflexivity. }
  2:{ cbn. lia. }
  change (Nat.pred (Z.to_nat (maxDepth (MaxDepth (NewWithSeed NewSource seed) 1))))
    with O.
  unfold greenrunTime. cbn [runProg]. unfold rand.Int63 at 1. cbv iota.
  set (d := rand.source _ _ mod 2 ^ 63).
  set (fc2 := with_rand _ _).
  cbn [runProg]. unfold Continue_GreenRun.
  cbn [reflect.ValueOf reflect.Kind_ reflect.Kind_of reflect.Elem
       reflect.Basic_Kind].
  change (negb (reflect.Kind_eqb reflect.Ptr reflect.Ptr)) with false.
  cbv iota.
  rewrite doGreenRun_at_ceiling by (subst fc2; cbn; lia).
  cbn [rbind storeElem runProg]. unfold pointee_after. cbn [passByValue].
  exists (d mod (1000 * 365 * 24 * 60 * 60)). eexists.
  split; [reflexivity|]. apply Z.mod_pos_bound. lia.
Qed.

Lemma default_time_at_depth_one_witness :
  exists sec f',
    GreenRun noMethods (MaxDepth (NewWithSeed (fun _ => halfSource) 0) 1)
      (ptrTo timeT (reflect.ZeroVal timeT))
    = Ok (ptrTo timeT (time_Unix sec 0), f') /\
    0 <= sec < 1000 * 365 * 24 * 60 * 60.
Proof.
  apply (default_time_at_depth_one noMethods (fun _ => halfSource) 0
           (reflect.ZeroVal timeT)).
  reflexivity.
Defined.

(* ================================================================= *)
(** ** The table [Funcs] builds *)

Lemma Funcs1_ok (f f' : GreenRunner) (a : anyFunc) :
  Funcs1 f a = Ok f' ->
  exists ft body,
    a = Some (ft, body) /\
    f' = mkGreenRunner (insertFunc (greenrunFuncs f) (reflect.In ft 0) body)
           (defaultGreenRunFuncs f) (r f) (nilChance f)
           (minElements f) (maxElements f) (maxDepth f).
Proof.
  unfold Funcs1. destruct a as [[ft body]|]; [|discriminate].
  destruct (negb (reflect.Kind_eqb _ _)); [discriminate|].
  destruct (negb _ || negb _); [discriminate|].
  destruct (reflect.Kind_of (reflect.In ft 0)); try discriminate;
    destruct (negb (reflect.type_eqb _ _)); try discriminate;
    intros H; inversion H; exists ft, body; split; reflexivity.
Qed.

(** One call with two lists is two calls in a row. *)
Lemma Funcs_app (f : GreenRunner) (l1 l2 : list anyFunc) :
  Funcs f (l1 ++ l2)%list = rbind (Funcs f l1) (fun f' => Funcs f' l2).
Proof.
  revert f. induction l1 as [|a l1 IH]; intros f; cbn [app Funcs rbind].
  - reflexivity.
  - destruct (Funcs1 f a) as [f1| |]; cbn [rbind]; [apply IH| |]; reflexivity.
Qed.

Lemma Funcs_frame (f f' : GreenRunner) (l : list anyFunc) :
  Funcs f l = Ok f' ->
  (defaultGreenRunFuncs f' = defaultGreenRunFuncs f /\ r f' = r f /\
   nilChance f' = nilChance f /\ minElements f' = minElements f /\
   maxElements f' = maxElements f /\ maxDepth f' = maxDepth f) /\
  forall t,
    (forall ft body, List.In (Some (ft, body)) l -> reflect.In ft 0 <> t) ->
    greenrunFuncs f' t = greenrunFuncs f t.
Proof.
  revert f. induction l as [|a l IH]; intros f; cbn [Funcs].
  - intros H; inversion H; subst. repeat split; reflexivity.
  - destruct (Funcs1 f a) as [f1| |] eqn:E1; cbn [rbind]; try discriminate.
    intros H. destruct (IH f1 H) as [Hfld Htab].
    destruct (Funcs1_ok _ _ _ E1) as (ft & body & Ea & Ef1). subst a.
    split.
    + rewrite Ef1 in Hfld. exact Hfld.
    + intros t Hno. rewrite Htab.
      * rewrite Ef1. cbn [greenrunFuncs]. apply insertFunc_other.
        intros Heq. apply (Hno ft body); [left; reflexivity|congruence].
      * intros ft' b' Hin. apply (Hno ft' b'). right. exact Hin.
Qed.

(** X15.  The table after [Funcs]: for any list of accepted functions, a type
    that is the first parameter of none of them keeps its entry, a type
    that is gets the last function given for it, and nothing else of the
    generator changes. *)
Theorem Funcs_table (f f' : GreenRunner) (l : list anyFunc) :
  Funcs f l = Ok f' ->
  (defaultGreenRunFuncs f' = defaultGreenRunFuncs f /\ r f' = r f /\
   nilChance f' = nilChance f /\ minElements f' = minElements f /\
   maxElements f' = maxElements f /\ maxDepth f' = maxDepth f) /\
  (forall t,
     (forall ft body, List.In (Some (ft, body)) l -> reflect.In ft 0 <> t) ->
     greenrunFuncs f' t = greenrunFuncs f t) /\
  (forall l1 ft body l2,
     l = (l1 ++ Some (ft, body) :: l2)%list ->
     (forall ft' b', List.In (Some (ft', b')) l2 ->
                     reflect.In ft' 0 <> reflect.In ft 0) ->
     greenrunFuncs f' (reflect.In ft 0) = Some body).
Proof.
  intros HF. destruct (Funcs_frame f f' l HF) as [Hfld Htab].
  split; [exact Hfld|]. split; [exact Htab|].
  intros l1 ft body l2 El Hlater. subst l.
  rewrite Funcs_app in HF.
  destruct (Funcs f l1) as [f1| |]; cbn [rbind] in HF; try discriminate.
  cbn [Funcs] in HF.
  destruct (Funcs1 f1 (Some (ft, body))) as [f2| |] eqn:E2;
    cbn [rbind] in HF; try discriminate.
  destruct (Funcs1_ok _ _ _ E2) as (ft0 & body0 & Ea & Ef2).
  inversion Ea; subst ft0 body0.
  destruct (Funcs_frame f2 f' l2 HF) as [_ Htab2].
  rewrite (Htab2 (reflect.In ft 0) Hlater). rewrite Ef2.
  cbn [greenrunFuncs]. apply insertFunc_same.
Qed.

Lemma Funcs_table_witness :
  (defaultGreenRunFuncs threeGreenRunner
   = defaultGreenRunFuncs (plainGreenRunner halfSource) /\
   r threeGreenRunner = r (plainGreenRunner halfSource) /\
   nilChance threeGreenRunner = nilChance (plainGreenRunner halfSource) /\
   minElements threeGreenRunner = minElements (plainGreenRunner halfSource) /\
   maxElements threeGreenRunner = maxElements (plainGreenRunner halfSource) /\
   maxDepth threeGreenRunner = maxDepth (plainGreenRunner halfSource)) /\
  (forall t,
     (forall ft body, List.In (Some (ft, body)) threeFuncs ->
                      reflect.In ft 0 <> t) ->
     greenrunFuncs threeGreenRunner t
     = greenrunFuncs (plainGreenRunner halfSource) t) /\
  (forall l1 ft body l2,
     threeFuncs = (l1 ++ Some (ft, body) :: l2)%list ->
     (forall ft' b', List.In (Some (ft', b')) l2 ->
                     reflect.In ft' 0 <> reflect.In ft 0) ->
     greenrunFuncs threeGreenRunner (reflect.In ft 0) = Some body).
Proof.
  apply (Funcs_table (plainGreenRunner halfSource) threeGreenRunner
           threeFuncs).
  reflexivity.
Defined.

(* ================================================================= *)
(** ** The nil chance 0 on a stream without the draw 0.0 *)

(** The generators [NewWithSeed(..).RandSource(..).NilChance(0)
    .NumElements(1, 1)] builds are of the plain configuration. *)
Lemma NewWithSeed_plain_config (NewSource : Z -> nat -> Z) (seed : Z)
  (src : nat -> Z) (f1 f2 : GreenRunner) :
  NilChance (RandSource (NewWithSeed NewSource seed) src) 0%float = Ok f1 ->
  NumElements f1 1 1 = Ok f2 ->
  plain_config src f2.
Proof.
  unfold NilChance.
  change (PrimFloat.ltb 0%float 0%float || PrimFloat.ltb 1%float 0%float)
    with false.
  cbv iota. intros H1; inversion H1; subst f1; clear H1.
  unfold NumElements. change (1 >? 1) with false. change (1 <? 0) with false.
  cbv iota. intros H2; inversion H2; subst f2; clear H2.
  unfold plain_config, RandSource, NewWithSeed, with_r.
  cbn [nilChance minElements maxElements greenrunFuncs defaultGreenRunFuncs
       r rand.source].
  repeat (split; [reflexivity|]). split; [|reflexivity].
  intros t fn. unfold insertFunc, emptyFuncMap.
  destruct (reflect.type_eq_dec (reflect.PtrTo timeT) t) as [<-|_];
    [|discriminate].
  intros H; inversion H. split; reflexivity.
Qed.

Lemma plain_config_evolves (src : nat -> Z) (fc fc' : greenrunerContext) :
  evolves fc fc' ->
  plain_config src (greenruner fc) -> plain_config src (greenruner fc').
Proof.
  intros He (H1 & H2 & H3 & H4 & H5 & H6).
  destruct (evolves_config _ _ He) as (E1 & E2 & E3).
  destruct (evolves_funcs _ _ He) as [F1 F2].
  destruct He as (_ & _ & Hs). unfold same_source in Hs.
  unfold plain_config. rewrite E1, E2, E3, F1, F2, Hs.
  repeat (split; [assumption|]). assumption.
Qed.

Lemma genShouldFill_never_zero (src : nat -> Z) (f : GreenRunner) :
  plain_config src f -> never_zero src -> fst (genShouldFill f) = true.
Proof.
  intros (H1 & _ & _ & _ & _ & H6) Hz. unfold genShouldFill.
  specialize (Hz (rand.drawn (r f))).
  destruct (r f) as [s i]. cbn [rand.source rand.drawn] in *. subst s.
  destruct (rand.Float64 (rand.mkRand src i)) as [x r'].
  cbn [fst] in *. rewrite H1. exact Hz.
Qed.

(** The lookups of a plain configuration in a program without
    self-generating types: only a default function can be found. *)
Lemma findCustom_plain (implements : reflect.type -> option greenrunFunc)
  (src : nat -> Z) (f : GreenRunner) (t : reflect.type) (x : reflect.Val)
  (a ro : bool) :
  (forall u, implements u = None) ->
  plain_config src f ->
  findCustom implements f (reflect.MkValue t x a ro)
  = match defaultGreenRunFuncs f t with
    | Some fn => UseFunc fn
    | None => NoCustom
    end.
Proof.
  intros Hi (_ & _ & _ & H4 & _). unfold findCustom. cbn [reflect.Type_].
  rewrite H4. unfold selfGreenRun.
  destruct (reflect.CanInterface _); [|reflexivity].
  destruct (reflect.Interface_ _) as [[dt y]|]; [rewrite Hi|]; reflexivity.
Qed.

Lemma passByValue_ptr (w out : reflect.Val) :
  exists z, passByValue (reflect.VPtr (Some w)) out = reflect.VPtr (Some z).
Proof.
  destruct out as [| | | | | | | | | |[y|]| | | |]; cbn [passByValue]; eauto.
Qed.

Lemma runProg_greenrunTime (rec : step) (a out : reflect.Val)
  (fc fc' : greenrunerContext) :
  runProg rec (greenrunTime a) fc = Ok (out, fc') ->
  exists sec nsec, out = reflect.VPtr (Some (time_Unix sec nsec)).
Proof.
  unfold greenrunTime. cbn [runProg]. unfold rand.Int63 at 1. cbv iota.
  cbn [runProg].
  destruct (Continue_GreenRun _ _ _) as [[o fc1]| |]; try discriminate.
  cbn [runProg]. intros H; inversion H. eexists _, _. reflexivity.
Qed.

Lemma doGreenRun_filled (implements : reflect.type -> option greenrunFunc)
  (src : nat -> Z) (fuel : nat) (ft : reflect.type)
  (x : reflect.Val) (fc fc' : greenrunerContext) (e : reflect.Value) :
  (forall u, implements u = None) ->
  plain_config src (greenruner fc) -> never_zero src ->
  curDepth fc < maxDepth (greenruner fc) ->
  (reflect.Kind_of ft = reflect.Ptr -> exists p, x = reflect.VPtr p) ->
  doGreenRun implements (S fuel) (reflect.MkValue ft x true false) 0 fc
  = Ok (e, fc') ->
  filled (reflect.Kind_of ft) (reflect.val_of e x).
Proof.
  intros Hi Hp Hz Hd Hx.
  pose proof Hp as (H1 & H2 & H3 & H4 & H5 & H6).
  destruct (defaultGreenRunFuncs (greenruner fc) (reflect.PtrTo ft))
    as [fn|] eqn:Ea.
  { destruct (H5 _ _ Ea) as [Et _]. inversion Et; subst ft.
    intros _. exact I. }
  cbn [doGreenRun].
  destruct (curDepth fc >=? maxDepth (greenruner fc)) eqn:Eg.
  { rewrite Z.geb_leb in Eg. apply Z.leb_le in Eg. lia. }
  assert (Hpa : findCustom implements (greenruner (incDepth fc))
                  (reflect.Addr (reflect.MkValue ft x true false)) = NoCustom).
  { cbn [reflect.Addr incDepth greenruner].
    rewrite (findCustom_plain implements src) by assumption.
    rewrite Ea. reflexivity. }
  destruct (defaultGreenRunFuncs (greenruner fc) ft) as [fn|] eqn:Ev.
  - destruct (H5 _ _ Ev) as [Et Efn]. subst ft fn.
    destruct (Hx eq_refl) as [p ->].
    unfold doGreenRunBody. cbn [reflect.CanSet reflect.CanAddr andb negb].
    change (Z.land 0 flagNoCustomGreenRun =? 0) with true. cbv iota.
    rewrite tryCustom_miss; [|discriminate|exact Hpa].
    unfold tryCustom.
    rewrite (findCustom_plain implements src) by assumption.
    cbn [incDepth greenruner]. rewrite Ev.
    unfold allocTarget. cbn [reflect.Kind_of].
    destruct p as [w|];
      cbn [reflect.IsNil reflect.CanSet andb negb reflect.Set_ Call reflect.New];
      (destruct (runProg _ _ _) as [[out fc1]| |];
       cbn [rbind deferDec]; try discriminate);
      intros H; inversion H; subst;
      cbn [reflect.val_of filled reflect.Kind_of]; apply passByValue_ptr.
  - assert (Hpv : findCustom implements (greenruner (incDepth fc))
                    (reflect.MkValue ft x true false) = NoCustom).
    { cbn [incDepth greenruner].
      rewrite (findCustom_plain implements src) by assumption.
      rewrite Ev. reflexivity. }
    rewrite doGreenRunBody_miss by assumption.
    rewrite doGreenRunBody_flagged. cbn [reflect.CanSet andb negb].
    destruct (structural _ _ _) as [[v1 fc1]| |] eqn:Es; try discriminate.
    cbn [deferDec]. intros H. injection H as He Hfc. subst e fc'.
    apply structural_filled in Es; try assumption.
    + unfold filled.
      destruct (reflect.Kind_of ft); try exact I.
      * destruct Es as (k & y & ->). eexists _, _. reflexivity.
      * destruct Es as (y & ->). eexists. reflexivity.
      * destruct Es as (y & ->). eexists. reflexivity.
    + apply genShouldFill_never_zero with (src := src); assumption.
Qed.

Section FieldsFilled.

Variable rec : step.
Variables d M : Z.
Variable src : nat -> Z.

Hypothesis rec_post :
  forall v fl fc, at_depth d M fc -> post True fc (rec v fl fc).
Hypothesis rec_filled :
  forall ft x fc e fc',
    at_depth d M fc -> plain_config src (greenruner fc) ->
    (reflect.Kind_of ft = reflect.Ptr -> exists p, x = reflect.VPtr p) ->
    rec (reflect.MkValue ft x true false) 0 fc = Ok (e, fc') ->
    filled (reflect.Kind_of ft) (reflect.val_of e x).

Lemma fillFieldsLoop_filled (fts : list (string * bool * reflect.type))
  (vals l : list reflect.Val) (fc fc' : greenrunerContext) :
  at_depth d M fc -> plain_config src (greenruner fc) ->
  pointer_fields fts vals ->
  fillFieldsLoop rec true false fts vals fc = Ok (l, fc') ->
  Forall2 (fun fld y => snd (fst fld) = true ->
                        filled (reflect.Kind_of (snd fld)) y) fts l.
Proof.
  intros Hd Hp Hpf. unfold pointer_fields in Hpf. revert l fc fc' Hd Hp.
  induction Hpf as [|[[nm ex] ft] x fts rest Hx Hrest IH];
    intros l fc fc' Hd Hp; cbn [fillFieldsLoop].
  - intros H; inversion H; subst. constructor.
  - pose proof (rec_post (reflect.MkValue ft x true (false || negb ex)) 0 fc Hd)
      as P.
    destruct (rec _ _ _) as [[e fc1]| |] eqn:Er; try discriminate.
    cbn [post] in P.
    destruct (fillFieldsLoop rec true false fts rest fc1) as [[rest' fc2]| |]
      eqn:El; try discriminate.
    intros H; inversion H; subst. constructor.
    + cbn [fst snd] in Hx |- *. intros ->. cbn [negb orb] in Er.
      eapply rec_filled; eassumption.
    + eapply IH; [| |exact El].
      * eapply at_depth_evolves; eassumption.
      * eapply plain_config_evolves; eassumption.
Qed.

End FieldsFilled.

(** X16.  The positive half of the nil-chance boundary.  In a program
    none of whose types implements [greenrun.Interface], take a generator
    with [NilChance(0).NumElements(1, 1)], no function registered through
    [Funcs] (the default function of [NewWithSeed] for [*time.Time] may be
    there), a depth ceiling of 2 or more and a stream that never makes
    [Float64()] return [0.0].  A [GreenRun] that returns on a struct whose
    fields of pointer kind hold pointers has left every exported field of
    pointer, map or slice kind non-nil, the maps and slices with one
    entry. *)
Theorem nil_chance_zero_fills
  (implements : reflect.type -> option greenrunFunc) (src : nat -> Z)
  (f f' : GreenRunner) (t : reflect.type) (vals : list reflect.Val)
  (obj' : reflect.iface) :
  (forall u, implements u = None) ->
  plain_config src f -> never_zero src ->
  2 <= maxDepth f ->
  reflect.Kind_of t = reflect.Struct ->
  pointer_fields (reflect.Fields t) vals ->
  GreenRun implements f (ptrTo t (reflect.VStruct vals)) = Ok (obj', f') ->
  exists l,
    obj' = ptrTo t (reflect.VStruct l) /\
    Forall2 (fun fld y => snd (fst fld) = true ->
                          filled (reflect.Kind_of (snd fld)) y)
      (reflect.Fields t) l.
Proof.
  intros Hi Hp Hz Hd Hk Hpf.
  pose proof Hp as (H1 & H2 & H3 & H4 & H5 & H6).
  destruct (defaultGreenRunFuncs f (reflect.PtrTo t)) as [fn|] eqn:Ea.
  - (* the struct is [time.Time]: the default function sets it *)
    destruct (H5 _ _ Ea) as [Et Efn]. inversion Et; subst t fn.
    rewrite (GreenRun_registered implements f timeT (reflect.VStruct vals)
               greenrunTime).
    2:{ rewrite findCustom_Addr. rewrite H4. unfold selfGreenRun.
        cbn [reflect.Addr reflect.CanInterface negb reflect.Interface_
             reflect.Kind_of].
        rewrite Hi, Ea. reflexivity. }
    2:{ lia. }
    destruct (runProg _ _ _) as [[out fc1]| |] eqn:Er; try discriminate.
    intros H. injection H as Ho Hf. subst obj' f'.
    destruct (runProg_greenrunTime _ _ _ _ _ Er) as (sec & nsec & ->).
    unfold pointee_after. cbn [passByValue]. unfold time_Unix.
    eexists. split; [reflexivity|].
    change (reflect.Fields timeT)
      with [("wall", false, reflect.BasicT reflect.BUint64);
            ("ext", false, reflect.BasicT reflect.BInt64);
            ("loc", false,
             reflect.PtrTo (reflect.Named "time.Location"
                              (reflect.StructOf [])))].
    repeat (constructor; [cbn [fst snd]; discriminate|]). constructor.
  - assert (Ev : defaultGreenRunFuncs f t = None).
    { destruct (defaultGreenRunFuncs f t) as [fn|] eqn:Ev; [|reflexivity].
      destruct (H5 _ _ Ev) as [Et _]. rewrite Et in Hk. discriminate Hk. }
    unfold GreenRun, ptrTo, greenrunWithContext.
    cbn [reflect.ValueOf reflect.Kind_ reflect.Kind_of reflect.Elem].
    change (negb (reflect.Kind_eqb reflect.Ptr reflect.Ptr)) with false.
    cbv iota.
    destruct (Z.to_nat (maxDepth f)) as [|[|k]] eqn:Ef; try lia.
    cbn [doGreenRun curDepth greenruner].
    destruct (0 >=? maxDepth f) eqn:E.
    { rewrite Z.geb_leb in E. apply Z.leb_le in E. lia. }
    change (reflect.Elem_type (reflect.PtrTo t)) with t.
    rewrite doGreenRunBody_miss.
    2:{ cbn [reflect.Addr incDepth greenruner].
        rewrite (findCustom_plain implements src) by assumption.
        rewrite Ea. reflexivity. }
    2:{ cbn [incDepth greenruner].
        rewrite (findCustom_plain implements src) by assumption.
        rewrite Ev. reflexivity. }
    rewrite doGreenRunBody_flagged. cbn [reflect.CanSet andb negb].
    unfold structural. rewrite Hk. cbn [fillFuncMap struct_fields].
    destruct (fillFieldsLoop _ _ _ _ _ _) as [[l fc1]| |] eqn:El;
      try discriminate.
    cbn [deferDec storeElem]. intros H. injection H as Ho Hf. subst obj' f'.
    exists l. split; [reflexivity|].
    eapply (fillFieldsLoop_filled (doGreenRun implements (S k)) 1
              (maxDepth f) src); [| | | |exact Hpf|exact El].
    + intros v fl fc _. apply doGreenRun_post_True.
    + intros ft x fc e fc' [D1 D2] Hpc Hx Hr.
      eapply doGreenRun_filled;
        [exact Hi|exact Hpc|exact Hz| |exact Hx|exact Hr]. lia.
    + split; reflexivity.
    + exact Hp.
Qed.

Lemma nil_chance_zero_fills_witness :
  exists l,
    ptrTo PTMS
      (reflect.VStruct
         [reflect.VPtr (Some (reflect.VInt 0));
          reflect.VPtr (Some (time_Unix 1 0));
          reflect.VMap (Some [(reflect.VInt 0, reflect.VInt 0)]);
          reflect.VSlice (Some [reflect.VInt 0])])
    = ptrTo PTMS (reflect.VStruct l) /\
    Forall2 (fun fld y => snd (fst fld) = true ->
                          filled (reflect.Kind_of (snd fld)) y)
      (reflect.Fields PTMS) l.
Proof.
  apply (nil_chance_zero_fills noMethods oneSource zeroNilGreenRunner
           (with_r zeroNilGreenRunner (rand.mkRand oneSource 14))
           PTMS (struct_fields (reflect.ZeroVal PTMS))).
  - intros u. reflexivity.
  - apply (NewWithSeed_plain_config (fun _ => zeroSource) 0 oneSource
             (mkGreenRunner emptyFuncMap
                (insertFunc emptyFuncMap (reflect.PtrTo timeT) greenrunTime)
                (rand.mkRand oneSource O) 0%float 1 10 100)
             zeroNilGreenRunner); reflexivity.
  - intros i. reflexivity.
  - cbn. lia.
  - reflexivity.
  - repeat (constructor;
            [cbn [snd reflect.Kind_of]; intros H;
             first [discriminate H | eexists; reflexivity]|]).
    constructor.
  - reflexivity.
Defined.
